(** * AI Content Guardian: a shallow embedding of the content pipeline

    The development follows the source files of the extension:
    - [utils/ai-service.js]: the local keyword heuristics
      ([calculateLocalToxicityScore], [localRephrase]) and [tokenizeText];
    - the background script: [analyzeTextContent], [rephraseTextContent]
      and the message listener around them;
    - the content script: [analyzeElement], [handleAnalysisResult],
      [addWarningIndicator], [rephraseContent], [removeAllModifications],
      [shouldIgnoreElement], [setupObserver] and the message listener;
    - the settings: [saveSettings] of the popup, [GET_SETTINGS] and the
      listener of [chrome.tabs.onUpdated] in the background script;
    - [utils/dom-utils.js]: [extractTextWithMapping], [findNodesInRange].

    JavaScript strings are modelled as [string] (one [ascii] per code unit;
    the patterns of the source only mention ASCII characters).  The DOM is a
    tree of nodes carrying a reference number that stands for the identity of
    the JavaScript object.  Asynchronous code (timers, message callbacks) is
    defunctionalised: a handler returns the new state, in which the timers it
    armed and the messages it sent are recorded, and the environment picks
    which one runs next. *)

From Stdlib Require Import Ascii String QArith.
From stdpp Require Import base option list strings gmap.

Local Open Scope string_scope.
Local Open Scope list_scope.

(** ** JavaScript string primitives *)

Module JsString.

Definition code (c : ascii) : nat := nat_of_ascii c.

Definition between (lo hi : nat) (c : ascii) : bool :=
  (lo <=? code c)%nat && (code c <=? hi)%nat.

Definition isUpper : ascii -> bool := between 65 90.
Definition isLower : ascii -> bool := between 97 122.
Definition isDigit : ascii -> bool := between 48 57.

(** [\w] of a regular expression without the [u] flag: [A-Za-z0-9_]. *)
Definition isWordChar (c : ascii) : bool :=
  isUpper c || isLower c || isDigit c || (code c =? 95)%nat.

(** White space and line terminators, as [String.prototype.trim] strips
    them (tab, LF, VT, FF, CR, space, no-break space). *)
Definition isWhiteSpace (c : ascii) : bool :=
  between 9 13 c || (code c =? 32)%nat || (code c =? 160)%nat.

(** Line terminators, which [.] does not match. *)
Definition isLineTerminator (c : ascii) : bool :=
  (code c =? 10)%nat || (code c =? 13)%nat.

Definition lowerChar (c : ascii) : ascii :=
  if isUpper c then ascii_of_nat (code c + 32) else c.

Definition upperChar (c : ascii) : ascii :=
  if isLower c then ascii_of_nat (code c - 32) else c.

Fixpoint toLowerCase (s : string) : string :=
  match s with
  | EmptyString => EmptyString
  | String c s' => String (lowerChar c) (toLowerCase s')
  end.

Fixpoint trimStart (s : string) : string :=
  match s with
  | EmptyString => EmptyString
  | String c s' => if isWhiteSpace c then trimStart s' else s
  end.

Definition trimEnd (s : string) : string :=
  String.rev (trimStart (String.rev s)).

Definition trim (s : string) : string := trimEnd (trimStart s).

(** [s.startsWith(p)] *)
Fixpoint startsWith (p s : string) : bool :=
  match p, s with
  | EmptyString, _ => true
  | String a p', String b s' => if decide (a = b) then startsWith p' s' else false
  | String _ _, EmptyString => false
  end.

(** A string is truthy when it is not empty. *)
Definition truthy (s : string) : bool :=
  match s with EmptyString => false | String _ _ => true end.

Definition head (s : string) : option ascii :=
  match s with EmptyString => None | String c _ => Some c end.

End JsString.

(** ** Regular expressions

    The fragment of the regular expressions the source uses, all of them
    written with the [i] flag: literals, one-character sets ([.], [[*\w]]),
    the word boundary, sequence, alternation and the star of a
    one-character set ([.*]).  [Chr] is a literal under the [i] flag,
    [Exact] a literal of the one pattern written without it.  The matcher
    is the backtracking matcher of the language specification in
    continuation-passing style: alternatives are tried left to right and
    the star is greedy, so that the first result is the match JavaScript
    reports. *)

Module Regex.
Import JsString.

Inductive regex : Type :=
| Eps
| Exact (c : ascii)
| Chr (c : ascii)
| OneOf (p : ascii -> bool)
| Bound
| Seq (r1 r2 : regex)
| Alt (r1 r2 : regex)
| StarOf (p : ascii -> bool).

Definition isWordAt (o : option ascii) : bool :=
  match o with Some c => isWordChar c | None => false end.

(** Canonicalisation under the [i] flag. *)
Definition sameLetter (a c : ascii) : bool :=
  bool_decide (upperChar a = upperChar c).

Fixpoint matchAt {A : Type} (r : regex) (prev : option ascii) (s : string)
    (k : option ascii -> string -> option A) : option A :=
  match r with
  | Eps => k prev s
  | Exact c =>
      match s with
      | String a s' => if bool_decide (a = c) then k (Some a) s' else None
      | EmptyString => None
      end
  | Chr c =>
      match s with
      | String a s' => if sameLetter a c then k (Some a) s' else None
      | EmptyString => None
      end
  | OneOf p =>
      match s with
      | String a s' => if p a then k (Some a) s' else None
      | EmptyString => None
      end
  | Bound =>
      if xorb (isWordAt prev) (isWordAt (head s)) then k prev s else None
  | Seq r1 r2 => matchAt r1 prev s (fun prev' s' => matchAt r2 prev' s' k)
  | Alt r1 r2 =>
      match matchAt r1 prev s k with
      | Some x => Some x
      | None => matchAt r2 prev s k
      end
  | StarOf p =>
      (fix star (prev : option ascii) (s : string) : option A :=
         match s with
         | String a s' =>
             if p a then
               match star (Some a) s' with
               | Some x => Some x
               | None => k prev s
               end
             else k prev s
         | EmptyString => k prev s
         end) prev s
  end.

(** The input left after a match that starts at the current position. *)
Definition exec (r : regex) (prev : option ascii) (s : string) : option string :=
  matchAt r prev s (fun _ rest => Some rest).

Fixpoint searchFrom (r : regex) (prev : option ascii) (s : string) : bool :=
  match exec r prev s with
  | Some _ => true
  | None =>
      match s with
      | String a s' => searchFrom r (Some a) s'
      | EmptyString => false
      end
  end.

(** [regex.test(s)] for a regular expression without the [g] flag. *)
Definition test (r : regex) (s : string) : bool := searchFrom r None s.

(** [s.replace(regex, repl)] for a regular expression with the [g] flag
    and a replacement without [$] patterns.  [skip] counts the characters
    of the current match that are still to be passed over. *)
Fixpoint replaceFrom (r : regex) (repl : string) (prev : option ascii)
    (skip : nat) (s : string) : string :=
  match s with
  | EmptyString =>
      match skip, exec r prev EmptyString with
      | O, Some _ => repl
      | _, _ => EmptyString
      end
  | String a s' =>
      match skip with
      | S n => replaceFrom r repl (Some a) n s'
      | O =>
          match exec r prev s with
          | Some rest =>
              match (String.length s - String.length rest)%nat with
              | O => repl +:+ String a (replaceFrom r repl (Some a) 0 s')
              | S n => repl +:+ replaceFrom r repl (Some a) n s'
              end
          | None => String a (replaceFrom r repl (Some a) 0 s')
          end
      end
  end.

Definition replaceAll (r : regex) (repl : string) (s : string) : string :=
  replaceFrom r repl None 0 s.

(** Pattern builders. *)
Fixpoint Str (w : string) : regex :=
  match w with
  | EmptyString => Eps
  | String c w' => Seq (Chr c) (Str w')
  end.

Fixpoint StrExact (w : string) : regex :=
  match w with
  | EmptyString => Eps
  | String c w' => Seq (Exact c) (StrExact w')
  end.

Fixpoint AnyOf (rs : list regex) : regex :=
  match rs with
  | [] => OneOf (fun _ => false)
  | [r] => r
  | r :: rs' => Alt r (AnyOf rs')
  end.

Definition Words (ws : list string) : regex := AnyOf (map Str ws).

Fixpoint Cat (rs : list regex) : regex :=
  match rs with
  | [] => Eps
  | [r] => r
  | r :: rs' => Seq r (Cat rs')
  end.

(** [.] and [[*\w]] *)
Definition dot (c : ascii) : bool := negb (isLineTerminator c).
Definition starOrWord (c : ascii) : bool :=
  bool_decide (c = "*"%char) || isWordChar c.

(** [/\bword\b/] *)
Definition WholeWord (r : regex) : regex := Cat [Bound; r; Bound].

(** [s.split(separator)] for a regular expression without capture groups
    and without a limit.  [sep prev s] is the input left after a match of
    the separator at the current position, [prev] being the character
    before it (the one a lookbehind reads).  [piece] is the text since the
    end of the last separator and [skip] counts the characters of the
    current separator that are still to be passed over.  A separator that
    matches the empty string splits between two characters, but not at the
    start of a piece. *)
Fixpoint splitFrom (sep : option ascii -> string -> option string)
    (prev : option ascii) (skip : nat) (piece : string) (s : string)
    : list string :=
  match s with
  | EmptyString => [piece]
  | String a s' =>
      match skip with
      | S n => splitFrom sep (Some a) n piece s'
      | O =>
          match sep prev s with
          | Some rest =>
              match (String.length s - String.length rest)%nat with
              | O =>
                  if truthy piece
                  then piece :: splitFrom sep (Some a) 0 (String a "") s'
                  else splitFrom sep (Some a) 0 (String a "") s'
              | S n => piece :: splitFrom sep (Some a) n "" s'
              end
          | None => splitFrom sep (Some a) 0 (piece +:+ String a "") s'
          end
      end
  end.

Definition split (sep : option ascii -> string -> option string) (s : string)
    : list string :=
  match s with
  | EmptyString =>
      match sep None "" with
      | Some _ => []
      | None => [""]
      end
  | String _ _ => splitFrom sep None 0 "" s
  end.

End Regex.

(** ** utils/ai-service.js: the local heuristics *)

Module AIGuardianUtils.
Import JsString Regex.

(** What [calculateLocalToxicityScore] returns. *)
Record localResult : Type := LocalResult {
  isHarmful : bool;
  category : string;
  confidence : Q;
  explanation : string
}.

(** The [patterns] object, in the order of its keys. *)
Definition patterns : list (string * list regex) :=
  [ ("harmful",
      [ Cat [Str "how to "; Words ["make"; "create"; "build"]; Str " ";
             Words ["bomb"; "explosive"; "weapon"]];
        Str "suicide method";
        Str "kidnap";
        Cat [Bound; Str "kill"; Bound; StarOf dot; Bound; Str "people"; Bound] ]);
    ("offensive",
      [ WholeWord (Cat [Chr "f"; OneOf starOrWord; Str "ck"]);
        WholeWord (Cat [Chr "s"; OneOf starOrWord; Str "it"]);
        WholeWord (Cat [Chr "a"; OneOf starOrWord; Chr "s"]);
        WholeWord (Cat [Chr "b"; OneOf starOrWord; Str "tch"]);
        WholeWord (Cat [Chr "n"; OneOf starOrWord; Str "gg"; OneOf starOrWord; Chr "r"]);
        WholeWord (Cat [Chr "c"; OneOf starOrWord; Str "nt"]) ]);
    ("inappropriate",
      [ Str "porn"; Str "nude"; Str "sex"; Str "genital" ]) ].

(** The two nested [for] loops: the first pattern that matches decides. *)
Fixpoint firstCategory (ps : list (string * list regex)) (lowerText : string)
    : option string :=
  match ps with
  | [] => None
  | (category, regexList) :: ps' =>
      if existsb (fun regex => test regex lowerText) regexList
      then Some category
      else firstCategory ps' lowerText
  end.

Definition calculateLocalToxicityScore (text : string) : localResult :=
  let lowerText := toLowerCase text in
  match firstCategory patterns lowerText with
  | Some category =>
      {| isHarmful := true;
         category := category;
         confidence := 7 # 10;
         explanation :=
           "This content may contain " +:+ category +:+ " material (detected locally)" |}
  | None =>
      {| isHarmful := false;
         category := "safe";
         confidence := 6 # 10;
         explanation := "This content appears to be safe (analyzed locally)" |}
  end.

(** The [replacements] object, in the order of its keys. *)
Definition replacements : list (string * string) :=
  [ ("fuck", "****"); ("shit", "****"); ("bitch", "*****"); ("ass", "***");
    ("kill", "harm"); ("bomb", "device"); ("weapon", "tool");
    ("porn", "content"); ("nude", "unclothed"); ("sex", "intimacy") ].

(** The loop over [Object.entries(replacements)]. *)
Definition applyReplacements (rs : list (string * string)) (text : string) : string :=
  fold_left (fun rephrased '(word, replacement) =>
               replaceAll (WholeWord (Str word)) replacement rephrased)
            rs text.

Definition safetyNotice : string :=
  "[This content has been modified for safety reasons]".

Definition localRephrase (text category : string) : string :=
  let rephrased := applyReplacements replacements text in
  if decide (category = "harmful") then safetyNotice else rephrased.

(** *** [tokenizeText] *)

(** [(?<=[.!?])]: the character before the current position ends a
    sentence. *)
Definition afterSentenceEnd (prev : option ascii) : bool :=
  match prev with
  | Some c => bool_decide (c ∈ ["."; "!"; "?"]%char)
  | None => false
  end.

(** [/(?<=[.!?])\s+/] at the current position. *)
Definition sentenceBreak (prev : option ascii) (s : string) : option string :=
  if afterSentenceEnd prev
  then exec (Seq (OneOf isWhiteSpace) (StarOf isWhiteSpace)) prev s
  else None.

(** One turn of the loop over the sentences. *)
Definition addSentence (maxLength : nat) (acc : list string * string)
    (sentence : string) : list string * string :=
  let '(chunks, currentChunk) := acc in
  let '(chunks, currentChunk) :=
    if (maxLength <? String.length currentChunk + String.length sentence)%nat
       && (0 <? String.length currentChunk)%nat
    then (chunks ++ [trim currentChunk], "")
    else (chunks, currentChunk) in
  (chunks, currentChunk +:+ sentence +:+ " ").

(** [tokenizeText(text, maxLength)]; [maxLength] is 500 when the caller
    gives none. *)
Definition tokenizeText (text : string) (maxLength : nat) : list string :=
  let sentences := split sentenceBreak text in
  let '(chunks, currentChunk) :=
    fold_left (addSentence maxLength) sentences ([], "") in
  if (0 <? String.length (trim currentChunk))%nat
  then chunks ++ [trim currentChunk]
  else chunks.

End AIGuardianUtils.

(** ** The background script *)

Module Background.
Import JsString.

(** The verdict sent back for an [ANALYZE_TEXT] message: the JSON body of
    [POST /analyze], or the record built from the local heuristic. *)
Record analysisResult : Type := AnalysisResult {
  text : string;
  isHarmful : bool;
  category : string;
  confidence : Q;
  explanation : string
}.

(** The answer to a [REPHRASE_TEXT] message. *)
Record rephraseResult : Type := RephraseResult {
  original : string;
  rephrased : string
}.

(** How a promise settles. *)
Inductive completion (A : Type) : Type :=
| Resolved (a : A)
| Rejected.
Arguments Resolved {A} a.
Arguments Rejected {A}.

#[export] Instance completion_bind : MBind completion := fun A B f c =>
  match c with Resolved a => f a | Rejected => Rejected end.

(** [try { body } catch (error) { handler }] *)
Definition tryCatch {A : Type} (body handler : completion A) : completion A :=
  match body with Resolved a => Resolved a | Rejected => handler end.

(** What [fetch] meets on the network: a transport failure, or a response
    with a status whose body parses as JSON or does not. *)
Inductive network (A : Type) : Type :=
| TransportFailure
| Response (status : nat) (body : option A).
Arguments TransportFailure {A}.
Arguments Response {A} status body.

Definition fetch {A : Type} (net : network A) : completion (nat * option A) :=
  match net with
  | TransportFailure => Rejected
  | Response status body => Resolved (status, body)
  end.

(** [response.ok]: the status is in the range 200-299. *)
Definition ok {A : Type} (response : nat * option A) : bool :=
  (200 <=? fst response)%nat && (fst response <=? 299)%nat.

(** [await response.json()] *)
Definition json {A : Type} (response : nat * option A) : completion A :=
  match snd response with Some a => Resolved a | None => Rejected end.

(** [window.AIGuardianUtils] where the background script runs.  The
    object is assigned by [utils/ai-service.js] when that file is loaded
    into a context that has a [window]; the manifest, which decides what is
    loaded with the background script, is not among the sources, so this is
    a parameter of the handlers.  Where the object is missing (the file is
    not loaded, or the script runs in a service worker, which has no
    [window]) reading a property of it throws. *)
Inductive utilities : Type :=
| Loaded
| NotLoaded.

(** [window.AIGuardianUtils.calculateLocalToxicityScore(text)] *)
Definition callCalculateLocalToxicityScore (w : utilities) (text : string)
    : completion AIGuardianUtils.localResult :=
  match w with
  | Loaded => Resolved (AIGuardianUtils.calculateLocalToxicityScore text)
  | NotLoaded => Rejected
  end.

(** [window.AIGuardianUtils.localRephrase(text, category)] *)
Definition callLocalRephrase (w : utilities) (text category : string)
    : completion string :=
  match w with
  | Loaded => Resolved (AIGuardianUtils.localRephrase text category)
  | NotLoaded => Rejected
  end.

(** What both fallback branches of [analyzeTextContent] do. *)
Definition localAnalysis (w : utilities) (text : string) : completion analysisResult :=
  localResult ← callCalculateLocalToxicityScore w text;
  Resolved
    {| text := text;
       isHarmful := AIGuardianUtils.isHarmful localResult;
       category := AIGuardianUtils.category localResult;
       confidence := AIGuardianUtils.confidence localResult;
       explanation := AIGuardianUtils.explanation localResult |}.

Definition analyzeTextContent (w : utilities) (net : network analysisResult)
    (text : string) : completion analysisResult :=
  tryCatch
    (response ← fetch net;
     if negb (ok response) then localAnalysis w text
     else
       result ← json response;
       Resolved result)
    (localAnalysis w text).

(** What both fallback branches of [rephraseTextContent] do. *)
Definition localRephrasing (w : utilities) (text category : string)
    : completion rephraseResult :=
  rephrased ← callLocalRephrase w text category;
  Resolved {| original := text; rephrased := rephrased |}.

Definition rephraseTextContent (w : utilities) (net : network rephraseResult)
    (text category : string) : completion rephraseResult :=
  tryCatch
    (response ← fetch net;
     if negb (ok response) then localRephrasing w text category
     else
       result ← json response;
       Resolved result)
    (localRephrasing w text category).

(** Statistics kept in [chrome.storage.local]. *)
Record stats : Type := Stats {
  analyzed : nat;
  harmful : nat;
  rephrasedCount : nat
}.

Definition DEFAULT_STATS : stats :=
  {| analyzed := 0; harmful := 0; rephrasedCount := 0 |}.

Definition updateStatistics (type : string) (st : stats) : stats :=
  if decide (type = "analyzed") then
    {| analyzed := analyzed st + 1; harmful := harmful st;
       rephrasedCount := rephrasedCount st |}
  else if decide (type = "harmful") then
    {| analyzed := analyzed st; harmful := harmful st + 1;
       rephrasedCount := rephrasedCount st |}
  else if decide (type = "rephrased") then
    {| analyzed := analyzed st; harmful := harmful st;
       rephrasedCount := rephrasedCount st + 1 |}
  else st.

(** What a content script receives in the callback of
    [chrome.runtime.sendMessage]: the value passed to [sendResponse], the
    object [{ error }] or nothing at all. *)
Inductive reply (A : Type) : Type :=
| Reply (a : A)
| ErrorReply (error : string)
| NoReply.
Arguments Reply {A} a.
Arguments ErrorReply {A} error.
Arguments NoReply {A}.

(** The listener, on [ANALYZE_TEXT]. *)
Definition onAnalyzeText (w : utilities) (net : network analysisResult)
    (text : string) (st : stats) : reply analysisResult * stats :=
  match analyzeTextContent w net text with
  | Resolved result =>
      let st := if isHarmful result then updateStatistics "harmful" st else st in
      let st := updateStatistics "analyzed" st in
      (Reply result, st)
  | Rejected => (ErrorReply "Failed to analyze text", st)
  end.

(** The listener, on [REPHRASE_TEXT]. *)
Definition onRephraseText (w : utilities) (net : network rephraseResult)
    (text category : string) (st : stats) : reply rephraseResult * stats :=
  match rephraseTextContent w net text category with
  | Resolved result => (Reply result, updateStatistics "rephrased" st)
  | Rejected => (ErrorReply "Failed to rephrase text", st)
  end.

End Background.

(** ** The document

    An element is a record of what the scripts read and write; a node
    carries a reference number that stands for the identity of the
    JavaScript object, so that a callback can find "its" element again in a
    document that has changed meanwhile.  [classList] is the token list of
    the [class] attribute (tokens are non-empty and free of white space). *)

Module Dom.
Import JsString.

Record style : Type := Style {
  position : string;
  opacity : string;
  transition : string;
  display : string
}.

Definition noStyle : style := Style "" "" "" "".

Record element : Type := Element {
  tagName : string;
  classList : list string;
  attributes : list (string * string);
  inlineStyle : style
}.

#[local] Unset Elimination Schemes.
Inductive node : Type :=
| Text (data : string)
| Elem (ref : nat) (e : element) (childNodes : list node).
#[local] Set Elimination Schemes.

(** The document is the list of the children of the [Document] node; the
    elements of that list have no [parentElement]. *)
Definition document : Type := list node.

(** *** Attributes, classes and styles *)

Fixpoint getAttribute (name : string) (attrs : list (string * string))
    : option string :=
  match attrs with
  | [] => None
  | (k, v) :: attrs' => if decide (k = name) then Some v else getAttribute name attrs'
  end.

Definition hasAttribute (name : string) (attrs : list (string * string)) : bool :=
  match getAttribute name attrs with Some _ => true | None => false end.

Fixpoint removeAttribute (name : string) (attrs : list (string * string))
    : list (string * string) :=
  match attrs with
  | [] => []
  | (k, v) :: attrs' =>
      if decide (k = name) then removeAttribute name attrs'
      else (k, v) :: removeAttribute name attrs'
  end.

Fixpoint setAttribute (name value : string) (attrs : list (string * string))
    : list (string * string) :=
  match attrs with
  | [] => [(name, value)]
  | (k, v) :: attrs' =>
      if decide (k = name) then (k, value) :: attrs'
      else (k, v) :: setAttribute name value attrs'
  end.

Definition contains (cls : string) (classes : list string) : bool :=
  bool_decide (cls ∈ classes).

Definition add (cls : string) (classes : list string) : list string :=
  if contains cls classes then classes else classes ++ [cls].

Definition remove (cls : string) (classes : list string) : list string :=
  List.filter (fun c => negb (bool_decide (c = cls))) classes.

Definition withAttributes (f : list (string * string) -> list (string * string))
    (e : element) : element :=
  {| tagName := tagName e; classList := classList e;
     attributes := f (attributes e); inlineStyle := inlineStyle e |}.

Definition withClassList (f : list string -> list string) (e : element) : element :=
  {| tagName := tagName e; classList := f (classList e);
     attributes := attributes e; inlineStyle := inlineStyle e |}.

Definition withStyle (f : style -> style) (e : element) : element :=
  {| tagName := tagName e; classList := classList e;
     attributes := attributes e; inlineStyle := f (inlineStyle e) |}.

Definition setPosition (v : string) (st : style) : style :=
  {| position := v; opacity := opacity st;
     transition := transition st; display := display st |}.

Definition setOpacity (v : string) (st : style) : style :=
  {| position := position st; opacity := v;
     transition := transition st; display := display st |}.

Definition setTransition (v : string) (st : style) : style :=
  {| position := position st; opacity := opacity st;
     transition := v; display := display st |}.

Definition setDisplay (v : string) (st : style) : style :=
  {| position := position st; opacity := opacity st;
     transition := transition st; display := v |}.

(** *** Nodes *)

Definition onElement (f : element -> element) (n : node) : node :=
  match n with
  | Text _ => n
  | Elem r e cs => Elem r (f e) cs
  end.

Definition onChildNodes (f : list node -> list node) (n : node) : node :=
  match n with
  | Text _ => n
  | Elem r e cs => Elem r e (f cs)
  end.

(** A predicate on elements, read on a node (false on text). *)
Definition matches (p : element -> bool) (n : node) : bool :=
  match n with
  | Text _ => false
  | Elem _ e _ => p e
  end.

Definition hasClass (cls : string) (e : element) : bool :=
  contains cls (classList e).

Definition hasAnyClass (clss : list string) (e : element) : bool :=
  existsb (fun cls => hasClass cls e) clss.

Definition hasTag (t : string) (e : element) : bool :=
  bool_decide (tagName e = t).

(** What the [textContent] setter leaves as children. *)
Definition textNodes (s : string) : list node :=
  if truthy s then [Text s] else [].

Fixpoint textContent (n : node) : string :=
  match n with
  | Text data => data
  | Elem _ _ cs => fold_right (fun c acc => textContent c +:+ acc) "" cs
  end.

(** The node or one of its descendants satisfies [p]. *)
Fixpoint anyElement (p : element -> bool) (n : node) : bool :=
  match n with
  | Text _ => false
  | Elem _ e cs => p e || existsb (anyElement p) cs
  end.

(** [element.querySelector(selector) !== null]: a proper descendant
    satisfies [p]. *)
Definition querySelector (p : element -> bool) (n : node) : bool :=
  match n with
  | Text _ => false
  | Elem _ _ cs => existsb (anyElement p) cs
  end.

(** The elements of a subtree in document order, the root first. *)
Fixpoint elements (n : node) : list node :=
  match n with
  | Text _ => []
  | Elem _ _ cs => n :: flat_map elements cs
  end.

Definition refOf (n : node) : option nat :=
  match n with Text _ => None | Elem r _ _ => Some r end.

(** [element.querySelectorAll(selector)]: the proper descendants that
    satisfy [p], in document order. *)
Definition querySelectorAll (p : element -> bool) (n : node) : list nat :=
  match n with
  | Text _ => []
  | Elem _ _ cs => omap refOf (List.filter (matches p) (flat_map elements cs))
  end.

Fixpoint firstSome {A B : Type} (f : A -> option B) (l : list A) : option B :=
  match l with
  | [] => None
  | x :: l' => match f x with Some y => Some y | None => firstSome f l' end
  end.

(** The element a reference denotes, with its ancestors, the parent
    first. *)
Fixpoint locate (r : nat) (n : node) : option (list node * node) :=
  match n with
  | Text _ => None
  | Elem r' _ cs =>
      if decide (r' = r) then Some ([], n)
      else
        match firstSome (locate r) cs with
        | Some (ancestors, m) => Some (ancestors ++ [n], m)
        | None => None
        end
  end.

Definition locateIn (r : nat) (doc : document) : option (list node * node) :=
  firstSome (locate r) doc.

Fixpoint updateFirst {A B : Type} (found : A -> option B) (g : A -> A)
    (l : list A) : list A :=
  match l with
  | [] => []
  | x :: l' =>
      match found x with
      | Some _ => g x :: l'
      | None => x :: updateFirst found g l'
      end
  end.

(** A mutation of the element a reference denotes: the one element
    [locate] finds changes, and nothing else. *)
Fixpoint update (r : nat) (f : node -> node) (n : node) : node :=
  match n with
  | Text _ => n
  | Elem r' e cs =>
      if decide (r' = r) then f n
      else Elem r' e (updateFirst (locate r) (update r f) cs)
  end.

Definition updateIn (r : nat) (f : node -> node) (doc : document) : document :=
  updateFirst (locate r) (update r f) doc.

(** [querySelectorAll(selector).forEach(el => el.remove())] below a node:
    every element that satisfies [p] leaves its parent, and with it
    whatever it contains. *)
Fixpoint removeAll (p : element -> bool) (n : node) : node :=
  match n with
  | Text _ => n
  | Elem r e cs =>
      Elem r e (flat_map (fun c => if matches p c then [] else [removeAll p c]) cs)
  end.

Definition removeAllIn (p : element -> bool) (doc : document) : document :=
  flat_map (fun c => if matches p c then [] else [removeAll p c]) doc.

(** [querySelectorAll(selector).forEach(el => ...)] for a callback that
    only touches the attributes and classes of [el]. *)
Fixpoint forEachElement (f : element -> element) (n : node) : node :=
  match n with
  | Text _ => n
  | Elem r e cs => Elem r (f e) (map (forEachElement f) cs)
  end.

(** [node.childNodes] *)
Definition children (n : node) : list node :=
  match n with
  | Text _ => []
  | Elem _ _ cs => cs
  end.

(** What [querySelectorAll(selector).forEach(el => el.remove())] takes out
    of the document: every element that satisfies [p] leaves with what it
    contains, except for the elements inside it that satisfy [p] too, which
    are removed from it in their turn. *)
Definition removedBy (p : element -> bool) (doc : document) : list node :=
  map (removeAll p) (List.filter (matches p) (flat_map elements doc)).

(** [element.closest(tag) !== null] *)
Definition closest (t : string) (ancestors : list node) (n : node) : bool :=
  matches (hasTag t) n || existsb (matches (hasTag t)) ancestors.

(** [element.parentElement] *)
Definition parentElement (ancestors : list node) : option node :=
  match ancestors with [] => None | p :: _ => Some p end.

End Dom.

(** ** The content script *)

Module Content.
Import JsString Regex Dom.
Export Background.

Record settings : Type := Settings {
  enabled : bool;
  autoRephrase : bool;
  showWarnings : bool;
  sensitivityLevel : string
}.

(** The variables a call of [setupObserver] closes over, and whether its
    [MutationObserver] is still connected. *)
Record watcher : Type := Watcher {
  pendingMutations : list nat;
  processingTimeout : bool;
  connected : bool
}.

(** Messages sent with [chrome.runtime.sendMessage]. *)
Inductive message : Type :=
| ANALYZE_TEXT (text : string)
| REPHRASE_TEXT (text category : string)
| GET_SETTINGS.

(** The callbacks that wait for a timer or for the answer to a message,
    with the variables they close over. *)
Inductive task : Type :=
| AnalysisTimer (element : nat) (text : string) (timeout : nat)
| MutationTimer (w : nat)
| BatchTimer (batches : list (list nat)) (index delayBetweenBatches : nat)
| SecondaryTimer
| PageChangedTimer
| AwaitAnalysis (element : nat) (text : string)
| AwaitRephrase (element : nat) (result : analysisResult)
    (originalDisplay originalTagName : string) (originalClasses : list string)
| AwaitSettings.

(** The globals of the content script, the callbacks that wait, the
    messages it has sent, and the DOM: the document, and the nodes that have
    left the document, each with what it contained when it left.  A
    callback, a batch or a watcher may still refer to an element among
    them. *)
Record state : Type := State {
  page : document;
  detached : list node;
  nextRef : nat;
  extensionSettings : settings;
  observer : option nat;
  watchers : list watcher;
  analyzedTextCache : gmap string analysisResult;
  pending : list task;
  sent : list message
}.

Definition setPage (d : document) (s : state) : state :=
  State d (detached s) (nextRef s) (extensionSettings s) (observer s) (watchers s)
        (analyzedTextCache s) (pending s) (sent s).
Definition setDetached (ns : list node) (s : state) : state :=
  State (page s) ns (nextRef s) (extensionSettings s) (observer s) (watchers s)
        (analyzedTextCache s) (pending s) (sent s).
Definition setNextRef (n : nat) (s : state) : state :=
  State (page s) (detached s) n (extensionSettings s) (observer s) (watchers s)
        (analyzedTextCache s) (pending s) (sent s).
Definition setExtensionSettings (x : settings) (s : state) : state :=
  State (page s) (detached s) (nextRef s) x (observer s) (watchers s)
        (analyzedTextCache s) (pending s) (sent s).
Definition setObserver (o : option nat) (s : state) : state :=
  State (page s) (detached s) (nextRef s) (extensionSettings s) o (watchers s)
        (analyzedTextCache s) (pending s) (sent s).
Definition setWatchers (ws : list watcher) (s : state) : state :=
  State (page s) (detached s) (nextRef s) (extensionSettings s) (observer s) ws
        (analyzedTextCache s) (pending s) (sent s).
Definition setAnalyzedTextCache (c : gmap string analysisResult) (s : state) : state :=
  State (page s) (detached s) (nextRef s) (extensionSettings s) (observer s) (watchers s)
        c (pending s) (sent s).
Definition setPending (ts : list task) (s : state) : state :=
  State (page s) (detached s) (nextRef s) (extensionSettings s) (observer s) (watchers s)
        (analyzedTextCache s) ts (sent s).
Definition setSent (ms : list message) (s : state) : state :=
  State (page s) (detached s) (nextRef s) (extensionSettings s) (observer s) (watchers s)
        (analyzedTextCache s) (pending s) ms.

(** [setTimeout(callback, delay)].  The model keeps no clock: every pending
    callback may be the next to run. *)
Definition setTimeout (callback : task) (s : state) : state :=
  setPending (pending s ++ [callback]) s.

(** [chrome.runtime.sendMessage(message, callback)] *)
Definition sendMessage (m : message) (callback : task) (s : state) : state :=
  setPending (pending s ++ [callback]) (setSent (sent s ++ [m]) s).

(** The element a reference denotes, with its ancestors: an element of the
    document, or one that has left it.  No call of the script passes a
    reference that denotes nothing: the elements it works on come from the
    document or from a mutation record, and those that leave the document
    are kept in [detached]. *)
Definition findElement (element : nat) (s : state) : option (list node * node) :=
  locateIn element (page s ++ detached s).

(** A mutation of the element [element] refers to, where that element is:
    in the document, or among the nodes that have left it ([updateIn]
    leaves a list of nodes alone in which the reference denotes
    nothing). *)
Definition updateElement (element : nat) (f : node -> node) (s : state) : state :=
  setDetached
    (match locateIn element (page s) with
     | Some _ => detached s
     | None => updateIn element f (detached s)
     end)
    (setPage (updateIn element f (page s)) s).

(** [element.textContent = ''] and what follows it: the element gets new
    children, and the children it had leave it. *)
Definition replaceChildren (element : nat) (cs : list node) (s : state) : state :=
  let old :=
    match findElement element s with
    | Some (_, n) => children n
    | None => []
    end in
  let s := updateElement element (onChildNodes (fun _ => cs)) s in
  setDetached (detached s ++ old) s.

Definition IGNORE_TAGS : list string :=
  ["SCRIPT"; "STYLE"; "NOSCRIPT"; "SVG"; "CANVAS"; "INPUT"; "TEXTAREA"].

Definition IGNORE_CLASS_PATTERNS : list regex :=
  [StrExact "ai-guardian-"; Str "code"; Str "syntax"; Str "pre"].

Definition ownClass (c : string) : bool := startsWith "ai-guardian-" c.

Definition processedMarker : string := "data-ai-guardian-processed".

Definition shouldIgnoreElement (ancestors : list node) (n : node) : bool :=
  match n with
  | Text _ => false
  | Elem _ e _ =>
      if existsb ownClass (classList e) then true
      else if match parentElement ancestors with
              | Some parent => matches (fun p => existsb ownClass (classList p)) parent
              | None => false
              end then true
      else if querySelector
                (hasAnyClass ["ai-guardian-rephrased"; "ai-guardian-warning";
                              "ai-guardian-indicator"; "ai-guardian-flagged"]) n
           then true
      else if bool_decide (tagName e ∈ IGNORE_TAGS) then true
      else if existsb (fun pattern => existsb (fun c => test pattern c) (classList e))
                      IGNORE_CLASS_PATTERNS
           then true
      else if (bool_decide (position (inlineStyle e) = "relative")
               || negb (bool_decide (opacity (inlineStyle e) = ""))
               || negb (bool_decide (transition (inlineStyle e) = "")))
              && hasAttribute processedMarker (attributes e)
           then true
      else false
  end.

(** The markup of the two icons ([innerHTML] of the badge and of the
    indicator): an [svg] element and its shapes. *)
Definition svgElement (cls : list string) (size : string) : element :=
  {| tagName := "svg"; classList := cls;
     attributes :=
       [("xmlns", "http://www.w3.org/2000/svg"); ("width", size); ("height", size);
        ("viewBox", "0 0 24 24"); ("fill", "none"); ("stroke", "currentColor");
        ("stroke-width", "2"); ("stroke-linecap", "round");
        ("stroke-linejoin", "round")];
     inlineStyle := noStyle |}.

Definition shape (tag : string) (attrs : list (string * string)) : element :=
  {| tagName := tag; classList := []; attributes := attrs; inlineStyle := noStyle |}.

Definition alertTriangle (r : nat) : node :=
  Elem r (svgElement ["feather"; "feather-alert-triangle"] "16")
    [ Elem (r + 1)
        (shape "path"
           [("d", "M10.29 3.86L1.82 18a2 2 0 0 0 1.71 3h16.94a2 2 0 0 0 1.71-3L13.71 3.86a2 2 0 0 0-3.42 0z")])
        [];
      Elem (r + 2) (shape "line" [("x1", "12"); ("y1", "9"); ("x2", "12"); ("y2", "13")]) [];
      Elem (r + 3) (shape "line" [("x1", "12"); ("y1", "17"); ("x2", "12.01"); ("y2", "17")]) [] ].

Definition editIcon (r : nat) : node :=
  Elem r (svgElement ["feather"; "feather-edit-2"] "14")
    [ Elem (r + 1)
        (shape "path"
           [("d", "M17 3a2.828 2.828 0 1 1 4 4L7.5 20.5 2 22l1.5-5.5L17 3z")])
        [] ].

Definition span (cls : list string) (attrs : list (string * string)) (st : style)
    : element :=
  {| tagName := "SPAN"; classList := cls; attributes := attrs; inlineStyle := st |}.

Definition uiText : regex :=
  Words ["menu"; "navigation"; "search"; "copyright"; "terms"; "privacy";
         "sign in"; "login"; "home"; "about"].

Definition quickCheckPattern : regex :=
  WholeWord (Words ["fuck"; "shit"; "ass"; "porn"; "nude"; "sex"; "bomb";
                    "explosive"; "hack"; "break in"; "harm"; "kill"; "suicide"]).

(** The badge and the wrapper, as they are when they are inserted.  Their
    [className] is assigned as a string of tokens; [classList] holds these
    tokens (the categories of the service and the class names read from an
    element contain no white space). *)
Definition warningBadge (r : nat) (result : analysisResult) : node :=
  Elem r (span ["ai-guardian-warning"; "ai-guardian-" +:+ category result] [] noStyle)
    [ alertTriangle (r + 1);
      Elem (r + 5) (span ["ai-guardian-tooltip"] [] noStyle)
        (textNodes (explanation result)) ].

Definition rephrasedWrapper (r : nat) (result : analysisResult)
    (rephraseResult : rephraseResult) (originalDisplay : string)
    (originalClasses : list string) : node :=
  Elem r
    (span ("ai-guardian-rephrased" :: originalClasses)
          [("data-original-text", text result)]
          (setDisplay originalDisplay noStyle))
    (textNodes (rephrased rephraseResult)
     ++ [ Elem (r + 1)
            (span ["ai-guardian-indicator"]
                  [("title", "This content was automatically rephrased")] noStyle)
            [ editIcon (r + 2) ] ]).

Section Browser.

(** What the rendering engine computes for an element: [innerText]
    and [getComputedStyle(element).position]. *)
Variable innerText : node -> string.
Variable computedPosition : node -> string.

Definition addWarningIndicator (element : nat) (result : analysisResult)
    (s : state) : state :=
  match findElement element s with
  | None => s
  | Some (_, n) =>
      if querySelector (hasClass "ai-guardian-warning") n then s
      else
        let badge := warningBadge (nextRef s) result in
        let s := setNextRef (nextRef s + 6) s in
        let s :=
          if bool_decide (computedPosition n = "static")
          then updateElement element (onElement (withStyle (setPosition "relative"))) s
          else s in
        updateElement element (onChildNodes (fun cs => cs ++ [badge])) s
  end.

Definition rephraseContent (element : nat) (result : analysisResult)
    (s : state) : state :=
  match findElement element s with
  | None => s
  | Some (_, n) =>
      if matches (hasClass "ai-guardian-rephrased") n
         || querySelector (hasClass "ai-guardian-rephrased") n
      then updateElement element
             (onElement (withClassList (remove "ai-guardian-processing"))) s
      else
        let marked := onElement (withClassList (add "ai-guardian-processing")) n in
        let s := updateElement element
                   (onElement (withClassList (add "ai-guardian-processing"))) s in
        match marked with
        | Text _ => s
        | Elem _ e _ =>
            let originalDisplay := display (inlineStyle e) in
            let originalTagName := toLowerCase (tagName e) in
            let originalClasses :=
              List.filter (fun cls => negb (ownClass cls)) (classList e) in
            sendMessage (REPHRASE_TEXT (text result) (category result))
              (AwaitRephrase element result originalDisplay originalTagName
                             originalClasses) s
        end
  end.

(** The callback of the [REPHRASE_TEXT] message. *)
Definition rephraseCallback (element : nat) (result : analysisResult)
    (originalDisplay originalTagName : string) (originalClasses : list string)
    (rephraseResult : reply rephraseResult) (s : state) : state :=
  let s :=
    match rephraseResult with
    | Reply rephraseResult =>
        let wrapper :=
          rephrasedWrapper (nextRef s) result rephraseResult originalDisplay
                           originalClasses in
        let s := setNextRef (nextRef s + 4) s in
        replaceChildren element [wrapper] s
    | ErrorReply _ | NoReply => s
    end in
  updateElement element
    (onElement (withClassList (remove "ai-guardian-processing"))) s.

Definition handleAnalysisResult (element : nat) (result : analysisResult)
    (s : state) : state :=
  if negb (isHarmful result) || bool_decide (category result = "safe") then s
  else
    let s := if showWarnings (extensionSettings s)
             then addWarningIndicator element result s else s in
    if autoRephrase (extensionSettings s)
    then rephraseContent element result s
    else updateElement element
           (onElement (withClassList (add "ai-guardian-flagged"))) s.

(** The callback of the [ANALYZE_TEXT] message. *)
Definition analysisCallback (element : nat) (text : string)
    (result : reply analysisResult) (s : state) : state :=
  let s := if autoRephrase (extensionSettings s)
           then updateElement element (onElement (withStyle (setOpacity "1"))) s
           else s in
  match result with
  | Reply result =>
      let s := setAnalyzedTextCache (<[text := result]> (analyzedTextCache s)) s in
      handleAnalysisResult element result s
  | ErrorReply _ | NoReply => s
  end.

(** The body of the timer [analyzeElement] arms. *)
Definition requestAnalysis (element : nat) (text : string) (s : state) : state :=
  sendMessage (ANALYZE_TEXT text) (AwaitAnalysis element text) s.

(** [element.setAttribute('data-ai-guardian-processed', 'true')] *)
Definition markProcessed : node -> node :=
  onElement (withAttributes (setAttribute processedMarker "true")).

(** The test for common UI text and navigational elements. *)
Definition nonMeaningful (ancestors : list node) (n : node) (text : string) : bool :=
  (String.length text <? 20)%nat
  && (test uiText text
      || matches (hasTag "BUTTON") n
      || matches (hasTag "NAV") n
      || closest "NAV" ancestors n
      || closest "HEADER" ancestors n
      || closest "FOOTER" ancestors n).

(** The local pre-check finds nothing and the text is short. *)
Definition skippedByQuickCheck (text : string) : bool :=
  let quickCheck := test quickCheckPattern text in
  negb quickCheck && (String.length text <? 100)%nat.

Definition analyzeElement (element : nat) (s : state) : state :=
  match findElement element s with
  | None => s
  | Some (ancestors, n) =>
      if shouldIgnoreElement ancestors n then s
      else if matches (fun e => hasAttribute processedMarker (attributes e)) n then s
      else if negb (truthy (innerText n)) then s
      else
        let text := trim (innerText n) in
        if (String.length text <? 10)%nat then s
        else
          let s := updateElement element markProcessed s in
          if nonMeaningful ancestors n text then s
          else
            match analyzedTextCache s !! text with
            | Some cachedResult => handleAnalysisResult element cachedResult s
            | None =>
                if skippedByQuickCheck text then s
                else
                  let s :=
                    if autoRephrase (extensionSettings s)
                    then updateElement element
                           (onElement (withStyle
                              (fun st => setOpacity "0.95"
                                           (setTransition "opacity 0.2s ease" st)))) s
                    else s in
                  let timeout := (50 + String.length text / 100) `min` 200 in
                  setTimeout (AnalysisTimer element text timeout) s
            end
  end.

(** *** Reversal *)

(** The loop that restores the original text.  The wrappers are visited
    in document order and each visit replaces all the children of the
    parent, so for every element the first child that is a wrapper with
    a non-empty [data-original-text] decides, and what happens later
    inside the replaced children no longer shows in the document. *)
Definition originalTextOf (c : node) : option string :=
  match c with
  | Text _ => None
  | Elem _ e _ =>
      if hasClass "ai-guardian-rephrased" e then
        match getAttribute "data-original-text" (attributes e) with
        | Some originalText => if truthy originalText then Some originalText else None
        | None => None
        end
      else None
  end.

Fixpoint restoreOriginalText (n : node) : node :=
  match n with
  | Text _ => n
  | Elem r e cs =>
      match firstSome originalTextOf cs with
      | Some originalText => Elem r e [Text originalText]
      | None => Elem r e (map restoreOriginalText cs)
      end
  end.

Definition clearProcessed (e : element) : element :=
  if hasAttribute processedMarker (attributes e)
  then withClassList (remove "ai-guardian-flagged")
         (withAttributes (removeAttribute processedMarker) e)
  else e.

(** The nodes that leave their parent in that loop: the children of every
    element whose text is restored, each as the loop leaves it (the
    wrappers are found before the first of them is visited, so the loop
    also restores the text inside what has left the document
    meanwhile). *)
Fixpoint replacedChildren (n : node) : list node :=
  match n with
  | Text _ => []
  | Elem _ _ cs =>
      match firstSome originalTextOf cs with
      | Some _ => map restoreOriginalText cs
      | None => []
      end ++ flat_map replacedChildren cs
  end.

(** The four loops work on what [document.querySelectorAll] finds: the
    nodes that have left the document before are not touched, and the
    nodes that leave it here join them. *)
Definition removeAllModifications (s : state) : state :=
  let doc0 := page s in
  let doc1 := removeAllIn (hasClass "ai-guardian-warning") doc0 in
  let doc2 := removeAllIn (hasClass "ai-guardian-indicator") doc1 in
  let doc3 := map restoreOriginalText doc2 in
  let doc4 := map (forEachElement clearProcessed) doc3 in
  let gone :=
    removedBy (hasClass "ai-guardian-warning") doc0
    ++ removedBy (hasClass "ai-guardian-indicator") doc1
    ++ flat_map replacedChildren doc2 in
  setDetached (detached s ++ gone) (setPage doc4 s).

(** *** The mutation observer *)

Inductive addedNode : Type :=
| ElementNode (ref : nat)
| OtherNode.

Record mutationRecord : Type := MutationRecord {
  type : string;
  addedNodes : list addedNode
}.

Definition setupObserver (s : state) : state :=
  let w := length (watchers s) in
  setObserver (Some w)
    (setWatchers (watchers s ++ [Watcher [] false true]) s).

(** [observer.disconnect()] *)
Definition disconnect (w : nat) (s : state) : state :=
  match watchers s !! w with
  | Some x =>
      setWatchers
        (<[w := Watcher (pendingMutations x) (processingTimeout x) false]>
           (watchers s)) s
  | None => s
  end.

(** The callback given to [new MutationObserver]. *)
Definition observerCallback (w : nat) (mutations : list mutationRecord)
    (s : state) : state :=
  match watchers s !! w with
  | None => s
  | Some x =>
      let added :=
        flat_map
          (fun mutation =>
             if bool_decide (type mutation = "childList")
                && (0 <? length (addedNodes mutation))%nat
             then omap (fun node =>
                          match node with
                          | ElementNode r => Some r
                          | OtherNode => None
                          end) (addedNodes mutation)
             else []) mutations in
      let pendingMutations := pendingMutations x ++ added in
      if processingTimeout x then
        setWatchers (<[w := Watcher pendingMutations true (connected x)]> (watchers s)) s
      else
        setTimeout (MutationTimer w)
          (setWatchers (<[w := Watcher pendingMutations true (connected x)]> (watchers s)) s)
  end.

Definition textTags : list string := ["P"; "H1"; "H2"; "H3"; "H4"; "H5"; "H6"; "LI"].

(** [Set.prototype.add] on a set kept in insertion order. *)
Definition setAdd (x : nat) (l : list nat) : list nat :=
  if bool_decide (x ∈ l) then l else l ++ [x].

Definition processMutations (w : nat) (s : state) : state :=
  match watchers s !! w with
  | None => s
  | Some x =>
      let elementsToProcess :=
        fold_left
          (fun set node =>
             let textElements :=
               match findElement node s with
               | Some (_, n) =>
                   querySelectorAll (fun e => bool_decide (tagName e ∈ textTags)) n
               | None => []
               end in
             fold_left (fun set el => setAdd el set) textElements (setAdd node set))
          (pendingMutations x) [] in
      let s := fold_left (fun s element => analyzeElement element s)
                 elementsToProcess s in
      match watchers s !! w with
      | Some x => setWatchers (<[w := Watcher [] false (connected x)]> (watchers s)) s
      | None => s
      end
  end.

(** *** The scan of the page *)

Definition hasAttr (name value : string) (e : element) : bool :=
  bool_decide (getAttribute name (attributes e) = Some value).

Definition mainContentSelectors : list (element -> bool) :=
  [ hasTag "MAIN"; hasTag "ARTICLE"; hasClass "content"; hasAttr "id" "content";
    hasClass "main-content"; hasAttr "id" "main-content"; hasAttr "role" "main";
    hasClass "post"; hasClass "story"; hasClass "entry"; hasClass "page-content";
    hasClass "article-content" ].

Definition textElementSelectors (e : element) : bool :=
  bool_decide (tagName e ∈ textTags) || hasClass "text" e || hasAttr "role" "text" e.

Definition secondarySelectors (e : element) : bool :=
  bool_decide (tagName e ∈ ["DIV"; "SPAN"; "A"]).

Definition secondaryPattern : regex :=
  WholeWord (Words ["kill"; "bomb"; "hack"; "sex"; "porn"; "nude"; "fuck"; "shit"; "ass"]).

(** [document.body] *)
Definition body (doc : document) : option node :=
  match List.find (fun n => match n with Elem _ _ _ => true | Text _ => false end) doc with
  | Some (Elem _ _ cs) => List.find (matches (hasTag "BODY")) cs
  | _ => None
  end.

(** The [for] loops that cut a list into batches of [batchSize]. *)
Fixpoint createBatches (fuel batchSize : nat) (l : list nat) : list (list nat) :=
  match fuel, l with
  | S fuel', _ :: _ => take batchSize l :: createBatches fuel' batchSize (drop batchSize l)
  | _, _ => []
  end.

Definition analyzeBatch (batch : list nat) (s : state) : state :=
  fold_left (fun s element => analyzeElement element s) batch s.

Definition processBatches (batches : list (list nat)) (index : nat)
    (delayBetweenBatches : nat) (s : state) : state :=
  match batches !! index with
  | None => s
  | Some batch =>
      setTimeout (BatchTimer batches (index + 1) delayBetweenBatches)
        (analyzeBatch batch s)
  end.

Definition ignored (doc : document) (el : node) : bool :=
  match refOf el with
  | Some r =>
      match locateIn r doc with
      | Some (ancestors, n) => shouldIgnoreElement ancestors n
      | None => shouldIgnoreElement [] el
      end
  | None => false
  end.

Definition analyzePageContent (s : state) : state :=
  let doc := page s in
  let found :=
    firstSome
      (fun selector =>
         match List.filter (matches selector) (flat_map elements doc) with
         | [] => None
         | elements => Some elements
         end) mainContentSelectors in
  let contentContainers :=
    match found with
    | Some elements => Some elements
    | None => match body doc with Some b => Some [b] | None => None end
    end in
  match contentContainers with
  | None => s
  | Some contentContainers =>
      let priorityElements :=
        flat_map
          (fun container =>
             match container with
             | Text _ => []
             | Elem _ _ cs =>
                 omap refOf
                   (List.filter
                      (fun el => negb (ignored doc el)
                                 && truthy (innerText el)
                                 && (15 <? String.length (trim (innerText el)))%nat)
                      (List.filter (matches textElementSelectors) (flat_map elements cs)))
             end) contentContainers in
      let batchSize := 5 in
      let elementBatches :=
        createBatches (length priorityElements) batchSize priorityElements in
      let s := processBatches elementBatches 0 100 s in
      if (length priorityElements <? 10)%nat then setTimeout SecondaryTimer s else s
  end.

(** The body of the timer that looks for secondary elements. *)
Definition secondaryScan (s : state) : state :=
  let doc := page s in
  let potentialElements :=
    omap refOf
      (List.filter
         (fun el =>
            if negb (truthy (innerText el)) || ignored doc el then false
            else
              let text := trim (innerText el) in
              if (String.length text <? 30)%nat then false
              else test secondaryPattern text || (100 <? String.length text)%nat)
         (List.filter (matches secondarySelectors) (flat_map elements doc))) in
  let limitedElements := take 20 potentialElements in
  let secondaryBatches := createBatches (length limitedElements) 5 limitedElements in
  processBatches secondaryBatches 0 250 s.

(** *** Messages from the extension *)

(** The callback of the [GET_SETTINGS] message. *)
Definition settingsCallback (response : option settings) (s : state) : state :=
  match response with
  | Some settings =>
      let s := setExtensionSettings settings s in
      if enabled settings then analyzePageContent (setupObserver s) else s
  | None => s
  end.

Definition initializeExtension (s : state) : state :=
  sendMessage GET_SETTINGS AwaitSettings s.

(** The teardown of the watcher in the [SETTINGS_UPDATED] branch. *)
Definition disconnectObserver (s : state) : state :=
  match observer s with
  | Some w => setObserver None (disconnect w s)
  | None => s
  end.

Definition onSettingsUpdated (settings : settings) (s : state) : state :=
  let s := setExtensionSettings settings s in
  if enabled settings then
    let s := match observer s with None => setupObserver s | Some _ => s end in
    analyzePageContent s
  else
    removeAllModifications (disconnectObserver s).

Definition onPageChanged (s : state) : state :=
  let s := setAnalyzedTextCache ∅ s in
  let s := removeAllModifications s in
  let s :=
    setPage
      (map (forEachElement
              (fun e => if hasAttribute processedMarker (attributes e)
                        then withAttributes (removeAttribute processedMarker) e
                        else e)) (page s)) s in
  if enabled (extensionSettings s) then setTimeout PageChangedTimer s else s.

(** *** The event loop *)

Inductive event : Type :=
| TimerFires (i : nat)
| AnalysisResponse (i : nat) (result : reply analysisResult)
| RephraseResponse (i : nat) (rephraseResult : reply rephraseResult)
| SettingsResponse (i : nat) (response : option settings)
| SETTINGS_UPDATED (settings : settings)
| PAGE_CHANGED
| MutationsObserved (w : nat) (mutations : list mutationRecord).

(** The task [i] leaves the queue and runs. *)
Definition step (ev : event) (s : state) : state :=
  match ev with
  | TimerFires i =>
      let s' := setPending (delete i (pending s)) s in
      match pending s !! i with
      | Some (AnalysisTimer element text _) => requestAnalysis element text s'
      | Some (MutationTimer w) => processMutations w s'
      | Some (BatchTimer batches index delay) => processBatches batches index delay s'
      | Some SecondaryTimer => secondaryScan s'
      | Some PageChangedTimer => analyzePageContent s'
      | _ => s
      end
  | AnalysisResponse i result =>
      match pending s !! i with
      | Some (AwaitAnalysis element text) =>
          analysisCallback element text result (setPending (delete i (pending s)) s)
      | _ => s
      end
  | RephraseResponse i rephraseResult =>
      match pending s !! i with
      | Some (AwaitRephrase element result originalDisplay originalTagName originalClasses) =>
          rephraseCallback element result originalDisplay originalTagName
            originalClasses rephraseResult (setPending (delete i (pending s)) s)
      | _ => s
      end
  | SettingsResponse i response =>
      match pending s !! i with
      | Some AwaitSettings =>
          settingsCallback response (setPending (delete i (pending s)) s)
      | _ => s
      end
  | SETTINGS_UPDATED settings => onSettingsUpdated settings s
  | PAGE_CHANGED => onPageChanged s
  | MutationsObserved w mutations =>
      match watchers s !! w with
      | Some x => if connected x then observerCallback w mutations s else s
      | None => s
      end
  end.

Definition run (evs : list event) (s : state) : state :=
  fold_left (fun s ev => step ev s) evs s.

(** *** The scripts of the page

    Between two events of the content script the scripts of the page may
    change the DOM as they like: the document and the nodes outside it are
    then others, and other references are in use.  They cannot reach the
    variables of the content script.  Every change a script can make is a
    [PageScript] (which allows more: any new document, any nodes outside
    it), so what holds after every [browse] holds of the script in a
    page whose own scripts add, remove or alter elements. *)
Inductive happening : Type :=
| ContentScript (ev : event)
| PageScript (doc : document) (outside : list node) (free : nat).

Definition happen (h : happening) (s : state) : state :=
  match h with
  | ContentScript ev => step ev s
  | PageScript doc outside free =>
      setNextRef free (setDetached outside (setPage doc s))
  end.

Definition browse (hs : list happening) (s : state) : state :=
  fold_left (fun s h => happen h s) hs s.

End Browser.

(** The globals of the content script when it is loaded into a page. *)
Definition initialState (doc : document) (firstFreeRef : nat) : state :=
  {| page := doc;
     detached := [];
     nextRef := firstFreeRef;
     extensionSettings :=
       {| enabled := true; autoRephrase := true; showWarnings := true;
          sensitivityLevel := "medium" |};
     observer := None;
     watchers := [];
     analyzedTextCache := ∅;
     pending := [];
     sent := [] |}.

End Content.

(** ** The settings: the background script and the popup

    The settings live under the key [settings] of [chrome.storage.local].
    The popup writes them and tells every tab; the background script
    answers [GET_SETTINGS] from them and tells a tab that has finished
    loading to analyse its page again. *)

Module Extension.
Import Content.

Definition DEFAULT_SETTINGS : settings :=
  {| enabled := true; autoRephrase := true; showWarnings := true;
     sensitivityLevel := "medium" |}.

(** What [chrome.storage.local] holds under the key [settings]. *)
Definition storage : Type := option settings.

(** [data.settings || DEFAULT_SETTINGS], for the [data] that
    [chrome.storage.local.get('settings', ...)] passes to its callback. *)
Definition settingsOrDefault (data : storage) : settings :=
  match data with
  | Some settings => settings
  | None => DEFAULT_SETTINGS
  end.

(** The listener of [chrome.runtime.onInstalled], as far as the settings
    go. *)
Definition onInstalled (st : storage) : storage := Some DEFAULT_SETTINGS.

(** The listener of the background script, on [GET_SETTINGS]: the
    response, whose [settings] the content script reads. *)
Definition onGetSettings (st : storage) : option settings :=
  Some (settingsOrDefault st).

(** The listener of [chrome.tabs.onUpdated]: the messages it sends, each
    with the tab it goes to. *)
Definition onTabUpdated (tabId : nat) (status : option string) (st : storage)
    : list (nat * event) :=
  if bool_decide (status = Some "complete") then
    let settings := settingsOrDefault st in
    if enabled settings then [(tabId, PAGE_CHANGED)] else []
  else [].

(** The controls of the popup that [saveSettings] reads. *)
Record controls : Type := Controls {
  mainToggle : bool;
  autoRephraseToggle : bool;
  showWarningsToggle : bool;
  sensitivityLevelValue : string
}.

(** [saveSettings] of the popup: the settings are stored, then every tab
    of [chrome.tabs.query({})] is sent [SETTINGS_UPDATED]. *)
Definition saveSettings (ui : controls) (tabs : list nat) (st : storage)
    : storage * list (nat * event) :=
  let settings :=
    {| enabled := mainToggle ui;
       autoRephrase := autoRephraseToggle ui;
       showWarnings := showWarningsToggle ui;
       sensitivityLevel := sensitivityLevelValue ui |} in
  (Some settings, map (fun tab => (tab, SETTINGS_UPDATED settings)) tabs).

End Extension.

(** ** [utils/dom-utils.js]: the text of an element and its ranges *)

Module DOMGuardianUtils.
Import JsString Dom.
Local Open Scope Z_scope.

(** [pieces.join(sep)] *)
Fixpoint join (sep : string) (pieces : list string) : string :=
  match pieces with
  | [] => ""
  | piece :: rest =>
      match rest with
      | [] => piece
      | _ :: _ => piece +:+ sep +:+ join sep rest
      end
  end.

(** The variables [textPieces], [nodeMapping] and [currentIndex] that
    [processNode] updates.  A key of [nodeMapping] is an array made for
    the entry, so no [set] replaces an earlier entry, and the map keeps
    the entries in the order they were set. *)
Record extraction : Type := Extraction {
  textPieces : list string;
  nodeMapping : list ((Z * Z) * node);
  currentIndex : Z
}.

Fixpoint processNode (n : node) (acc : extraction) : extraction :=
  match n with
  | Text data =>
      let text := trim data in
      if (0 <? String.length text)%nat then
        let startIndex := currentIndex acc in
        let currentIndex' := currentIndex acc + Z.of_nat (String.length text) in
        {| textPieces := textPieces acc ++ [text];
           nodeMapping := nodeMapping acc ++ [((startIndex, currentIndex'), n)];
           currentIndex := currentIndex' |}
      else acc
  | Elem _ e cs =>
      if existsb (startsWith "ai-guardian-") (classList e) then acc
      else fold_left (fun acc c => processNode c acc) cs acc
  end.

Record extracted : Type := Extracted {
  text : string;
  mapping : list ((Z * Z) * node)
}.

Definition extractTextWithMapping (element : node) : extracted :=
  let acc := processNode element (Extraction [] [] 0) in
  {| text := join " " (textPieces acc); mapping := nodeMapping acc |}.

(** An entry of the result of [findNodesInRange]; [affectedNode] is its
    property [node].  The bounds of a range are integers. *)
Record affected : Type := Affected {
  affectedNode : node;
  overlap : Z * Z;
  range : Z * Z
}.

Definition findNodesInRange (mapping : list ((Z * Z) * node)) (start end_ : Z)
    : list affected :=
  omap (fun entry =>
          let '((nodeStart, nodeEnd), node) := entry in
          if negb ((end_ <=? nodeStart) || (start >=? nodeEnd)) then
            Some {| affectedNode := node;
                    overlap := (Z.max start nodeStart, Z.min end_ nodeEnd);
                    range := (nodeStart, nodeEnd) |}
          else None)
       mapping.

End DOMGuardianUtils.

(** ** A sample page *)

Module Sample.
Import Dom Content.

Definition plain (tag : string) : element :=
  {| tagName := tag; classList := []; attributes := []; inlineStyle := noStyle |}.

Definition paragraph (r : nat) (t : string) : node := Elem r (plain "P") [Text t].

Definition samplePage : document :=
  [ Elem 0 (plain "HTML")
      [ Elem 1 (plain "BODY")
          [ paragraph 2 "how to make bomb at home";
            paragraph 3 "  how to make bomb at home ";
            paragraph 4 "too short";
            paragraph 5 "this will kill you";
            paragraph 6 "this will kill people";
            paragraph 7 "Sign in here";
            paragraph 8 "a perfectly fine sentence" ] ] ].

(** A page without style sheets: every element is statically positioned
    and renders the text it contains. *)
Definition rendered : node -> string := textContent.
Definition static : node -> string := fun _ => "static".

Definition sampleState : state := initialState samplePage 100.

(** The sample page after a script of the page has added a paragraph. *)
Definition grownPage : document :=
  [ Elem 0 (plain "HTML")
      [ Elem 1 (plain "BODY")
          [ paragraph 2 "how to make bomb at home";
            paragraph 3 "  how to make bomb at home ";
            paragraph 4 "too short";
            paragraph 5 "this will kill you";
            paragraph 6 "this will kill people";
            paragraph 7 "Sign in here";
            paragraph 8 "a perfectly fine sentence";
            paragraph 9 "they want to kill people here" ] ] ].

(** A list item with a paragraph inside: a scan finds both. *)
Definition nestedPage : document :=
  [ Elem 0 (plain "HTML")
      [ Elem 1 (plain "BODY")
          [ Elem 2 (plain "LI") [ paragraph 3 "how to make bomb at home" ] ] ] ].

Definition on : settings := Settings true true true "medium".
Definition off : settings := Settings false true true "medium".
Definition offQuiet : settings := Settings false false false "medium".

(** A paragraph with a badge of the extension inside. *)
Definition sampleElement : node :=
  Elem 0 (plain "P")
    [ Text " Hello ";
      Elem 1 {| tagName := "SPAN"; classList := ["ai-guardian-warning-indicator"];
                attributes := []; inlineStyle := noStyle |} [Text "!"];
      Elem 2 (plain "B") [Text "big"; Text "  "];
      Text "world" ].

Definition harmfulVerdict (t : string) : analysisResult :=
  {| text := t; isHarmful := true; category := "harmful"; confidence := 9 # 10;
     explanation := "This content may cause harm." |}.

End Sample.

(** * Observations

    The predicates in which the properties are stated: what can be seen of an
    element, of the queues and of the page. *)

Import JsString Regex Dom Content.

(** No word of the table occurs in the text as a whole word. *)
Definition noListedWord (rs : list (string * string)) (text : string) : Prop :=
  Forall (fun entry => test (WholeWord (Str entry.1)) text = false) rs.

(** The remote call fails: the transport fails or the status is not 2xx. *)
Definition unavailable {A : Type} (net : network A) : Prop :=
  match net with
  | TransportFailure => True
  | Response status _ => ~ (200 <= status <= 299)%nat
  end.

(** A mutation keeps the identity of the element it is applied to. *)
Definition keepsRef (f : node -> node) : Prop :=
  forall r e cs, refOf (f (Elem r e cs)) = Some r.

(** Where [locate] finds the element after a mutation: the ancestors have
    the mutated element below them. *)
Definition relocated (r : nat) (f : node -> node) (x : list node * node)
    : list node * node :=
  (map (update r f) x.1, f x.2).

(** [element.hasAttribute('data-ai-guardian-processed')] *)
Definition marked (n : node) : bool :=
  matches (fun e => hasAttribute processedMarker (attributes e)) n.

(** The element a reference denotes carries the processed marker. *)
Definition isProcessed (element : nat) (s : state) : bool :=
  match locateIn element (page s) with
  | Some (_, n) => marked n
  | None => false
  end.

(** The element a reference denotes, in the document or outside it,
    carries the processed marker. *)
Definition carriesMarker (element : nat) (s : state) : bool :=
  match findElement element s with
  | Some (_, n) => marked n
  | None => false
  end.

(** The text content of the element a reference denotes. *)
Definition textOf (element : nat) (s : state) : option string :=
  match locateIn element (page s) with
  | Some (_, n) => Some (textContent n)
  | None => None
  end.

(** The texts sent for remote analysis so far, and the analyses whose
    timer is armed. *)
Definition analysisRequests (s : state) : list string :=
  omap (fun m => match m with ANALYZE_TEXT t => Some t | _ => None end) (sent s).

Definition armedAnalyses (s : state) : list (nat * string) :=
  omap (fun t => match t with AnalysisTimer el t _ => Some (el, t) | _ => None end)
       (pending s).

(** The node is a warning badge. *)
Definition isBadge (n : node) : bool := matches (hasClass "ai-guardian-warning") n.

(** The number of warning badges attached to an element is the number of
    its children that are badges. *)
Definition badgeCount (cs : list node) : nat := length (List.filter isBadge cs).

(** No element of the subtree has more than one badge attached. *)
Fixpoint atMostOneBadge (n : node) : bool :=
  match n with
  | Text _ => true
  | Elem _ _ cs => (badgeCount cs <=? 1)%nat && forallb atMostOneBadge cs
  end.

(** No element of the page has more than one badge attached. *)
Definition atMostOneBadgeEach (s : state) : Prop :=
  forallb atMostOneBadge (page s) = true.

(** The element a reference denotes has a warning badge. *)
Definition hasBadge (element : nat) (s : state) : bool :=
  match locateIn element (page s) with
  | Some (_, n) => querySelector (hasClass "ai-guardian-warning") n
  | None => false
  end.

(** The element a reference denotes carries the flagged class. *)
Definition isFlagged (element : nat) (s : state) : bool :=
  match locateIn element (page s) with
  | Some (_, n) => matches (hasClass "ai-guardian-flagged") n
  | None => false
  end.

(** A mutation of the element record that does not touch the class of
    the badges. *)
Definition keepsBadgeClass (g : element -> element) : Prop :=
  forall e, hasClass "ai-guardian-warning" (g e) = hasClass "ai-guardian-warning" e.

(** The classes of the nodes that the first two passes of the reversal
    remove. *)
Definition overlayClasses : list string :=
  ["ai-guardian-warning"; "ai-guardian-indicator"].

(** None of the children of the node is a wrapper that records an original
    text. *)
Definition unwrapped (A : node) : Prop :=
  firstSome originalTextOf (children A) = None.

(** Nothing of the overlay sits on this node: it is neither a badge nor an
    edit indicator, and none of its children is a wrapper that records an
    original text. *)
Definition overlayFree (A : node) : Prop :=
  matches (hasAnyClass overlayClasses) A = false /\ unwrapped A.

(** The ancestors of the element [r] denotes carry nothing of the
    overlay. *)
Definition clearPath (r : nat) (a : list node) : Prop :=
  Forall (fun A => refOf A <> Some r /\ overlayFree A) a.

(** A mutation that keeps the identity of the element and does not turn
    it into, or out of, a wrapper with a recorded text. *)
Definition gentle (f : node -> node) : Prop :=
  keepsRef f /\ forall c, originalTextOf (f c) = originalTextOf c.

(** What [addWarningIndicator] can make of an element: nothing, or a badge
    appended to its children, with or without [position: relative]. *)
Inductive badged (result : analysisResult) (n : node) : node -> Prop :=
| badged_not : badged result n n
| badged_appended (k : nat) :
    badged result n (onChildNodes (fun cs => cs ++ [warningBadge k result]) n)
| badged_positioned (k : nat) :
    badged result n
      (onChildNodes (fun cs => cs ++ [warningBadge k result])
         (onElement (withStyle (setPosition "relative")) n)).

(** Where [locate] finds the element after a pass [g] over the page. *)
Definition through (g : node -> node) (x : list node * node) : list node * node :=
  (map g x.1, g x.2).

(** What [removeAll] makes of one child. *)
Definition dropOrClean (p : element -> bool) (c : node) : list node :=
  if matches p c then [] else [removeAll p c].

(** The elements of the page, in document order. *)
Definition elementsOf (doc : document) : list node := flat_map elements doc.

(** The record of an element node. *)
Definition elementOf (n : node) : option element :=
  match n with
  | Text _ => None
  | Elem _ e _ => Some e
  end.

(** The reversal has nothing to undo on the element. *)
Definition untouched (n : node) : Prop := overlayFree n /\ marked n = false.

(** What the four passes of the reversal make of a node. *)
Definition reversed (n : node) : node :=
  forEachElement clearProcessed
    (restoreOriginalText
       (removeAll (hasClass "ai-guardian-indicator")
          (removeAll (hasClass "ai-guardian-warning") n))).

(** Every node of [after] is what [g] makes of a node of [before]. *)
Definition imagesOf (g : node -> node) (after before : list node) : Prop :=
  Forall (fun n' => exists n, n ∈ before /\ n' = g n) after.

(** The string holds white space only. *)
Fixpoint blank (s : string) : bool :=
  match s with
  | EmptyString => true
  | String c s' => isWhiteSpace c && blank s'
  end.

(** The characters of a string that are not white space. *)
Fixpoint visible (s : string) : string :=
  match s with
  | EmptyString => EmptyString
  | String c s' => if isWhiteSpace c then visible s' else String c (visible s')
  end.

(** A text the pipeline sends for analysis: trimmed, of at least 10
    characters, and not skipped by the quick check. *)
Definition requestable (text : string) : Prop :=
  trim text = text
  /\ (10 <= String.length text)%nat
  /\ skippedByQuickCheck text = false.

(** The callbacks a scan of elements may leave behind, and the messages it
    may send. *)
Definition scanTask (t : task) : Prop :=
  match t with
  | AnalysisTimer _ text timeout => requestable text /\ (50 <= timeout <= 200)%nat
  | AwaitRephrase _ result _ _ _ =>
      isHarmful result = true /\ category result <> "safe"
  | BatchTimer _ _ _ | SecondaryTimer => True
  | MutationTimer _ | PageChangedTimer | AwaitAnalysis _ _ | AwaitSettings => False
  end.

(** A scan sends nothing but rephrase requests, for a verdict that is not
    safe and while auto-rephrase is on in the settings [x]. *)
Definition scanMessage (x : settings) (m : message) : Prop :=
  match m with
  | REPHRASE_TEXT _ category => category <> "safe" /\ autoRephrase x = true
  | ANALYZE_TEXT _ | GET_SETTINGS => False
  end.

(** From [s] to [s'] the queues have only grown, by callbacks and messages
    of a scan, and the settings, the watchers and the cache are the same;
    the page may have changed. *)
Record scans (s s' : state) : Prop := Scans {
  scans_pending : exists ts, pending s' = pending s ++ ts /\ Forall scanTask ts;
  scans_sent :
    exists ms, sent s' = sent s ++ ms
               /\ Forall (scanMessage (extensionSettings s)) ms;
  scans_settings : extensionSettings s' = extensionSettings s;
  scans_observer : observer s' = observer s;
  scans_watchers : watchers s' = watchers s;
  scans_cache : analyzedTextCache s' = analyzedTextCache s
}.

(** A callback that waits for a timer or for a verdict was armed for an
    eligible text, with a delay between 50 and 200 ms. *)
Definition soundTask (t : task) : Prop :=
  match t with
  | AnalysisTimer _ text timeout => requestable text /\ (50 <= timeout <= 200)%nat
  | AwaitAnalysis _ text => requestable text
  | _ => True
  end.

(** A message that was sent for analysis carries an eligible text. *)
Definition soundMessage (m : message) : Prop :=
  match m with
  | ANALYZE_TEXT text => requestable text
  | _ => True
  end.

(** The queue of callbacks and the messages sent so far are sound. *)
Definition soundQueues (s : state) : Prop :=
  Forall soundTask (pending s) /\ Forall soundMessage (sent s).

(** How a message can have been sent by the step for [ev] from [s] to
    [s']: a text for analysis when its timer fires, a text for rephrasing
    when the verdict is not safe and auto-rephrase is on after the step. *)
Definition sentBy (ev : event) (s s' : state) (m : message) : Prop :=
  match m with
  | ANALYZE_TEXT text =>
      exists i el timeout,
        ev = TimerFires i /\ pending s !! i = Some (AnalysisTimer el text timeout)
  | REPHRASE_TEXT _ category =>
      category <> "safe" /\ autoRephrase (extensionSettings s') = true
  | GET_SETTINGS => False
  end.

(** From [s] to [s'] messages were only appended, each as [sentBy]
    allows. *)
Definition sendsOnly (ev : event) (s s' : state) : Prop :=
  exists ms, sent s' = sent s ++ ms /\ Forall (sentBy ev s s') ms.

(** A verdict that is awaited is for a text that was sent for analysis. *)
Definition awaitsRequested (s : state) (t : task) : Prop :=
  match t with
  | AwaitAnalysis _ text => text ∈ analysisRequests s
  | _ => True
  end.

(** The cache and the queue hold nothing that was not requested. *)
Definition answersRequests (s : state) : Prop :=
  (forall text, is_Some (analyzedTextCache s !! text) -> text ∈ analysisRequests s)
  /\ Forall (awaitsRequested s) (pending s).

(** The callback is the debounce timer of the watcher [w]. *)
Definition isMutationTimer (w : nat) (t : task) : bool :=
  match t with
  | MutationTimer w' => bool_decide (w' = w)
  | _ => false
  end.

(** The number of debounce timers of the watcher [w] that are armed. *)
Definition armedDebounceTimers (w : nat) (s : state) : nat :=
  length (List.filter (isMutationTimer w) (pending s)).

(** [processingTimeout] of the watcher [w] is set. *)
Definition debouncing (w : nat) (s : state) : bool :=
  match watchers s !! w with
  | Some x => processingTimeout x
  | None => false
  end.

(** For every watcher, a debounce timer is armed exactly when its
    [processingTimeout] is set, and then there is one. *)
Definition debounced (s : state) : Prop :=
  forall w, armedDebounceTimers w s = if debouncing w s then 1 else 0.

(** The pieces of a list of strings put together. *)
Definition joined (l : list string) : string := fold_right String.append "" l.

(** The piece ends with a character that ends a sentence. *)
Definition endsSentence (piece : string) : Prop :=
  exists t c, piece = t +:+ String c "" /\ AIGuardianUtils.afterSentenceEnd (Some c) = true.

(** The first [n] characters of the string are white space. *)
Definition blankPrefix (n : nat) (s : string) : Prop :=
  exists ws rest, s = ws +:+ rest /\ String.length ws = n /\ blank ws = true.

(** What [splitFrom] keeps while it reads a text: inside a separator the
    piece is empty and the rest of the separator is white space; outside,
    the piece ends with the character read last, or is empty after a
    character that ends no sentence. *)
Definition splitting (prev : option ascii) (skip : nat) (piece s : string) : Prop :=
  match skip with
  | O =>
      (piece = "" /\ AIGuardianUtils.afterSentenceEnd prev = false)
      \/ (exists t c, piece = t +:+ String c "" /\ prev = Some c)
  | S _ => piece = "" /\ blankPrefix skip s
  end.

(** From [s] to [s'] at most [k] analysis timers were armed and at most
    [k] messages sent. *)
Definition atMost (k : nat) (s s' : state) : Prop :=
  (length (armedAnalyses s') <= length (armedAnalyses s) + k)%nat
  /\ (length (sent s') <= length (sent s) + k)%nat.

(** The literal patterns of the local heuristic: regular expressions that
    are plain strings, without word boundaries. *)
Definition literalPatterns : list string :=
  ["suicide method"; "kidnap"; "porn"; "nude"; "sex"; "genital"].

(** The settings that the controls of the popup show. *)
Definition shown (ui : Extension.controls) : settings :=
  {| enabled := Extension.mainToggle ui;
     autoRephrase := Extension.autoRephraseToggle ui;
     showWarnings := Extension.showWarningsToggle ui;
     sensitivityLevel := Extension.sensitivityLevelValue ui |}.

(** The ranges go from [from] to [till] without a gap, and none is
    empty. *)
Fixpoint tiles (from : Z) (ranges : list (Z * Z)) (till : Z) : Prop :=
  match ranges with
  | [] => from = till
  | (a, b) :: ranges' => a = from /\ (a < b)%Z /\ tiles b ranges' till
  end.

(** Where the ranges of a mapping end. *)
Definition covered (mapping : list ((Z * Z) * node)) : Z :=
  match last mapping with
  | Some ((_, b), _) => b
  | None => 0%Z
  end.

(** The data of the text nodes that [processNode] visits, in order. *)
Fixpoint visited (n : node) : list string :=
  match n with
  | Text data => [data]
  | Elem _ e cs =>
      if existsb (startsWith "ai-guardian-") (classList e) then []
      else flat_map visited cs
  end.

(** The data that [processNode] keeps: what is left after trimming. *)
Definition kept (ds : list string) : list string :=
  List.filter (fun d => (0 <? String.length (trim d))%nat) ds.

(** Consecutive ranges for the trimmed data, from [from] on. *)
Fixpoint spans (from : Z) (ds : list string) : list ((Z * Z) * node) :=
  match ds with
  | [] => []
  | d :: ds' =>
      let till := (from + Z.of_nat (String.length (trim d)))%Z in
      ((from, till), Text d) :: spans till ds'
  end.

Fixpoint total (ds : list string) : Z :=
  match ds with
  | [] => 0%Z
  | d :: ds' => (Z.of_nat (String.length (trim d)) + total ds')%Z
  end.

(** * Properties *)


(** ** The local heuristics *)

Section LocalHeuristics.

Lemma replaceFrom_no_match (r : regex) (repl : string) :
  forall s prev, searchFrom r prev s = false -> replaceFrom r repl prev 0 s = s.
Proof.
  induction s as [|a s IH]; intros prev H; simpl in *.
  - destruct (exec r prev ""); [discriminate | reflexivity].
  - destruct (exec r prev (String a s)); [discriminate |].
    f_equal. now apply IH.
Qed.

Lemma replaceAll_no_match (r : regex) (repl s : string) :
  test r s = false -> replaceAll r repl s = s.
Proof. apply replaceFrom_no_match. Qed.

Lemma applyReplacements_no_match (rs : list (string * string)) (text : string) :
  noListedWord rs text -> AIGuardianUtils.applyReplacements rs text = text.
Proof.
  unfold AIGuardianUtils.applyReplacements, noListedWord.
  induction 1 as [|[word replacement] rs H _ IH]; simpl; [reflexivity |].
  rewrite (replaceAll_no_match _ _ _ H). exact IH.
Qed.

End LocalHeuristics.

(** C9. For every input text, [localRephrase] called with the category
    ['harmful'] drops the substituted text and returns the fixed safety
    notice; for every other category the result is the text after the
    whole-word substitutions of the table, in the order of the table, and
    nothing else (a text without any listed word comes back as it is). *)
Theorem localRephrase_harmful_notice_else_substitutions :
  forall text : string,
    AIGuardianUtils.localRephrase text "harmful" = AIGuardianUtils.safetyNotice
    /\ (forall category : string,
          category <> "harmful" ->
          AIGuardianUtils.localRephrase text category
          = fold_left
              (fun rephrased '(word, replacement) =>
                 replaceAll (WholeWord (Str word)) replacement rephrased)
              AIGuardianUtils.replacements text
          /\ (noListedWord AIGuardianUtils.replacements text ->
              AIGuardianUtils.localRephrase text category = text)).
Proof.
  intros text. split.
  - unfold AIGuardianUtils.localRephrase. now rewrite decide_True.
  - intros category Hc. unfold AIGuardianUtils.localRephrase.
    rewrite decide_False by exact Hc. split; [reflexivity |].
    apply applyReplacements_no_match.
Qed.

Lemma localRephrase_harmful_notice_else_substitutions_witness :
  AIGuardianUtils.localRephrase "you ass, kill it" "harmful"
  = "[This content has been modified for safety reasons]"
  /\ AIGuardianUtils.localRephrase "you ass, kill it" "offensive" = "you ***, harm it"
  /\ AIGuardianUtils.localRephrase "a classy skill" "offensive" = "a classy skill".
Proof.
  destruct (localRephrase_harmful_notice_else_substitutions "you ass, kill it")
    as [H1 H2].
  destruct (H2 "offensive" ltac:(discriminate)) as [H3 _].
  destruct (localRephrase_harmful_notice_else_substitutions "a classy skill")
    as [_ H4].
  destruct (H4 "offensive" ltac:(discriminate)) as [_ H5].
  split; [exact H1 | split].
  - rewrite H3. vm_compute. reflexivity.
  - apply H5. unfold noListedWord. repeat constructor.
Defined.

(** ** The background script *)

Lemma unavailable_not_ok {A : Type} (status : nat) (body : option A) :
  ~ (200 <= status <= 299)%nat -> ok (status, body) = false.
Proof.
  intros H. unfold ok. cbn [fst].
  apply andb_false_iff. rewrite !Nat.leb_gt. lia.
Qed.

Lemma analyzeTextContent_unavailable (w : utilities)
    (net : network analysisResult) (text : string) :
  unavailable net -> analyzeTextContent w net text = localAnalysis w text.
Proof.
  destruct net as [|status body]; simpl; intros H.
  - unfold analyzeTextContent, fetch, mbind, completion_bind, tryCatch. reflexivity.
  - unfold analyzeTextContent, fetch, mbind, completion_bind, tryCatch.
    rewrite (unavailable_not_ok status body H). cbn [negb].
    now destruct (localAnalysis w text).
Qed.

Lemma rephraseTextContent_unavailable (w : utilities)
    (net : network rephraseResult) (text category : string) :
  unavailable net ->
  rephraseTextContent w net text category = localRephrasing w text category.
Proof.
  destruct net as [|status body]; simpl; intros H.
  - unfold rephraseTextContent, fetch, mbind, completion_bind, tryCatch. reflexivity.
  - unfold rephraseTextContent, fetch, mbind, completion_bind, tryCatch.
    rewrite (unavailable_not_ok status body H). cbn [negb].
    now destruct (localRephrasing w text category).
Qed.




(** ** The document: induction and the lemmas on references *)

Section Nodes.

Lemma node_ind' (P : node -> Prop) :
  (forall data, P (Text data)) ->
  (forall r e cs, Forall P cs -> P (Elem r e cs)) ->
  forall n, P n.
Proof.
  intros HT HE. fix IH 1. intros [data | r e cs].
  - apply HT.
  - apply HE. induction cs as [|c cs IHcs]; constructor.
    + apply IH.
    + exact IHcs.
Qed.

Lemma keepsRef_onElement (g : element -> element) : keepsRef (onElement g).
Proof. intros r e cs. reflexivity. Qed.

Lemma keepsRef_onChildNodes (g : list node -> list node) : keepsRef (onChildNodes g).
Proof. intros r e cs. reflexivity. Qed.

Lemma firstSome_locate_update (r : nat) (f : node -> node) (cs : list node) :
  Forall (fun c => locate r (update r f c) = relocated r f <$> locate r c) cs ->
  firstSome (locate r) (updateFirst (locate r) (update r f) cs)
  = relocated r f <$> firstSome (locate r) cs.
Proof.
  induction 1 as [|c cs Hc _ IH]; simpl; [reflexivity |].
  destruct (locate r c) as [[a m]|] eqn:E; simpl.
  - now rewrite Hc.
  - rewrite E. exact IH.
Qed.

Lemma locate_update (r : nat) (f : node -> node) :
  keepsRef f ->
  forall n, locate r (update r f n) = relocated r f <$> locate r n.
Proof.
  intros Hf. induction n as [data | r' e cs IH] using node_ind'; [reflexivity |].
  simpl. destruct (decide (r' = r)) as [-> | Hne].
  - specialize (Hf r e cs).
    destruct (f (Elem r e cs)) as [|r'' e'' cs''] eqn:E; [discriminate |].
    injection Hf as ->. simpl. rewrite decide_True by reflexivity.
    unfold relocated. simpl. now rewrite E.
  - simpl. rewrite decide_False by exact Hne.
    rewrite (firstSome_locate_update r f cs IH).
    destruct (firstSome (locate r) cs) as [[a m]|]; simpl; [| reflexivity].
    unfold relocated. simpl. rewrite map_app. simpl.
    now rewrite decide_False by exact Hne.
Qed.

Lemma locateIn_update (r : nat) (f : node -> node) (doc : document) :
  keepsRef f ->
  locateIn r (updateIn r f doc) = relocated r f <$> locateIn r doc.
Proof.
  intros Hf. unfold locateIn, updateIn. apply firstSome_locate_update.
  apply Forall_forall. intros c _. now apply locate_update.
Qed.

(** What [locate] returns is the element the reference denotes. *)
Lemma locate_ref (r : nat) :
  forall n a m, locate r n = Some (a, m) -> refOf m = Some r.
Proof.
  induction n as [data | r' e cs IH] using node_ind'; intros a m; [discriminate |].
  simpl. destruct (decide (r' = r)) as [-> | Hne].
  - intros [= <- <-]. reflexivity.
  - destruct (firstSome (locate r) cs) as [[a' m']|] eqn:E; [| discriminate].
    intros [= <- <-]. clear Hne.
    induction IH as [|c cs Hc _ IHcs]; [discriminate |].
    simpl in E. destruct (locate r c) as [[a'' m'']|] eqn:Ec.
    + injection E as <- <-. eapply Hc. reflexivity.
    + now apply IHcs.
Qed.

Lemma locateIn_ref (r : nat) (doc : document) (a : list node) (m : node) :
  locateIn r doc = Some (a, m) -> refOf m = Some r.
Proof.
  unfold locateIn. induction doc as [|c doc IH]; [discriminate |].
  simpl. destruct (locate r c) as [[a' m']|] eqn:Ec.
  - intros [= <- <-]. eapply locate_ref. exact Ec.
  - exact IH.
Qed.

Lemma updateFirst_None {A B : Type} (found : A -> option B) (g : A -> A) (l : list A) :
  firstSome found l = None -> updateFirst found g l = l.
Proof.
  induction l as [|x l IH]; simpl; [reflexivity |].
  destruct (found x); [discriminate |]. intros H. now rewrite IH.
Qed.

Lemma update_None (r : nat) (f : node -> node) (n : node) :
  locate r n = None -> update r f n = n.
Proof.
  destruct n as [data | r' e cs]; [reflexivity |]. simpl.
  destruct (decide (r' = r)); [discriminate |].
  destruct (firstSome (locate r) cs) as [[a m]|] eqn:E; [discriminate |].
  intros _. now rewrite updateFirst_None.
Qed.

Lemma updateIn_None (r : nat) (f : node -> node) (doc : document) :
  locateIn r doc = None -> updateIn r f doc = doc.
Proof. apply updateFirst_None. Qed.

Lemma firstSome_None {A B : Type} (f : A -> option B) (l : list A) :
  firstSome f l = None <-> Forall (fun x => f x = None) l.
Proof.
  induction l as [|x l IH]; simpl; [split; [constructor | reflexivity] |].
  destruct (f x) eqn:E.
  - split; [discriminate |]. intros H. apply Forall_cons in H as [H _]. congruence.
  - rewrite IH. split; [now constructor |]. intros H. now apply Forall_cons in H as [_ H].
Qed.

Lemma firstSome_app {A B : Type} (f : A -> option B) (l1 l2 : list A) :
  firstSome f (l1 ++ l2)
  = match firstSome f l1 with Some x => Some x | None => firstSome f l2 end.
Proof.
  induction l1 as [|x l1 IH]; [reflexivity |]. simpl.
  destruct (f x); [reflexivity | exact IH].
Qed.

(** *** The nodes outside the document *)

Lemma locateIn_app (r : nat) (doc outside : list node) :
  locateIn r (doc ++ outside)
  = match locateIn r doc with Some x => Some x | None => locateIn r outside end.
Proof. apply firstSome_app. Qed.

Lemma findElement_page (element : nat) (s : state) (x : list node * node) :
  locateIn element (page s) = Some x -> findElement element s = Some x.
Proof. intros E. unfold findElement. now rewrite locateIn_app, E. Qed.

Lemma findElement_outside (element : nat) (s : state) :
  locateIn element (page s) = None ->
  findElement element s = locateIn element (detached s).
Proof. intros E. unfold findElement. now rewrite locateIn_app, E. Qed.

Lemma findElement_ref (element : nat) (s : state) (a : list node) (m : node) :
  findElement element s = Some (a, m) -> refOf m = Some element.
Proof. apply locateIn_ref. Qed.

Lemma page_updateElement_outside (element : nat) (f : node -> node) (s : state) :
  locateIn element (page s) = None ->
  page (updateElement element f s) = page s.
Proof. intros E. cbn. now apply updateIn_None. Qed.

Lemma detached_updateElement_page (element : nat) (f : node -> node) (s : state)
    (x : list node * node) :
  locateIn element (page s) = Some x ->
  detached (updateElement element f s) = detached s.
Proof. intros E. cbn. now rewrite E. Qed.

(** A mutation of an element shows where the element is found. *)
Lemma findElement_updateElement (element : nat) (f : node -> node) (s : state) :
  keepsRef f ->
  findElement element (updateElement element f s)
  = relocated element f <$> findElement element s.
Proof.
  intros Hf. unfold findElement. cbn [page detached updateElement setDetached setPage].
  rewrite !locateIn_app, (locateIn_update _ _ _ Hf).
  destruct (locateIn element (page s)) as [x|] eqn:E; [reflexivity |].
  cbn. apply (locateIn_update _ _ _ Hf).
Qed.

End Nodes.

(** ** The processed marker *)

Section Marker.

Variable innerText : node -> string.
Variable computedPosition : node -> string.

Lemma hasAttribute_setAttribute (name value : string) (attrs : list (string * string)) :
  hasAttribute name (setAttribute name value attrs) = true.
Proof.
  unfold hasAttribute. induction attrs as [|[k v] attrs IH]; simpl.
  - now rewrite decide_True.
  - destruct (decide (k = name)) as [-> | Hne]; simpl.
    + now rewrite decide_True.
    + rewrite decide_False by exact Hne. exact IH.
Qed.


Lemma analyzeElement_carriesMarker (element : nat) (s : state) :
  carriesMarker element s = true ->
  analyzeElement innerText computedPosition element s = s.
Proof.
  unfold carriesMarker, analyzeElement, marked.
  destruct (findElement element s) as [[ancestors n]|]; [| reflexivity].
  intros ->. now destruct (shouldIgnoreElement ancestors n).
Qed.


Lemma isProcessed_updateElement (element : nat) (f : node -> node) (s : state) :
  keepsRef f ->
  (forall n, marked n = true -> marked (f n) = true) ->
  isProcessed element s = true ->
  isProcessed element (updateElement element f s) = true.
Proof.
  intros Hf Hm. unfold isProcessed. cbn [page updateElement setDetached setPage].
  rewrite (locateIn_update _ _ _ Hf).
  destruct (locateIn element (page s)) as [[a m]|]; simpl; [apply Hm | discriminate].
Qed.

Lemma carriesMarker_updateElement (element : nat) (f : node -> node) (s : state) :
  keepsRef f ->
  (forall n, marked n = true -> marked (f n) = true) ->
  carriesMarker element s = true ->
  carriesMarker element (updateElement element f s) = true.
Proof.
  intros Hf Hm. unfold carriesMarker. rewrite (findElement_updateElement _ _ _ Hf).
  destruct (findElement element s) as [[a m]|]; simpl; [apply Hm | discriminate].
Qed.

Lemma marked_onClassList (g : list string -> list string) (n : node) :
  marked (onElement (withClassList g) n) = marked n.
Proof. now destruct n. Qed.

Lemma marked_onStyle (g : style -> style) (n : node) :
  marked (onElement (withStyle g) n) = marked n.
Proof. now destruct n. Qed.

Lemma marked_onChildNodes (g : list node -> list node) (n : node) :
  marked (onChildNodes g n) = marked n.
Proof. now destruct n. Qed.

(** [replaceChildren] mutates the element as [updateElement] does; what
    it adds to the nodes outside the document comes last. *)
Lemma page_replaceChildren (element : nat) (cs : list node) (s : state) :
  page (replaceChildren element cs s)
  = updateIn element (onChildNodes (fun _ => cs)) (page s).
Proof. reflexivity. Qed.

Lemma findElement_more_detached (element : nat) (s : state) (more : list node)
    (x : list node * node) :
  findElement element s = Some x ->
  findElement element (setDetached (detached s ++ more) s) = Some x.
Proof.
  unfold findElement. cbn [page detached setDetached]. rewrite app_assoc.
  intros E. now rewrite locateIn_app, E.
Qed.

Lemma findElement_replaceChildren (element : nat) (cs : list node) (s : state) :
  findElement element (replaceChildren element cs s)
  = relocated element (onChildNodes (fun _ => cs)) <$> findElement element s.
Proof.
  unfold replaceChildren.
  pose proof (findElement_updateElement element (onChildNodes (fun _ => cs)) s
                (keepsRef_onChildNodes _)) as H.
  destruct (findElement element s) as [[a n]|] eqn:E.
  - cbn [fmap option_fmap option_map] in *.
    now apply findElement_more_detached.
  - cbn [fmap option_fmap option_map] in *. rewrite app_nil_r.
    now destruct (updateElement element _ s).
Qed.

Lemma carriesMarker_replaceChildren (element : nat) (cs : list node) (s : state) :
  carriesMarker element s = true ->
  carriesMarker element (replaceChildren element cs s) = true.
Proof.
  unfold carriesMarker. rewrite findElement_replaceChildren.
  destruct (findElement element s) as [[a m]|]; simpl; [| discriminate].
  now rewrite marked_onChildNodes.
Qed.

Lemma isProcessed_replaceChildren (element : nat) (cs : list node) (s : state) :
  isProcessed element s = true ->
  isProcessed element (replaceChildren element cs s) = true.
Proof.
  unfold isProcessed. rewrite page_replaceChildren.
  rewrite (locateIn_update _ _ _ (keepsRef_onChildNodes _)).
  destruct (locateIn element (page s)) as [[a m]|]; simpl; [| discriminate].
  now rewrite marked_onChildNodes.
Qed.

Ltac keep_marker :=
  first
    [ apply isProcessed_updateElement;
      [ first [apply keepsRef_onElement | apply keepsRef_onChildNodes]
      | intros ?; first [rewrite marked_onClassList | rewrite marked_onStyle
                        | rewrite marked_onChildNodes]; trivial
      | ]
    | apply carriesMarker_updateElement;
      [ first [apply keepsRef_onElement | apply keepsRef_onChildNodes]
      | intros ?; first [rewrite marked_onClassList | rewrite marked_onStyle
                        | rewrite marked_onChildNodes]; trivial
      | ] ].


Lemma carriesMarker_addWarningIndicator (element : nat) (result : analysisResult)
    (s : state) :
  carriesMarker element s = true ->
  carriesMarker element (addWarningIndicator computedPosition element result s) = true.
Proof.
  intros H. unfold addWarningIndicator.
  destruct (findElement element s) as [[a n]|] eqn:E; [| exact H].
  destruct (querySelector (hasClass "ai-guardian-warning") n); [exact H |].
  keep_marker.
  destruct (bool_decide (computedPosition n = "static")); [keep_marker |]; exact H.
Qed.


Lemma carriesMarker_rephraseContent (element : nat) (result : analysisResult)
    (s : state) :
  carriesMarker element s = true ->
  carriesMarker element (rephraseContent element result s) = true.
Proof.
  intros H. unfold rephraseContent.
  destruct (findElement element s) as [[a n]|] eqn:E; [| exact H].
  destruct (matches (hasClass "ai-guardian-rephrased") n
            || querySelector (hasClass "ai-guardian-rephrased") n).
  - keep_marker. exact H.
  - destruct n as [data | r e cs]; simpl; keep_marker; exact H.
Qed.


Lemma carriesMarker_handleAnalysisResult (element : nat) (result : analysisResult)
    (s : state) :
  carriesMarker element s = true ->
  carriesMarker element (handleAnalysisResult computedPosition element result s) = true.
Proof.
  intros H. unfold handleAnalysisResult.
  destruct (negb (isHarmful result) || bool_decide (category result = "safe"));
    [exact H |].
  set (s1 := if showWarnings (extensionSettings s) then _ else s).
  assert (H1 : carriesMarker element s1 = true).
  { subst s1. destruct (showWarnings (extensionSettings s)); [| exact H].
    now apply carriesMarker_addWarningIndicator. }
  destruct (autoRephrase (extensionSettings s1)).
  - now apply carriesMarker_rephraseContent.
  - keep_marker. exact H1.
Qed.

Lemma carriesMarker_markProcessed (element : nat) (s : state)
    (ancestors : list node) (n : node) :
  findElement element s = Some (ancestors, n) ->
  carriesMarker element (updateElement element markProcessed s) = true.
Proof.
  intros E. unfold carriesMarker.
  rewrite findElement_updateElement by apply keepsRef_onElement. rewrite E. simpl.
  pose proof (findElement_ref _ _ _ _ E) as Hr.
  destruct n as [data | r e cs]; [discriminate |].
  simpl. apply hasAttribute_setAttribute.
Qed.


Lemma trim_length_truthy (t : string) :
  (10 <= String.length (trim t))%nat -> truthy t = true.
Proof. destruct t; [simpl; lia | reflexivity]. Qed.

(** [analyzeElement] on an element that passes the entry tests, wherever
    the element is. *)
Lemma analyzeElement_found (element : nat) (s : state)
    (ancestors : list node) (n : node) :
  findElement element s = Some (ancestors, n) ->
  shouldIgnoreElement ancestors n = false ->
  marked n = false ->
  (10 <= String.length (trim (innerText n)))%nat ->
  analyzeElement innerText computedPosition element s
  = let text := trim (innerText n) in
    let s1 := updateElement element markProcessed s in
    if nonMeaningful ancestors n text then s1
    else match analyzedTextCache s1 !! text with
         | Some cachedResult =>
             handleAnalysisResult computedPosition element cachedResult s1
         | None =>
             if skippedByQuickCheck text then s1
             else
               let s2 :=
                 if autoRephrase (extensionSettings s1)
                 then updateElement element
                        (onElement (withStyle
                           (fun st => setOpacity "0.95"
                                        (setTransition "opacity 0.2s ease" st)))) s1
                 else s1 in
               setTimeout (AnalysisTimer element text
                             ((50 + String.length text / 100) `min` 200)) s2
         end.
Proof.
  intros E Hign Hmark Hlen.
  unfold analyzeElement. rewrite E, Hign.
  unfold marked in Hmark. rewrite Hmark.
  rewrite (trim_length_truthy _ Hlen). simpl.
  apply Nat.ltb_ge in Hlen. rewrite Hlen. reflexivity.
Qed.

(** [analyzeElement] on an element of the page that passes the entry
    tests. *)
Lemma analyzeElement_eligible (element : nat) (s : state)
    (ancestors : list node) (n : node) :
  locateIn element (page s) = Some (ancestors, n) ->
  shouldIgnoreElement ancestors n = false ->
  marked n = false ->
  (10 <= String.length (trim (innerText n)))%nat ->
  analyzeElement innerText computedPosition element s
  = let text := trim (innerText n) in
    let s1 := updateElement element markProcessed s in
    if nonMeaningful ancestors n text then s1
    else match analyzedTextCache s1 !! text with
         | Some cachedResult =>
             handleAnalysisResult computedPosition element cachedResult s1
         | None =>
             if skippedByQuickCheck text then s1
             else
               let s2 :=
                 if autoRephrase (extensionSettings s1)
                 then updateElement element
                        (onElement (withStyle
                           (fun st => setOpacity "0.95"
                                        (setTransition "opacity 0.2s ease" st)))) s1
                 else s1 in
               setTimeout (AnalysisTimer element text
                             ((50 + String.length text / 100) `min` 200)) s2
         end.
Proof.
  intros E. apply analyzeElement_found. now apply findElement_page.
Qed.


Lemma analyzeElement_marks_found (element : nat) (s : state)
    (ancestors : list node) (n : node) :
  findElement element s = Some (ancestors, n) ->
  shouldIgnoreElement ancestors n = false ->
  marked n = false ->
  (10 <= String.length (trim (innerText n)))%nat ->
  carriesMarker element (analyzeElement innerText computedPosition element s) = true.
Proof.
  intros E Hign Hmark Hlen.
  rewrite (analyzeElement_found element s ancestors n E Hign Hmark Hlen).
  pose proof (carriesMarker_markProcessed element s ancestors n E) as H1.
  cbv zeta.
  destruct (nonMeaningful ancestors n _); [exact H1 |].
  destruct (analyzedTextCache _ !! _) as [cachedResult|].
  - now apply carriesMarker_handleAnalysisResult.
  - destruct (skippedByQuickCheck _); [exact H1 |].
    destruct (autoRephrase _); [| exact H1].
    apply carriesMarker_updateElement; [apply keepsRef_onElement | | exact H1].
    intros m. now rewrite marked_onStyle.
Qed.

(** A call of [analyzeElement] returns at one of its entry tests, or the
    element carries the marker afterwards. *)
Lemma analyzeElement_returns_or_marks (element : nat) (s : state) :
  analyzeElement innerText computedPosition element s = s
  \/ carriesMarker element (analyzeElement innerText computedPosition element s) = true.
Proof.
  destruct (findElement element s) as [[ancestors n]|] eqn:E.
  2:{ left. unfold analyzeElement. now rewrite E. }
  destruct (shouldIgnoreElement ancestors n) eqn:Hign.
  { left. unfold analyzeElement. now rewrite E, Hign. }
  destruct (marked n) eqn:Hmark.
  { left. unfold analyzeElement. unfold marked in Hmark. now rewrite E, Hign, Hmark. }
  destruct (Nat.lt_ge_cases (String.length (trim (innerText n))) 10) as [Hlt | Hge].
  - left. unfold analyzeElement. unfold marked in Hmark. rewrite E, Hign, Hmark.
    destruct (negb (truthy (innerText n))); [reflexivity |].
    apply Nat.ltb_lt in Hlt. now rewrite Hlt.
  - right. now apply analyzeElement_marks_found with ancestors n.
Qed.

Lemma analyzeElement_twice (element : nat) (s : state) :
  analyzeElement innerText computedPosition element
    (analyzeElement innerText computedPosition element s)
  = analyzeElement innerText computedPosition element s.
Proof.
  destruct (analyzeElement_returns_or_marks element s) as [H | H].
  - now rewrite !H.
  - now apply analyzeElement_carriesMarker.
Qed.

End Marker.

(** C6. An element whose trimmed text is shorter than 10 characters leaves
    [analyzeElement] with the state as it was: no message is sent, no timer
    is armed, and no attribute, class, style or child of the page
    changes. *)
Theorem short_text_is_never_analyzed_nor_mutated :
  forall (innerText computedPosition : node -> string) (s : state)
         (element : nat) (ancestors : list node) (n : node),
    locateIn element (page s) = Some (ancestors, n) ->
    (String.length (trim (innerText n)) < 10)%nat ->
    analyzeElement innerText computedPosition element s = s.
Proof.
  intros innerText computedPosition s element ancestors n E Hlen.
  unfold analyzeElement. rewrite (findElement_page _ _ _ E).
  destruct (shouldIgnoreElement ancestors n); [reflexivity |].
  destruct (matches _ n); [reflexivity |].
  destruct (negb (truthy (innerText n))); [reflexivity |].
  apply Nat.ltb_lt in Hlen. now rewrite Hlen.
Qed.


(** ** What a callback leaves of the page and of the queues *)

Section Callbacks.

Variable innerText : node -> string.
Variable computedPosition : node -> string.

Lemma append_empty_r (s : string) : s +:+ "" = s.
Proof.
  induction s as [|c s IH]; [reflexivity |].
  change (String c (s +:+ "") = String c s). now rewrite IH.
Qed.

Lemma append_empty_l (s : string) : "" +:+ s = s.
Proof. reflexivity. Qed.

Lemma textContent_rephrasedWrapper (r : nat) (result : analysisResult)
    (rr : rephraseResult) (d : string) (cls : list string) :
  textContent (rephrasedWrapper r result rr d cls) = rephrased rr.
Proof.
  unfold rephrasedWrapper, textNodes.
  destruct (rephrased rr) as [|c t]; simpl;
    now rewrite ?append_empty_l, ?append_empty_r.
Qed.

Lemma rephraseCallback_text (element : nat) (result : analysisResult)
    (d t : string) (cls : list string) (rr : rephraseResult) (s : state)
    (ancestors : list node) (n : node) :
  locateIn element (page s) = Some (ancestors, n) ->
  textOf element (rephraseCallback element result d t cls (Reply rr) s)
  = Some (rephrased rr).
Proof.
  intros E. unfold textOf, rephraseCallback.
  cbn [page updateElement replaceChildren setDetached setPage setNextRef].
  rewrite !locateIn_update by
    first [apply keepsRef_onElement | apply keepsRef_onChildNodes].
  rewrite E. simpl.
  pose proof (locateIn_ref _ _ _ _ E) as Hr.
  destruct n as [data | r e cs]; [discriminate |].
  cbn [onChildNodes onElement textContent fold_right].
  rewrite textContent_rephrasedWrapper. now rewrite append_empty_r.
Qed.

Lemma handleAnalysisResult_safe (element : nat) (result : analysisResult) (s : state) :
  isHarmful result = false \/ category result = "safe" ->
  handleAnalysisResult computedPosition element result s = s.
Proof.
  intros H. unfold handleAnalysisResult.
  destruct H as [-> | ->]; [reflexivity |].
  now rewrite orb_true_r.
Qed.

(** The verdict handler sends no analysis request, arms no analysis
    timer and leaves the cache alone. *)
Lemma handleAnalysisResult_frame (element : nat) (result : analysisResult) (s : state) :
  let s' := handleAnalysisResult computedPosition element result s in
  analyzedTextCache s' = analyzedTextCache s
  /\ extensionSettings s' = extensionSettings s
  /\ analysisRequests s' = analysisRequests s
  /\ armedAnalyses s' = armedAnalyses s.
Proof.
  unfold handleAnalysisResult, addWarningIndicator, rephraseContent,
    analysisRequests, armedAnalyses.
  repeat case_match; simpl; rewrite ?omap_app; simpl; rewrite ?app_nil_r;
    repeat split; reflexivity.
Qed.

End Callbacks.

(** C4, the claim as stated does not hold: the local heuristic finds no
    pattern in "this will kill you" (its pattern for [kill] asks for the
    word [people] later in the text), so the text is classified safe with
    confidence 0.6.  On the sample page, with the remote service
    unavailable, the paragraph with that text is analysed once and keeps
    its text; no rephrasing is requested and no badge is added. *)
Lemma kill_you_is_classified_safe_locally :
  analyzeTextContent Loaded TransportFailure "this will kill you"
  = Resolved
      {| text := "this will kill you"; isHarmful := false; category := "safe";
         confidence := 6 # 10;
         explanation := "This content appears to be safe (analyzed locally)" |}
  /\ ~ (AIGuardianUtils.isHarmful
          (AIGuardianUtils.calculateLocalToxicityScore "this will kill you") = true
        /\ AIGuardianUtils.confidence
             (AIGuardianUtils.calculateLocalToxicityScore "this will kill you")
           = 7 # 10)
  /\ (let s :=
        run Sample.rendered Sample.static
          [SETTINGS_UPDATED Sample.on; TimerFires 2;
           AnalysisResponse 5
             (onAnalyzeText Loaded TransportFailure "this will kill you"
                DEFAULT_STATS).1]
          Sample.sampleState in
      sent s = [ANALYZE_TEXT "this will kill you"]
      /\ textOf 5 s = Some "this will kill you"
      /\ hasBadge 5 s = false).
Proof.
  split; [reflexivity |]. split.
  - intros [H _]. vm_compute in H. discriminate.
  - vm_compute. repeat split; reflexivity.
Qed.

Lemma short_text_is_never_analyzed_nor_mutated_witness :
  analyzeElement Sample.rendered Sample.static 4 Sample.sampleState
  = Sample.sampleState.
Proof.
  eapply short_text_is_never_analyzed_nor_mutated.
  - vm_compute. reflexivity.
  - vm_compute. lia.
Defined.


(** ** The result cache *)

Section Cache.

Variable innerText : node -> string.
Variable computedPosition : node -> string.

Lemma analysisCallback_fills_cache (element : nat) (text : string)
    (result : analysisResult) (s : state) :
  analyzedTextCache
    (analysisCallback computedPosition element text (Reply result) s) !! text
  = Some result.
Proof.
  unfold analysisCallback.
  destruct (handleAnalysisResult_frame computedPosition element result
              (setAnalyzedTextCache
                 (<[text := result]>
                    (analyzedTextCache
                       (if autoRephrase (extensionSettings s)
                        then updateElement element
                               (onElement (withStyle (setOpacity "1"))) s
                        else s)))
                 (if autoRephrase (extensionSettings s)
                  then updateElement element
                         (onElement (withStyle (setOpacity "1"))) s
                  else s))) as (Hc & _).
  rewrite Hc. simpl. apply lookup_insert_eq.
Qed.

Lemma analyzeElement_cache_hit (element : nat) (s : state)
    (ancestors : list node) (n : node) (cachedResult : analysisResult) :
  locateIn element (page s) = Some (ancestors, n) ->
  shouldIgnoreElement ancestors n = false ->
  marked n = false ->
  (10 <= String.length (trim (innerText n)))%nat ->
  nonMeaningful ancestors n (trim (innerText n)) = false ->
  analyzedTextCache s !! trim (innerText n) = Some cachedResult ->
  analyzeElement innerText computedPosition element s
  = handleAnalysisResult computedPosition element cachedResult
      (updateElement element markProcessed s).
Proof.
  intros E Hign Hmark Hlen Hui Hhit.
  rewrite (analyzeElement_eligible innerText computedPosition
             element s ancestors n E Hign Hmark Hlen).
  cbv zeta. rewrite Hui. simpl. now rewrite Hhit.
Qed.

End Cache.

(** C8, the claim as stated does not hold: the cache is filled when the
    answer arrives, so two paragraphs with the same trimmed text that are
    analysed in one batch both miss it, and the same text is sent for
    remote analysis twice. *)
Lemma same_text_in_one_batch_is_requested_twice :
  trim (Sample.rendered (Sample.paragraph 2 "how to make bomb at home"))
  = trim (Sample.rendered (Sample.paragraph 3 "  how to make bomb at home "))
  /\ analysisRequests
       (run Sample.rendered Sample.static
          [SETTINGS_UPDATED Sample.on; TimerFires 0; TimerFires 0]
          Sample.sampleState)
     = ["how to make bomb at home"; "how to make bomb at home"].
Proof. split; vm_compute; reflexivity. Qed.

(** C8, amended.  For an element that passes the entry tests and the
    short-UI-text rule: once the verdict for its trimmed text is in the
    cache (the callback of the first answer puts it there), the element
    sends no analysis request and arms no analysis timer; it is marked and
    the cached verdict goes to the same verdict handler as a fresh one.
    While the cache has no verdict for the text, an element that the quick
    check lets through arms its own analysis timer, whose callback sends
    its own request, and the cache stays as it was: elements with the same
    text that are analysed before the first answer arrives each send a
    request. *)
Theorem cached_verdict_is_applied_without_remote_call :
  forall (innerText computedPosition : node -> string) (s : state)
         (element : nat) (ancestors : list node) (n : node),
    locateIn element (page s) = Some (ancestors, n) ->
    shouldIgnoreElement ancestors n = false ->
    marked n = false ->
    (10 <= String.length (trim (innerText n)))%nat ->
    nonMeaningful ancestors n (trim (innerText n)) = false ->
    let text := trim (innerText n) in
    let s' := analyzeElement innerText computedPosition element s in
    (forall cachedResult : analysisResult,
        analyzedTextCache s !! text = Some cachedResult ->
        s' = handleAnalysisResult computedPosition element cachedResult
               (updateElement element markProcessed s)
        /\ analysisRequests s' = analysisRequests s
        /\ armedAnalyses s' = armedAnalyses s
        /\ analyzedTextCache s' = analyzedTextCache s)
    /\ (analyzedTextCache s !! text = None ->
        skippedByQuickCheck text = false ->
        armedAnalyses s' = armedAnalyses s ++ [(element, text)]
        /\ analyzedTextCache s' = analyzedTextCache s
        /\ (forall later : state,
              analysisRequests (requestAnalysis element text later)
              = analysisRequests later ++ [text]))
    /\ (forall (result : analysisResult) (later : state),
          analyzedTextCache
            (analysisCallback computedPosition element text (Reply result) later)
            !! text
          = Some result).
Proof.
  intros innerText computedPosition s element ancestors n
    E Hign Hmark Hlen Hui text s'.
  split; [| split].
  - intros cachedResult Hhit.
    assert (Hs' : s' = handleAnalysisResult computedPosition element cachedResult
                         (updateElement element markProcessed s))
      by now apply analyzeElement_cache_hit with ancestors n.
    destruct (handleAnalysisResult_frame computedPosition element cachedResult
                (updateElement element markProcessed s)) as (Hc & _ & Hr & Ha).
    rewrite Hs'. repeat split; assumption.
  - intros Hmiss Hquick.
    pose proof (analyzeElement_eligible innerText computedPosition
                  element s ancestors n E Hign Hmark Hlen) as Hs'.
    fold s' in Hs'. cbv zeta in Hs'. fold text in Hs', Hui.
    rewrite Hui in Hs'. simpl in Hs'. rewrite Hmiss, Hquick in Hs'.
    rewrite Hs'. unfold armedAnalyses, analysisRequests, requestAnalysis.
    split; [| split].
    + simpl. rewrite omap_app. simpl.
      destruct (autoRephrase (extensionSettings s)); reflexivity.
    + simpl. destruct (autoRephrase (extensionSettings s)); reflexivity.
    + intros later. simpl. now rewrite omap_app.
  - intros result later. apply analysisCallback_fills_cache.
Qed.

Lemma cached_verdict_is_applied_without_remote_call_witness :
  analysisRequests
    (analyzeElement Sample.rendered Sample.static 3
       (setAnalyzedTextCache
          {[ "how to make bomb at home"
             := Sample.harmfulVerdict "how to make bomb at home" ]}
          Sample.sampleState))
  = []
  /\ armedAnalyses (analyzeElement Sample.rendered Sample.static 3 Sample.sampleState)
     = [(3, "how to make bomb at home")].
Proof.
  set (s0 := setAnalyzedTextCache
               {[ "how to make bomb at home"
                  := Sample.harmfulVerdict "how to make bomb at home" ]}
               Sample.sampleState).
  assert (H : exists a n,
             locateIn 3 (page s0) = Some (a, n)
             /\ shouldIgnoreElement a n = false /\ marked n = false
             /\ (10 <= String.length (trim (Sample.rendered n)))%nat
             /\ nonMeaningful a n (trim (Sample.rendered n)) = false
             /\ trim (Sample.rendered n) = "how to make bomb at home").
  { eexists _, _. split; [vm_compute; reflexivity |].
    repeat split; try (vm_compute; reflexivity). vm_compute. lia. }
  destruct H as (a & n & E & Hi & Hm & Hl & Hu & Ht).
  destruct (cached_verdict_is_applied_without_remote_call
              Sample.rendered Sample.static s0 3 a n E Hi Hm Hl Hu) as (Hhit & _).
  destruct (Hhit (Sample.harmfulVerdict "how to make bomb at home")) as (_ & Hr & _).
  { rewrite Ht. apply lookup_singleton_eq. }
  destruct (cached_verdict_is_applied_without_remote_call
              Sample.rendered Sample.static Sample.sampleState 3 a n E Hi Hm Hl Hu)
    as (_ & Hmiss & _).
  destruct Hmiss as (Harmed & _).
  { rewrite Ht. reflexivity. }
  { rewrite Ht. reflexivity. }
  split; [exact Hr |]. rewrite Harmed, Ht. reflexivity.
Defined.

(** ** Teardown of the mutation watcher *)

Section Teardown.

Variable innerText : node -> string.
Variable computedPosition : node -> string.

Lemma disconnectObserver_idempotent (s : state) :
  disconnectObserver (disconnectObserver s) = disconnectObserver s.
Proof.
  unfold disconnectObserver. destruct (observer s) as [w|] eqn:E.
  - reflexivity.
  - now rewrite E.
Qed.

Lemma disconnectObserver_disconnects (s : state) (w : nat) (x : watcher) :
  observer s = Some w ->
  watchers s !! w = Some x ->
  watchers (disconnectObserver s) !! w
  = Some (Watcher (pendingMutations x) (processingTimeout x) false).
Proof.
  intros Ho Hw. unfold disconnectObserver, disconnect. rewrite Ho, Hw. simpl.
  apply list_lookup_insert_eq. now apply lookup_lt_Some with x.
Qed.

Lemma observer_disconnectObserver (s : state) :
  observer (disconnectObserver s) = None.
Proof.
  unfold disconnectObserver. destruct (observer s) eqn:E; [reflexivity | exact E].
Qed.

Lemma pending_disconnectObserver (s : state) :
  pending (disconnectObserver s) = pending s.
Proof.
  unfold disconnectObserver, disconnect.
  destruct (observer s) as [w|]; [| reflexivity].
  simpl. destruct (watchers s !! w); reflexivity.
Qed.

Lemma disconnectObserver_without_observer (s : state) :
  observer s = None -> disconnectObserver s = s.
Proof. intros H. unfold disconnectObserver. now rewrite H. Qed.

Lemma onSettingsUpdated_disabled (settings : settings) (s : state) :
  enabled settings = false ->
  onSettingsUpdated innerText computedPosition settings s
  = removeAllModifications (disconnectObserver (setExtensionSettings settings s)).
Proof. intros H. unfold onSettingsUpdated. now rewrite H. Qed.

End Teardown.

(** C3, the claim as stated does not hold: nothing clears the debounce
    timer.  A timer armed by an insertion before the pipeline is disabled
    is still pending after the watcher has been disconnected, and when it
    fires the buffered pass runs: here it marks paragraph 6 again and arms
    a new remote analysis for it, with the extension disabled. *)
Lemma armed_debounce_timer_fires_after_disconnect :
  let s1 :=
    run Sample.rendered Sample.static
      [ SETTINGS_UPDATED Sample.on;
        MutationsObserved 0 [MutationRecord "childList" [ElementNode 6]];
        SETTINGS_UPDATED Sample.off ]
      Sample.sampleState in
  let s2 := step Sample.rendered Sample.static (TimerFires 6) s1 in
  enabled (extensionSettings s1) = false
  /\ observer s1 = None
  /\ watchers s1 = [Watcher [6] true false]
  /\ pending s1 !! 6 = Some (MutationTimer 0)
  /\ isProcessed 6 s1 = false
  /\ isProcessed 6 s2 = true
  /\ armedAnalyses s2 = armedAnalyses s1 ++ [(6, "this will kill people")].
Proof. repeat split; vm_compute; reflexivity. Qed.

(** C3, amended.  Disabling the pipeline disconnects the watcher, and doing
    so again changes nothing about the watcher: the teardown is idempotent.
    It cancels no timer: the callbacks that were pending are all still
    pending, and a debounce timer armed before the teardown runs its
    buffered pass over the recorded nodes when it fires. *)
Theorem watcher_teardown_is_idempotent_but_keeps_timers :
  forall (innerText computedPosition : node -> string) (settings : settings)
         (s : state),
    enabled settings = false ->
    let s1 := onSettingsUpdated innerText computedPosition settings s in
    let s2 := onSettingsUpdated innerText computedPosition settings s1 in
    observer s1 = None
    /\ (forall w x, observer s = Some w -> watchers s !! w = Some x ->
          watchers s1 !! w
          = Some (Watcher (pendingMutations x) (processingTimeout x) false))
    /\ disconnectObserver (disconnectObserver s) = disconnectObserver s
    /\ observer s2 = observer s1
    /\ watchers s2 = watchers s1
    /\ pending s1 = pending s
    /\ (forall i w,
          pending s !! i = Some (MutationTimer w) ->
          step innerText computedPosition (TimerFires i) s1
          = processMutations innerText computedPosition w
              (setPending (delete i (pending s1)) s1)).
Proof.
  intros innerText computedPosition settings s Hoff s1 s2.
  assert (H1 : s1 = removeAllModifications
                      (disconnectObserver (setExtensionSettings settings s)))
    by (apply onSettingsUpdated_disabled; exact Hoff).
  assert (H2 : s2 = removeAllModifications
                      (disconnectObserver (setExtensionSettings settings s1)))
    by (apply (onSettingsUpdated_disabled innerText computedPosition); exact Hoff).
  assert (Ho : observer s1 = None).
  { rewrite H1. unfold removeAllModifications. simpl.
    apply observer_disconnectObserver. }
  assert (Hp : pending s1 = pending s).
  { rewrite H1. unfold removeAllModifications. simpl.
    now rewrite pending_disconnectObserver. }
  assert (Hd : disconnectObserver (setExtensionSettings settings s1)
               = setExtensionSettings settings s1).
  { apply disconnectObserver_without_observer. exact Ho. }
  split; [exact Ho |]. split; [| split; [| split; [| split; [| split]]]].
  - intros w x Hw Hx. rewrite H1. unfold removeAllModifications. simpl.
    now apply (disconnectObserver_disconnects (setExtensionSettings settings s)).
  - apply disconnectObserver_idempotent.
  - rewrite H2, Hd. reflexivity.
  - rewrite H2, Hd. reflexivity.
  - exact Hp.
  - intros i w Hi. unfold step. rewrite Hp, Hi. reflexivity.
Qed.

Lemma watcher_teardown_is_idempotent_but_keeps_timers_witness :
  observer (onSettingsUpdated Sample.rendered Sample.static Sample.off
              (setupObserver Sample.sampleState)) = None
  /\ pending (onSettingsUpdated Sample.rendered Sample.static Sample.off
                (setTimeout (MutationTimer 0) (setupObserver Sample.sampleState)))
     = [MutationTimer 0].
Proof.
  destruct (watcher_teardown_is_idempotent_but_keeps_timers
              Sample.rendered Sample.static Sample.off
              (setupObserver Sample.sampleState) eq_refl) as (H1 & _).
  destruct (watcher_teardown_is_idempotent_but_keeps_timers
              Sample.rendered Sample.static Sample.off
              (setTimeout (MutationTimer 0) (setupObserver Sample.sampleState))
              eq_refl) as (_ & _ & _ & _ & _ & H2 & _).
  split; [exact H1 | exact H2].
Defined.

(** ** Warning badges *)

Section Badges.

Lemma locate_top (r : nat) (c : node) (a : list node) (m : node) :
  locate r c = Some (a, m) -> (a = [] /\ m = c) \/ (exists a', a = a' ++ [c]).
Proof.
  destruct c as [data | r' e cs]; [discriminate |]. simpl.
  destruct (decide (r' = r)).
  - intros [= <- <-]. now left.
  - destruct (firstSome (locate r) cs) as [[a' m']|]; [| discriminate].
    intros [= <- <-]. right. now exists a'.
Qed.

Lemma atMostOneBadge_Elem (r : nat) (e : element) (cs : list node) :
  atMostOneBadge (Elem r e cs) = true
  <-> (badgeCount cs <= 1)%nat /\ forallb atMostOneBadge cs = true.
Proof.
  simpl. rewrite andb_true_iff, Nat.leb_le. reflexivity.
Qed.

Lemma firstSome_split {A B : Type} (found : A -> option B) (g : A -> A)
    (l : list A) (x : B) :
  firstSome found l = Some x ->
  exists l1 c l2,
    l = l1 ++ c :: l2
    /\ firstSome found l1 = None
    /\ found c = Some x
    /\ updateFirst found g l = l1 ++ g c :: l2.
Proof.
  induction l as [|c l IH]; simpl; [discriminate |].
  destruct (found c) as [y|] eqn:E.
  - intros [= ->]. exists [], c, l. repeat split; assumption.
  - intros H. destruct (IH H) as (l1 & c' & l2 & -> & H1 & H2 & H3).
    exists (c :: l1), c', l2. simpl. rewrite E, H3. repeat split; assumption.
Qed.

Lemma badgeCount_app (l1 l2 : list node) :
  badgeCount (l1 ++ l2) = (badgeCount l1 + badgeCount l2)%nat.
Proof. unfold badgeCount. now rewrite List.filter_app, length_app. Qed.

Lemma badgeCount_cons (c : node) (l : list node) :
  badgeCount (c :: l) = ((if isBadge c then 1 else 0) + badgeCount l)%nat.
Proof. unfold badgeCount. simpl. now destruct (isBadge c). Qed.

Lemma isBadge_update (r : nat) (f : node -> node) (c : node) (a : list node) (m : node) :
  locate r c = Some (a, m) ->
  isBadge (f m) = isBadge m ->
  isBadge (update r f c) = isBadge c.
Proof.
  intros E Hf. destruct c as [data | r' e cs]; [discriminate |]. simpl in *.
  destruct (decide (r' = r)).
  - injection E as <- <-. exact Hf.
  - reflexivity.
Qed.

Lemma atMostOneBadge_update (r : nat) (f : node -> node) (m : node) :
  atMostOneBadge (f m) = true ->
  isBadge (f m) = isBadge m ->
  forall n a,
    locate r n = Some (a, m) ->
    atMostOneBadge n = true ->
    atMostOneBadge (update r f n) = true.
Proof.
  intros Hw Hb. induction n as [data | r' e cs IH] using node_ind'; intros a E Hn;
    [discriminate |].
  simpl in E |- *. destruct (decide (r' = r)) as [-> | Hne].
  - injection E as <- <-. exact Hw.
  - destruct (firstSome (locate r) cs) as [[a' m']|] eqn:Ecs; [| discriminate].
    injection E as <- <-.
    destruct (firstSome_split _ (update r f) _ _ Ecs) as (l1 & c & l2 & -> & _ & Ec & ->).
    apply atMostOneBadge_Elem in Hn as [Hcount Hall].
    apply atMostOneBadge_Elem.
    rewrite badgeCount_app, badgeCount_cons in Hcount |- *.
    rewrite (isBadge_update _ _ _ _ _ Ec Hb).
    split; [exact Hcount |].
    rewrite forallb_app in Hall |- *. simpl in Hall |- *.
    apply andb_true_iff in Hall as [H1 H2]. apply andb_true_iff in H2 as [Hc H2].
    rewrite H1, H2, andb_true_r. simpl.
    apply Forall_app in IH as [_ IH]. apply Forall_cons in IH as [IHc _].
    now apply (IHc a').
Qed.

Lemma atMostOneBadge_located (r : nat) :
  forall n a m,
    locate r n = Some (a, m) -> atMostOneBadge n = true -> atMostOneBadge m = true.
Proof.
  induction n as [data | r' e cs IH] using node_ind'; intros a m E Hn; [discriminate |].
  simpl in E. destruct (decide (r' = r)) as [-> | Hne].
  - injection E as <- <-. exact Hn.
  - destruct (firstSome (locate r) cs) as [[a' m']|] eqn:Ecs; [| discriminate].
    injection E as <- <-.
    destruct (firstSome_split _ (fun c => c) _ _ Ecs) as (l1 & c & l2 & -> & _ & Ec & _).
    apply atMostOneBadge_Elem in Hn as [_ Hall].
    rewrite forallb_app in Hall. simpl in Hall.
    apply andb_true_iff in Hall as [_ H2]. apply andb_true_iff in H2 as [Hc _].
    apply Forall_app in IH as [_ IH]. apply Forall_cons in IH as [IHc _].
    now apply (IHc a').
Qed.

Lemma atMostOneBadge_updateIn (r : nat) (f : node -> node) (doc : document)
    (a : list node) (m : node) :
  locateIn r doc = Some (a, m) ->
  (atMostOneBadge m = true -> atMostOneBadge (f m) = true) ->
  isBadge (f m) = isBadge m ->
  forallb atMostOneBadge doc = true ->
  forallb atMostOneBadge (updateIn r f doc) = true.
Proof.
  unfold locateIn, updateIn. intros E Hf Hb Hdoc.
  destruct (firstSome_split _ (update r f) _ _ E) as (l1 & c & l2 & -> & _ & Ec & ->).
  rewrite forallb_app in Hdoc |- *. simpl in Hdoc |- *.
  apply andb_true_iff in Hdoc as [H1 H2]. apply andb_true_iff in H2 as [Hc H2].
  rewrite H1, H2, andb_true_r. simpl.
  pose proof (atMostOneBadge_located _ _ _ _ Ec Hc) as Hm.
  now apply (atMostOneBadge_update r f m (Hf Hm) Hb c a).
Qed.

Lemma atMostOneBadge_locatedIn (r : nat) (doc : document) (a : list node) (m : node) :
  locateIn r doc = Some (a, m) ->
  forallb atMostOneBadge doc = true ->
  atMostOneBadge m = true.
Proof.
  unfold locateIn. intros E Hdoc.
  destruct (firstSome_split _ (fun c => c) _ _ E) as (l1 & c & l2 & -> & _ & Ec & _).
  rewrite forallb_app in Hdoc. simpl in Hdoc.
  apply andb_true_iff in Hdoc as [_ H2]. apply andb_true_iff in H2 as [Hc _].
  now apply (atMostOneBadge_located r c a m).
Qed.

Lemma atMostOneBadgeEach_updateElement (element : nat) (f : node -> node) (s : state) :
  atMostOneBadgeEach s ->
  (forall a m, locateIn element (page s) = Some (a, m) ->
               atMostOneBadge m = true ->
               atMostOneBadge (f m) = true /\ isBadge (f m) = isBadge m) ->
  atMostOneBadgeEach (updateElement element f s).
Proof.
  unfold atMostOneBadgeEach, updateElement. simpl. intros Hs Hf.
  destruct (locateIn element (page s)) as [[a m]|] eqn:E.
  - pose proof (atMostOneBadge_locatedIn _ _ _ _ E Hs) as Hm.
    destruct (Hf a m eq_refl Hm) as [H1 H2].
    now apply (atMostOneBadge_updateIn element f (page s) a m).
  - now rewrite updateIn_None.
Qed.

(** *** Mutations of the classes, the attributes and the style *)

Lemma contains_add_ne (c w : string) (l : list string) :
  c <> w -> contains w (add c l) = contains w l.
Proof.
  intros Hne. unfold add. destruct (contains c l); [reflexivity |].
  unfold contains. apply bool_decide_ext. rewrite elem_of_app, list_elem_of_singleton.
  split; [intros [H | H]; [exact H | congruence] | now left].
Qed.

Lemma contains_remove_ne (c w : string) (l : list string) :
  c <> w -> contains w (remove c l) = contains w l.
Proof.
  intros Hne. unfold remove, contains. apply bool_decide_ext.
  rewrite !list_elem_of_In, List.filter_In, negb_true_iff, bool_decide_eq_false.
  split; [tauto | intros H; split; [exact H | congruence]].
Qed.

Lemma keepsBadgeClass_add (c : string) :
  c <> "ai-guardian-warning" -> keepsBadgeClass (withClassList (add c)).
Proof. intros H e. unfold hasClass. simpl. now apply contains_add_ne. Qed.

Lemma keepsBadgeClass_remove (c : string) :
  c <> "ai-guardian-warning" -> keepsBadgeClass (withClassList (remove c)).
Proof. intros H e. unfold hasClass. simpl. now apply contains_remove_ne. Qed.

Lemma keepsBadgeClass_withStyle (h : style -> style) : keepsBadgeClass (withStyle h).
Proof. intros e. reflexivity. Qed.

Lemma keepsBadgeClass_withAttributes (h : list (string * string) -> list (string * string)) :
  keepsBadgeClass (withAttributes h).
Proof. intros e. reflexivity. Qed.

Lemma keepsBadgeClass_clearProcessed : keepsBadgeClass clearProcessed.
Proof.
  intros e. unfold clearProcessed.
  destruct (hasAttribute processedMarker (attributes e)); [| reflexivity].
  unfold hasClass. simpl. now apply contains_remove_ne.
Qed.

Lemma atMostOneBadgeEach_onElement (el : nat) (g : element -> element) (s : state) :
  keepsBadgeClass g ->
  atMostOneBadgeEach s ->
  atMostOneBadgeEach (updateElement el (onElement g) s).
Proof.
  intros Hg Hs. apply atMostOneBadgeEach_updateElement; [exact Hs |].
  intros a [data | r e cs] _ Hm; simpl; [now split |].
  split; [exact Hm | apply Hg].
Qed.

(** *** The nodes the script inserts *)

Lemma querySelector_false_badgeCount (r : nat) (e : element) (cs : list node) :
  querySelector (hasClass "ai-guardian-warning") (Elem r e cs) = false ->
  badgeCount cs = 0%nat.
Proof.
  simpl. induction cs as [|c cs IH]; [reflexivity |]. simpl.
  intros H. apply orb_false_iff in H as [Hc Hcs].
  rewrite badgeCount_cons, (IH Hcs).
  destruct c as [data | r' e' cs']; [reflexivity |].
  simpl in Hc. apply orb_false_iff in Hc as [Hc _].
  unfold isBadge. simpl. now rewrite Hc.
Qed.

Lemma atMostOneBadge_textNodes (t : string) :
  forallb atMostOneBadge (textNodes t) = true /\ badgeCount (textNodes t) = 0%nat.
Proof. unfold textNodes. now destruct (truthy t). Qed.

Lemma atMostOneBadge_warningBadge (k : nat) (result : analysisResult) :
  atMostOneBadge (warningBadge k result) = true.
Proof.
  unfold warningBadge. apply atMostOneBadge_Elem. split.
  - rewrite !badgeCount_cons.
    change (isBadge (alertTriangle (k + 1))) with false.
    change (isBadge (Elem (k + 5) (span ["ai-guardian-tooltip"] [] noStyle)
                       (textNodes (explanation result)))) with false.
    unfold badgeCount. simpl. lia.
  - cbn [forallb]. apply andb_true_iff. split; [reflexivity |].
    apply andb_true_iff. split; [| reflexivity].
    apply atMostOneBadge_Elem.
    destruct (atMostOneBadge_textNodes (explanation result)) as [H1 H2].
    rewrite H1, H2. split; [lia | reflexivity].
Qed.

Lemma atMostOneBadge_rephrasedWrapper (k : nat) (result : analysisResult)
    (rr : rephraseResult) (d : string) (cls : list string) :
  atMostOneBadge (rephrasedWrapper k result rr d cls) = true.
Proof.
  unfold rephrasedWrapper. apply atMostOneBadge_Elem.
  destruct (atMostOneBadge_textNodes (rephrased rr)) as [H1 H2].
  rewrite badgeCount_app, H2, forallb_app, H1. split; [| reflexivity].
  rewrite badgeCount_cons.
  change (isBadge (Elem (k + 1)
                     (span ["ai-guardian-indicator"]
                           [("title", "This content was automatically rephrased")]
                           noStyle)
                     [editIcon (k + 2)])) with false.
  unfold badgeCount. simpl. lia.
Qed.

Lemma atMostOneBadge_append_badge (k : nat) (result : analysisResult) (m : node) :
  querySelector (hasClass "ai-guardian-warning") m = false ->
  atMostOneBadge m = true ->
  atMostOneBadge (onChildNodes (fun cs => cs ++ [warningBadge k result]) m) = true.
Proof.
  destruct m as [data | r e cs]; [trivial |]. intros Hq Hm.
  apply atMostOneBadge_Elem in Hm as [_ Hall].
  simpl onChildNodes. apply atMostOneBadge_Elem.
  rewrite badgeCount_app, (querySelector_false_badgeCount _ _ _ Hq), forallb_app, Hall.
  split.
  - rewrite badgeCount_cons. unfold badgeCount. simpl.
    destruct (isBadge (warningBadge k result)); lia.
  - cbn [forallb]. now rewrite atMostOneBadge_warningBadge.
Qed.

Lemma atMostOneBadge_single_child (r : nat) (e : element) (c : node) :
  atMostOneBadge c = true -> atMostOneBadge (Elem r e [c]) = true.
Proof.
  intros Hc. apply atMostOneBadge_Elem. split.
  - rewrite badgeCount_cons. unfold badgeCount. simpl. destruct (isBadge c); lia.
  - simpl. now rewrite Hc.
Qed.

(** *** The passes of the reversal *)

Lemma isBadge_removeAll (p : element -> bool) (c : node) :
  isBadge (removeAll p c) = isBadge c.
Proof. now destruct c. Qed.

Lemma badgeCount_removeAll (p : element -> bool) (cs : list node) :
  (badgeCount (flat_map (fun c => if matches p c then [] else [removeAll p c]) cs)
   <= badgeCount cs)%nat.
Proof.
  induction cs as [|c cs IH]; simpl; [reflexivity |].
  rewrite badgeCount_app, badgeCount_cons.
  destruct (matches p c).
  - unfold badgeCount at 1. simpl. lia.
  - rewrite badgeCount_cons, isBadge_removeAll. unfold badgeCount at 1. simpl. lia.
Qed.

Lemma forallb_removeAll (p : element -> bool) (cs : list node) :
  Forall (fun c => atMostOneBadge c = true -> atMostOneBadge (removeAll p c) = true) cs ->
  forallb atMostOneBadge cs = true ->
  forallb atMostOneBadge
    (flat_map (fun c => if matches p c then [] else [removeAll p c]) cs) = true.
Proof.
  induction 1 as [|c cs Hc _ IH]; simpl; [trivial |].
  intros H. apply andb_true_iff in H as [H1 H2].
  rewrite forallb_app, (IH H2), andb_true_r.
  destruct (matches p c); [reflexivity |]. simpl. now rewrite (Hc H1).
Qed.

Lemma atMostOneBadge_removeAll (p : element -> bool) :
  forall n, atMostOneBadge n = true -> atMostOneBadge (removeAll p n) = true.
Proof.
  induction n as [data | r e cs IH] using node_ind'; [trivial |].
  intros Hn. apply atMostOneBadge_Elem in Hn as [Hcount Hall].
  simpl removeAll. apply atMostOneBadge_Elem. split.
  - pose proof (badgeCount_removeAll p cs). lia.
  - now apply forallb_removeAll.
Qed.

Lemma atMostOneBadge_removeAllIn (p : element -> bool) (doc : document) :
  forallb atMostOneBadge doc = true ->
  forallb atMostOneBadge (removeAllIn p doc) = true.
Proof.
  apply forallb_removeAll. apply Forall_forall. intros c _.
  apply atMostOneBadge_removeAll.
Qed.

Lemma isBadge_restoreOriginalText (c : node) :
  isBadge (restoreOriginalText c) = isBadge c.
Proof.
  destruct c as [data | r e cs]; [reflexivity |]. simpl.
  now destruct (firstSome originalTextOf cs).
Qed.

Lemma badgeCount_map (g : node -> node) (cs : list node) :
  (forall c, isBadge (g c) = isBadge c) ->
  badgeCount (map g cs) = badgeCount cs.
Proof.
  intros Hg. induction cs as [|c cs IH]; [reflexivity |].
  simpl map. now rewrite !badgeCount_cons, Hg, IH.
Qed.

Lemma forallb_map_preserved (g : node -> node) (cs : list node) :
  Forall (fun c => atMostOneBadge c = true -> atMostOneBadge (g c) = true) cs ->
  forallb atMostOneBadge cs = true ->
  forallb atMostOneBadge (map g cs) = true.
Proof.
  induction 1 as [|c cs Hc _ IH]; simpl; [trivial |].
  intros H. apply andb_true_iff in H as [H1 H2].
  now rewrite (Hc H1), (IH H2).
Qed.

Lemma atMostOneBadge_restoreOriginalText :
  forall n, atMostOneBadge n = true -> atMostOneBadge (restoreOriginalText n) = true.
Proof.
  induction n as [data | r e cs IH] using node_ind'; [trivial |].
  intros Hn. apply atMostOneBadge_Elem in Hn as [Hcount Hall]. simpl.
  destruct (firstSome originalTextOf cs) as [originalText|]; [reflexivity |].
  apply atMostOneBadge_Elem. split.
  - now rewrite (badgeCount_map _ _ isBadge_restoreOriginalText).
  - now apply forallb_map_preserved.
Qed.

Lemma atMostOneBadge_forEachElement (g : element -> element) :
  keepsBadgeClass g ->
  forall n, atMostOneBadge n = true -> atMostOneBadge (forEachElement g n) = true.
Proof.
  intros Hg. induction n as [data | r e cs IH] using node_ind'; [trivial |].
  intros Hn. apply atMostOneBadge_Elem in Hn as [Hcount Hall].
  cbn [forEachElement]. apply atMostOneBadge_Elem. split.
  - rewrite badgeCount_map; [exact Hcount |].
    intros [data | r' e' cs']; [reflexivity | apply Hg].
  - now apply forallb_map_preserved.
Qed.

Lemma forallb_map_all (g : node -> node) (doc : document) :
  (forall n, atMostOneBadge n = true -> atMostOneBadge (g n) = true) ->
  forallb atMostOneBadge doc = true ->
  forallb atMostOneBadge (map g doc) = true.
Proof.
  intros Hg. apply forallb_map_preserved. apply Forall_forall. intros c _. apply Hg.
Qed.

Lemma atMostOneBadgeEach_removeAllModifications (s : state) :
  atMostOneBadgeEach s -> atMostOneBadgeEach (removeAllModifications s).
Proof.
  unfold atMostOneBadgeEach, removeAllModifications. simpl. intros H.
  apply forallb_map_all;
    [apply atMostOneBadge_forEachElement, keepsBadgeClass_clearProcessed |].
  apply forallb_map_all; [apply atMostOneBadge_restoreOriginalText |].
  now do 2 apply atMostOneBadge_removeAllIn.
Qed.

End Badges.

(** *** Work on an element outside the document does not show in the page *)

Section Outside.

Variable innerText : node -> string.
Variable computedPosition : node -> string.

Lemma page_addWarningIndicator_outside (el : nat) (result : analysisResult)
    (s : state) :
  locateIn el (page s) = None ->
  page (addWarningIndicator computedPosition el result s) = page s.
Proof.
  intros E. unfold addWarningIndicator.
  destruct (findElement el s) as [[a n]|]; [| reflexivity].
  destruct (querySelector _ n); [reflexivity |].
  cbv zeta. rewrite page_updateElement_outside.
  - destruct (bool_decide _); [| reflexivity].
    now rewrite page_updateElement_outside.
  - destruct (bool_decide _); [| exact E].
    now rewrite page_updateElement_outside.
Qed.

Lemma page_rephraseContent_outside (el : nat) (result : analysisResult) (s : state) :
  locateIn el (page s) = None ->
  page (rephraseContent el result s) = page s.
Proof.
  intros E. unfold rephraseContent.
  destruct (findElement el s) as [[a n]|]; [| reflexivity].
  destruct (_ || _); [now apply page_updateElement_outside |].
  destruct n as [data | r e cs]; cbn; now apply updateIn_None.
Qed.

Lemma page_handleAnalysisResult_outside (el : nat) (result : analysisResult)
    (s : state) :
  locateIn el (page s) = None ->
  page (handleAnalysisResult computedPosition el result s) = page s.
Proof.
  intros E. unfold handleAnalysisResult.
  destruct (_ || _); [reflexivity |].
  set (s1 := if showWarnings (extensionSettings s) then _ else s).
  assert (H1 : page s1 = page s).
  { subst s1. destruct (showWarnings _); [| reflexivity].
    now apply page_addWarningIndicator_outside. }
  assert (E1 : locateIn el (page s1) = None) by now rewrite H1.
  destruct (autoRephrase (extensionSettings s1)).
  - now rewrite page_rephraseContent_outside.
  - now rewrite page_updateElement_outside.
Qed.

Lemma page_rephraseCallback_outside (el : nat) (result : analysisResult)
    (d t : string) (cls : list string) (rr : reply rephraseResult) (s : state) :
  locateIn el (page s) = None ->
  page (rephraseCallback el result d t cls rr s) = page s.
Proof.
  intros E. unfold rephraseCallback.
  assert (H1 : forall cs,
             page (replaceChildren el cs (setNextRef (nextRef s + 4) s)) = page s).
  { intros cs. rewrite page_replaceChildren. now apply updateIn_None. }
  destruct rr as [rr | err |]; rewrite page_updateElement_outside;
    rewrite ?H1; trivial.
Qed.

Lemma page_analysisCallback_outside (el : nat) (text : string)
    (result : reply analysisResult) (s : state) :
  locateIn el (page s) = None ->
  page (analysisCallback computedPosition el text result s) = page s.
Proof.
  intros E. unfold analysisCallback.
  set (s1 := if autoRephrase (extensionSettings s) then _ else s).
  assert (H1 : page s1 = page s).
  { subst s1. destruct (autoRephrase _); [| reflexivity].
    now apply page_updateElement_outside. }
  destruct result as [result | err |]; try exact H1.
  rewrite page_handleAnalysisResult_outside; [exact H1 |].
  cbn. now rewrite H1.
Qed.

Lemma page_analyzeElement_outside (el : nat) (s : state) :
  locateIn el (page s) = None ->
  page (analyzeElement innerText computedPosition el s) = page s.
Proof.
  intros E. unfold analyzeElement.
  destruct (findElement el s) as [[a n]|]; [| reflexivity].
  destruct (shouldIgnoreElement a n); [reflexivity |].
  destruct (matches _ n); [reflexivity |].
  destruct (negb (truthy (innerText n))); [reflexivity |].
  cbv zeta.
  destruct (String.length (trim (innerText n)) <? 10)%nat; [reflexivity |].
  assert (H1 : page (updateElement el markProcessed s) = page s)
    by now apply page_updateElement_outside.
  assert (E1 : locateIn el (page (updateElement el markProcessed s)) = None)
    by now rewrite H1.
  destruct (nonMeaningful a n _); [exact H1 |].
  destruct (analyzedTextCache _ !! _) as [cachedResult|].
  - now rewrite page_handleAnalysisResult_outside.
  - destruct (skippedByQuickCheck _); [exact H1 |].
    destruct (autoRephrase _); [| exact H1].
    cbn [page setTimeout setPending].
    now rewrite page_updateElement_outside.
Qed.

End Outside.

(** *** Every handler keeps at most one badge on each element *)

Section BadgeInvariant.

Variable innerText : node -> string.
Variable computedPosition : node -> string.

Lemma atMostOneBadgeEach_page (s s' : state) :
  page s' = page s -> atMostOneBadgeEach s -> atMostOneBadgeEach s'.
Proof. unfold atMostOneBadgeEach. now intros ->. Qed.

Lemma querySelector_onElement (p : element -> bool) (g : element -> element) (n : node) :
  querySelector p (onElement g n) = querySelector p n.
Proof. now destruct n. Qed.

Lemma atMostOneBadgeEach_addWarningIndicator (el : nat) (result : analysisResult)
    (s : state) :
  atMostOneBadgeEach s ->
  atMostOneBadgeEach (addWarningIndicator computedPosition el result s).
Proof.
  intros H.
  destruct (locateIn el (page s)) as [[a n]|] eqn:E.
  2:{ eapply atMostOneBadgeEach_page; [| exact H].
      now apply page_addWarningIndicator_outside. }
  unfold addWarningIndicator. rewrite (findElement_page _ _ _ E).
  destruct (querySelector (hasClass "ai-guardian-warning") n) eqn:G; [exact H |].
  cbv zeta.
  set (s1 := if bool_decide (computedPosition n = "static") then _ else _).
  assert (H1 : atMostOneBadgeEach s1).
  { subst s1. destruct (bool_decide (computedPosition n = "static")); [| exact H].
    apply atMostOneBadgeEach_onElement; [apply keepsBadgeClass_withStyle | exact H]. }
  assert (E1 : exists a1 n1,
             locateIn el (page s1) = Some (a1, n1)
             /\ querySelector (hasClass "ai-guardian-warning") n1 = false).
  { subst s1. destruct (bool_decide (computedPosition n = "static")).
    - cbn [page updateElement setDetached setPage setNextRef].
      rewrite locateIn_update by apply keepsRef_onElement. rewrite E. simpl.
      eexists _, _. split; [reflexivity |]. now rewrite querySelector_onElement.
    - simpl. rewrite E. eauto. }
  destruct E1 as (a1 & n1 & E1 & G1).
  apply atMostOneBadgeEach_updateElement; [exact H1 |].
  intros a' m' E' Hm'. rewrite E1 in E'. injection E' as <- <-.
  split; [now apply atMostOneBadge_append_badge | now destruct n1].
Qed.

Lemma atMostOneBadgeEach_rephraseContent (el : nat) (result : analysisResult)
    (s : state) :
  atMostOneBadgeEach s -> atMostOneBadgeEach (rephraseContent el result s).
Proof.
  intros H. unfold rephraseContent.
  destruct (findElement el s) as [[a n]|] eqn:E; [| exact H].
  destruct (matches (hasClass "ai-guardian-rephrased") n
            || querySelector (hasClass "ai-guardian-rephrased") n).
  - apply atMostOneBadgeEach_onElement; [| exact H].
    now apply keepsBadgeClass_remove.
  - destruct n as [data | r e cs]; simpl;
      (apply atMostOneBadgeEach_onElement; [| exact H]);
      now apply keepsBadgeClass_add.
Qed.

Lemma atMostOneBadgeEach_handleAnalysisResult (el : nat) (result : analysisResult)
    (s : state) :
  atMostOneBadgeEach s ->
  atMostOneBadgeEach (handleAnalysisResult computedPosition el result s).
Proof.
  intros H. unfold handleAnalysisResult.
  destruct (negb (isHarmful result) || bool_decide (category result = "safe"));
    [exact H |].
  set (s1 := if showWarnings (extensionSettings s) then _ else s).
  assert (H1 : atMostOneBadgeEach s1).
  { subst s1. destruct (showWarnings (extensionSettings s)); [| exact H].
    now apply atMostOneBadgeEach_addWarningIndicator. }
  destruct (autoRephrase (extensionSettings s1)).
  - now apply atMostOneBadgeEach_rephraseContent.
  - apply atMostOneBadgeEach_onElement; [| exact H1].
    now apply keepsBadgeClass_add.
Qed.

Lemma atMostOneBadgeEach_rephraseCallback (el : nat) (result : analysisResult)
    (d t : string) (cls : list string) (rr : reply rephraseResult) (s : state) :
  atMostOneBadgeEach s ->
  atMostOneBadgeEach (rephraseCallback el result d t cls rr s).
Proof.
  intros H. unfold rephraseCallback.
  apply atMostOneBadgeEach_onElement; [now apply keepsBadgeClass_remove |].
  destruct rr as [rr | err |]; try exact H.
  apply atMostOneBadgeEach_updateElement; [exact H |].
  intros a [data | r e cs] _ Hm; [now split |].
  split; [| reflexivity].
  apply atMostOneBadge_single_child, atMostOneBadge_rephrasedWrapper.
Qed.

Lemma atMostOneBadgeEach_analysisCallback (el : nat) (text : string)
    (result : reply analysisResult) (s : state) :
  atMostOneBadgeEach s ->
  atMostOneBadgeEach (analysisCallback computedPosition el text result s).
Proof.
  intros H. unfold analysisCallback.
  set (s1 := if autoRephrase (extensionSettings s) then _ else s).
  assert (H1 : atMostOneBadgeEach s1).
  { subst s1. destruct (autoRephrase (extensionSettings s)); [| exact H].
    apply atMostOneBadgeEach_onElement; [apply keepsBadgeClass_withStyle | exact H]. }
  destruct result as [result | err |]; try exact H1.
  now apply atMostOneBadgeEach_handleAnalysisResult.
Qed.

Lemma atMostOneBadgeEach_analyzeElement (el : nat) (s : state) :
  atMostOneBadgeEach s ->
  atMostOneBadgeEach (analyzeElement innerText computedPosition el s).
Proof.
  intros H. unfold analyzeElement.
  destruct (findElement el s) as [[a n]|]; [| exact H].
  destruct (shouldIgnoreElement a n); [exact H |].
  destruct (matches _ n); [exact H |].
  destruct (negb (truthy (innerText n))); [exact H |].
  cbv zeta.
  destruct (String.length (trim (innerText n)) <? 10)%nat; [exact H |].
  assert (H1 : atMostOneBadgeEach (updateElement el markProcessed s)).
  { apply atMostOneBadgeEach_onElement; [apply keepsBadgeClass_withAttributes | exact H]. }
  destruct (nonMeaningful a n (trim (innerText n))); [exact H1 |].
  destruct (analyzedTextCache _ !! trim (innerText n)) as [cachedResult|].
  - now apply atMostOneBadgeEach_handleAnalysisResult.
  - destruct (skippedByQuickCheck (trim (innerText n))); [exact H1 |].
    destruct (autoRephrase _); [| exact H1].
    apply (atMostOneBadgeEach_onElement el _ (updateElement el markProcessed s));
      [apply keepsBadgeClass_withStyle | exact H1].
Qed.

Lemma atMostOneBadgeEach_analyzeBatch (batch : list nat) (s : state) :
  atMostOneBadgeEach s ->
  atMostOneBadgeEach (analyzeBatch innerText computedPosition batch s).
Proof.
  unfold analyzeBatch. revert s.
  induction batch as [|el batch IH]; intros s H; [exact H |].
  simpl. apply IH. now apply atMostOneBadgeEach_analyzeElement.
Qed.

Lemma atMostOneBadgeEach_processBatches (batches : list (list nat)) (index delay : nat)
    (s : state) :
  atMostOneBadgeEach s ->
  atMostOneBadgeEach (processBatches innerText computedPosition batches index delay s).
Proof.
  intros H. unfold processBatches.
  destruct (batches !! index) as [batch|]; [| exact H].
  now apply (atMostOneBadgeEach_analyzeBatch batch s).
Qed.

Lemma atMostOneBadgeEach_processMutations (w : nat) (s : state) :
  atMostOneBadgeEach s ->
  atMostOneBadgeEach (processMutations innerText computedPosition w s).
Proof.
  intros H. unfold processMutations.
  destruct (watchers s !! w) as [x|]; [| exact H].
  cbv zeta.
  set (els := fold_left _ (pendingMutations x) []).
  pose proof (atMostOneBadgeEach_analyzeBatch els s H) as H1.
  unfold analyzeBatch in H1.
  destruct (watchers _ !! w); exact H1.
Qed.

Lemma atMostOneBadgeEach_analyzePageContent (s : state) :
  atMostOneBadgeEach s ->
  atMostOneBadgeEach (analyzePageContent innerText computedPosition s).
Proof.
  intros H. unfold analyzePageContent. cbv zeta.
  repeat case_match; try exact H;
    try (apply (atMostOneBadgeEach_processBatches _ 0 100 s H)).
Qed.

Lemma atMostOneBadgeEach_secondaryScan (s : state) :
  atMostOneBadgeEach s ->
  atMostOneBadgeEach (secondaryScan innerText computedPosition s).
Proof.
  intros H. unfold secondaryScan. now apply atMostOneBadgeEach_processBatches.
Qed.

Lemma atMostOneBadgeEach_onPageChanged (s : state) :
  atMostOneBadgeEach s -> atMostOneBadgeEach (onPageChanged s).
Proof.
  intros H. unfold onPageChanged. cbv zeta.
  assert (H1 : atMostOneBadgeEach (removeAllModifications (setAnalyzedTextCache ∅ s)))
    by now apply atMostOneBadgeEach_removeAllModifications.
  match goal with
  | |- atMostOneBadgeEach (if _ then setTimeout _ ?s' else ?s') =>
      assert (H2 : atMostOneBadgeEach s')
  end.
  { unfold atMostOneBadgeEach in *. simpl.
    apply forallb_map_all; [| exact H1].
    apply atMostOneBadge_forEachElement. intros e.
    destruct (hasAttribute processedMarker (attributes e)); reflexivity. }
  destruct (enabled _); exact H2.
Qed.

Lemma atMostOneBadgeEach_step (ev : event) (s : state) :
  atMostOneBadgeEach s ->
  atMostOneBadgeEach (step innerText computedPosition ev s).
Proof.
  intros H. destruct ev as [i | i result | i rr | i response | settings | | w mutations];
    simpl.
  - destruct (pending s !! i) as [[el text timeout | w | batches index delay | |
                                   | el text | el result d t cls | ]|];
      try exact H.
    + now apply (atMostOneBadgeEach_processMutations w (setPending _ s)).
    + now apply (atMostOneBadgeEach_processBatches batches index delay (setPending _ s)).
    + now apply (atMostOneBadgeEach_secondaryScan (setPending _ s)).
    + now apply (atMostOneBadgeEach_analyzePageContent (setPending _ s)).
  - destruct (pending s !! i) as [[| | | | | el text | |]|]; try exact H.
    now apply (atMostOneBadgeEach_analysisCallback el text result (setPending _ s)).
  - destruct (pending s !! i) as [[| | | | | | el result d t cls |]|]; try exact H.
    now apply (atMostOneBadgeEach_rephraseCallback el result d t cls rr (setPending _ s)).
  - destruct (pending s !! i) as [[| | | | | | |]|]; try exact H.
    unfold settingsCallback.
    destruct response as [settings|]; [| exact H].
    destruct (enabled settings); [| exact H].
    now apply atMostOneBadgeEach_analyzePageContent.
  - unfold onSettingsUpdated. cbv zeta. destruct (enabled settings).
    + apply atMostOneBadgeEach_analyzePageContent.
      destruct (observer _); exact H.
    + apply atMostOneBadgeEach_removeAllModifications.
      unfold disconnectObserver, disconnect. simpl.
      destruct (observer s) as [w|]; [| exact H]. simpl.
      destruct (watchers s !! w); exact H.
  - now apply atMostOneBadgeEach_onPageChanged.
  - destruct (watchers s !! w) as [x|] eqn:E; [| exact H].
    destruct (connected x); [| exact H].
    unfold observerCallback. rewrite E. cbv zeta.
    destruct (processingTimeout x); exact H.
Qed.

Lemma atMostOneBadgeEach_run (evs : list event) (s : state) :
  atMostOneBadgeEach s ->
  atMostOneBadgeEach (run innerText computedPosition evs s).
Proof.
  unfold run. revert s. induction evs as [|ev evs IH]; intros s H; [exact H |].
  simpl. apply IH. now apply atMostOneBadgeEach_step.
Qed.

End BadgeInvariant.

(** ** Following one element through the handlers *)

Section Following.

Variable innerText : node -> string.
Variable computedPosition : node -> string.

Lemma locate_ancestors_ref (r : nat) :
  forall n a m, locate r n = Some (a, m) -> Forall (fun A => refOf A <> Some r) a.
Proof.
  induction n as [data | r' e cs IH] using node_ind'; intros a m E; [discriminate |].
  simpl in E. destruct (decide (r' = r)) as [-> | Hne].
  - injection E as <- <-. constructor.
  - destruct (firstSome (locate r) cs) as [[a' m']|] eqn:Ecs; [| discriminate].
    injection E as <- <-.
    destruct (firstSome_split _ (fun c => c) _ _ Ecs) as (l1 & c & l2 & -> & _ & Ec & _).
    apply Forall_app in IH as [_ IH]. apply Forall_cons in IH as [IHc _].
    apply Forall_app. split; [now apply (IHc a' m') |].
    constructor; [| constructor]. simpl. congruence.
Qed.

Lemma locateIn_ancestors_ref (r : nat) (doc : document) (a : list node) (m : node) :
  locateIn r doc = Some (a, m) -> Forall (fun A => refOf A <> Some r) a.
Proof.
  unfold locateIn. intros E.
  destruct (firstSome_split _ (fun c => c) _ _ E) as (l1 & c & l2 & -> & _ & Ec & _).
  now apply (locate_ancestors_ref r c a m).
Qed.

Lemma clearPath_intro (r : nat) (doc : document) (a : list node) (m : node) :
  locateIn r doc = Some (a, m) -> Forall overlayFree a -> clearPath r a.
Proof.
  intros E H. pose proof (locateIn_ancestors_ref _ _ _ _ E) as Hr.
  unfold clearPath. rewrite Forall_forall in *. intros A HA. split; auto.
Qed.

Lemma originalTextOf_update (r : nat) (f : node -> node) (c : node) :
  gentle f -> originalTextOf (update r f c) = originalTextOf c.
Proof.
  intros [_ Hf]. destruct c as [data | r' e cs]; [reflexivity |]. simpl update.
  destruct (decide (r' = r)); [apply Hf | reflexivity].
Qed.

Lemma firstSome_originalTextOf_updateFirst {B : Type} (found : node -> option B)
    (r : nat) (f : node -> node) (cs : list node) :
  gentle f ->
  firstSome originalTextOf (updateFirst found (update r f) cs)
  = firstSome originalTextOf cs.
Proof.
  intros Hf. induction cs as [|c cs IH]; [reflexivity |]. simpl.
  destruct (found c); simpl.
  - now rewrite originalTextOf_update.
  - now rewrite IH.
Qed.

Lemma overlayFree_update (r : nat) (f : node -> node) (A : node) :
  refOf A <> Some r -> gentle f -> overlayFree A ->
  refOf (update r f A) <> Some r /\ overlayFree (update r f A).
Proof.
  intros Hr Hf [H1 H2]. destruct A as [data | r' e cs]; [now repeat split |].
  simpl update. destruct (decide (r' = r)) as [-> | Hne]; [now elim Hr |].
  split; [exact Hr |]. split; [exact H1 |].
  unfold unwrapped in *. simpl in *.
  now rewrite firstSome_originalTextOf_updateFirst.
Qed.

Lemma clearPath_update (r : nat) (f : node -> node) (a : list node) :
  gentle f -> clearPath r a -> clearPath r (map (update r f) a).
Proof.
  intros Hf. unfold clearPath. induction 1 as [|A a [Hr HA] _ IH]; simpl; constructor.
  - now apply overlayFree_update.
  - exact IH.
Qed.

Lemma relocate (el : nat) (f : node -> node) (s : state) (a : list node) (n : node) :
  gentle f ->
  locateIn el (page s) = Some (a, n) ->
  locateIn el (page (updateElement el f s)) = Some (map (update el f) a, f n).
Proof.
  intros [Hf _] E. unfold updateElement. simpl.
  rewrite locateIn_update by exact Hf. now rewrite E.
Qed.

Lemma gentle_onChildNodes (g : list node -> list node) : gentle (onChildNodes g).
Proof. split; [apply keepsRef_onChildNodes | now intros [data | r e cs]]. Qed.

Lemma gentle_withStyle (h : style -> style) : gentle (onElement (withStyle h)).
Proof. split; [apply keepsRef_onElement | now intros [data | r e cs]]. Qed.

Lemma gentle_add (c : string) :
  c <> "ai-guardian-rephrased" -> gentle (onElement (withClassList (add c))).
Proof.
  intros Hc. split; [apply keepsRef_onElement |].
  intros [data | r e cs]; [reflexivity |]. simpl. unfold hasClass. simpl.
  now rewrite contains_add_ne.
Qed.

Lemma gentle_remove (c : string) :
  c <> "ai-guardian-rephrased" -> gentle (onElement (withClassList (remove c))).
Proof.
  intros Hc. split; [apply keepsRef_onElement |].
  intros [data | r e cs]; [reflexivity |]. simpl. unfold hasClass. simpl.
  now rewrite contains_remove_ne.
Qed.

(** *** [addWarningIndicator] *)

Lemma anyElement_warningBadge (k : nat) (result : analysisResult) :
  anyElement (hasClass "ai-guardian-warning") (warningBadge k result) = true.
Proof.
  reflexivity.
Qed.

Lemma querySelector_append (p : element -> bool) (b : node) (n : node) (r : nat) :
  refOf n = Some r ->
  querySelector p (onChildNodes (fun cs => cs ++ [b]) n)
  = querySelector p n || anyElement p b.
Proof.
  destruct n as [data | r' e cs]; [discriminate |]. intros _. simpl.
  rewrite existsb_app. simpl. now rewrite orb_false_r.
Qed.

Lemma optional_badge (b : bool) (el : nat) (result : analysisResult) (s : state)
    (a : list node) (n : node) :
  locateIn el (page s) = Some (a, n) ->
  let s0 := if b then addWarningIndicator computedPosition el result s else s in
  exists a0 n0,
    locateIn el (page s0) = Some (a0, n0)
    /\ badged result n n0
    /\ (clearPath el a -> clearPath el a0)
    /\ (b = true -> querySelector (hasClass "ai-guardian-warning") n0 = true)
    /\ sent s0 = sent s
    /\ pending s0 = pending s
    /\ extensionSettings s0 = extensionSettings s
    /\ analyzedTextCache s0 = analyzedTextCache s.
Proof.
  intros E s0. pose proof (locateIn_ref _ _ _ _ E) as Hr.
  destruct b; subst s0.
  2:{ exists a, n. split; [exact E |]. split; [apply badged_not |].
      split; [trivial |]. split; [discriminate |]. repeat split. }
  unfold addWarningIndicator. rewrite (findElement_page _ _ _ E).
  destruct (querySelector (hasClass "ai-guardian-warning") n) eqn:G.
  { exists a, n. split; [exact E |]. split; [apply badged_not |].
    split; [trivial |]. split; [trivial |]. repeat split. }
  cbv zeta. destruct (bool_decide (computedPosition n = "static")).
  - eexists _, _. split.
    { apply relocate; [apply gentle_onChildNodes |].
      apply relocate; [apply gentle_withStyle |]. exact E. }
    split; [apply badged_positioned |].
    split.
    { intros Hp. apply clearPath_update; [apply gentle_onChildNodes |].
      apply clearPath_update; [apply gentle_withStyle | exact Hp]. }
    split; [| repeat split].
    intros _. rewrite (querySelector_append _ _ _ el).
    + now rewrite anyElement_warningBadge, orb_true_r.
    + now destruct n.
  - eexists _, _. split.
    { apply relocate; [apply gentle_onChildNodes |]. exact E. }
    split; [apply badged_appended |].
    split.
    { intros Hp. apply clearPath_update; [apply gentle_onChildNodes | exact Hp]. }
    split; [| repeat split].
    intros _. rewrite (querySelector_append _ _ _ el Hr).
    now rewrite anyElement_warningBadge, orb_true_r.
Qed.

End Following.

(** ** What the verdict handler does to the element *)

Section Verdict.

Variable innerText : node -> string.
Variable computedPosition : node -> string.

Lemma badged_shape (result : analysisResult) (r : nat) (e : element) (cs : list node)
    (n0 : node) :
  badged result (Elem r e cs) n0 ->
  exists e0 cs0,
    n0 = Elem r e0 cs0
    /\ classList e0 = classList e
    /\ attributes e0 = attributes e
    /\ tagName e0 = tagName e
    /\ display (inlineStyle e0) = display (inlineStyle e)
    /\ (cs0 = cs \/ exists k, cs0 = cs ++ [warningBadge k result]).
Proof.
  inversion 1; subst; simpl; eexists _, _; (split; [reflexivity |]);
    repeat split; eauto.
Qed.

Lemma warningBadge_is_no_wrapper (k : nat) (result : analysisResult) :
  category result <> "rephrased" ->
  anyElement (hasClass "ai-guardian-rephrased") (warningBadge k result) = false.
Proof.
  intros Hc. unfold warningBadge.
  cbn [anyElement existsb].
  assert (H : hasClass "ai-guardian-rephrased"
                (span ["ai-guardian-warning"; "ai-guardian-" +:+ category result]
                      [] noStyle) = false).
  { unfold hasClass, contains. apply bool_decide_eq_false_2.
    intros H. apply list_elem_of_In in H. simpl in H.
    destruct H as [H | [H | []]]; [discriminate |].
    apply Hc. change "ai-guardian-rephrased" with ("ai-guardian-" +:+ "rephrased") in H.
    now apply String.app_inj in H. }
  rewrite H. unfold textNodes. destruct (truthy (explanation result)); reflexivity.
Qed.

Lemma badged_keeps_guard (result : analysisResult) (r : nat) (e : element)
    (cs : list node) (n0 : node) :
  category result <> "rephrased" ->
  badged result (Elem r e cs) n0 ->
  matches (hasClass "ai-guardian-rephrased") n0
  = matches (hasClass "ai-guardian-rephrased") (Elem r e cs)
  /\ querySelector (hasClass "ai-guardian-rephrased") n0
     = querySelector (hasClass "ai-guardian-rephrased") (Elem r e cs).
Proof.
  intros Hc Hb.
  destruct (badged_shape _ _ _ _ _ Hb) as (e0 & cs0 & -> & Hcl & _ & _ & _ & Hcs).
  split; [unfold matches, hasClass; now rewrite Hcl |].
  destruct Hcs as [-> | [k ->]]; [reflexivity |]. unfold querySelector.
  rewrite existsb_app. cbn [existsb].
  now rewrite (warningBadge_is_no_wrapper k result Hc), !orb_false_r.
Qed.

Lemma rephraseContent_request (el : nat) (result : analysisResult) (s : state)
    (a : list node) (r : nat) (e : element) (cs : list node) :
  locateIn el (page s) = Some (a, Elem r e cs) ->
  matches (hasClass "ai-guardian-rephrased") (Elem r e cs) = false ->
  querySelector (hasClass "ai-guardian-rephrased") (Elem r e cs) = false ->
  rephraseContent el result s
  = sendMessage (REPHRASE_TEXT (text result) (category result))
      (AwaitRephrase el result (display (inlineStyle e)) (toLowerCase (tagName e))
         (List.filter (fun cls => negb (ownClass cls))
            (add "ai-guardian-processing" (classList e))))
      (updateElement el
         (onElement (withClassList (add "ai-guardian-processing"))) s).
Proof.
  intros E H1 H2. unfold rephraseContent. rewrite (findElement_page _ _ _ E), H1, H2. reflexivity.
Qed.

Lemma hasBadge_onElement (el : nat) (g : element -> element) (s : state) :
  hasBadge el (updateElement el (onElement g) s) = hasBadge el s.
Proof.
  unfold hasBadge, updateElement. simpl.
  rewrite locateIn_update by apply keepsRef_onElement.
  destruct (locateIn el (page s)) as [[a n]|]; [| reflexivity].
  simpl. apply querySelector_onElement.
Qed.

Lemma hasBadge_rephraseContent (el : nat) (result : analysisResult) (s : state) :
  hasBadge el (rephraseContent el result s) = hasBadge el s.
Proof.
  unfold rephraseContent.
  destruct (findElement el s) as [[a n]|] eqn:E; [| reflexivity].
  destruct (matches _ n || querySelector _ n); [apply hasBadge_onElement |].
  destruct n as [data | r e cs]; simpl.
  - apply hasBadge_onElement.
  - apply (hasBadge_onElement el _ s).
Qed.

Lemma contains_add (c : string) (l : list string) : contains c (add c l) = true.
Proof.
  unfold add. destruct (contains c l) eqn:E; [exact E |].
  unfold contains. apply bool_decide_eq_true_2, elem_of_app. right. left.
Qed.

Lemma isFlagged_flag (el : nat) (s : state) (a : list node) (n : node) :
  locateIn el (page s) = Some (a, n) ->
  isFlagged el
    (updateElement el (onElement (withClassList (add "ai-guardian-flagged"))) s)
  = true.
Proof.
  intros E. unfold isFlagged, updateElement. simpl.
  rewrite locateIn_update by apply keepsRef_onElement. rewrite E. simpl.
  pose proof (locateIn_ref _ _ _ _ E) as Hr.
  destruct n as [data | r e cs]; [discriminate |]. simpl.
  unfold hasClass. simpl. apply contains_add.
Qed.

(** The callback of the analysis acts on the two settings [showWarnings]
    and [autoRephrase] alone. *)
Lemma analysisCallback_applies (el : nat) (text : string) (result : analysisResult)
    (s : state) (a : list node) (n : node) :
  locateIn el (page s) = Some (a, n) ->
  isHarmful result = true ->
  category result <> "safe" ->
  category result <> "rephrased" ->
  let s' := analysisCallback computedPosition el text (Reply result) s in
  (showWarnings (extensionSettings s) = true -> hasBadge el s' = true)
  /\ (autoRephrase (extensionSettings s) = false -> isFlagged el s' = true)
  /\ (autoRephrase (extensionSettings s) = true ->
      matches (hasClass "ai-guardian-rephrased") n = false ->
      querySelector (hasClass "ai-guardian-rephrased") n = false ->
      sent s' = sent s ++ [REPHRASE_TEXT (Background.text result) (category result)]).
Proof.
  intros E Hh Hsafe Hre s'.
  pose proof (locateIn_ref _ _ _ _ E) as Hr.
  destruct n as [data | r e cs]; [discriminate |]. injection Hr as ->.
  (* the state when the verdict handler starts *)
  set (s1 := setAnalyzedTextCache (<[text := result]> (analyzedTextCache
               (if autoRephrase (extensionSettings s)
                then updateElement el (onElement (withStyle (setOpacity "1"))) s
                else s)))
               (if autoRephrase (extensionSettings s)
                then updateElement el (onElement (withStyle (setOpacity "1"))) s
                else s)).
  assert (Hs' : s' = handleAnalysisResult computedPosition el result s1) by reflexivity.
  assert (Hset : extensionSettings s1 = extensionSettings s)
    by (subst s1; simpl; now destruct (autoRephrase (extensionSettings s))).
  assert (Hsent : sent s1 = sent s)
    by (subst s1; simpl; now destruct (autoRephrase (extensionSettings s))).
  assert (E1 : exists a1 e1,
             locateIn el (page s1) = Some (a1, Elem el e1 cs)
             /\ classList e1 = classList e).
  { subst s1. simpl. destruct (autoRephrase (extensionSettings s)).
    - rewrite (relocate el _ s a (Elem el e cs) (gentle_withStyle _) E).
      simpl. eauto.
    - eauto. }
  destruct E1 as (a1 & e1 & E1 & Hcl1).
  clearbody s' s1.
  unfold handleAnalysisResult in Hs'.
  rewrite Hh in Hs'.
  rewrite bool_decide_eq_false_2 in Hs' by exact Hsafe. cbn [negb orb] in Hs'.
  destruct (optional_badge computedPosition (showWarnings (extensionSettings s1))
              el result s1 a1 _ E1)
    as (a0 & n0 & E0 & Hb & _ & Hw & Hsent0 & _ & Hset0 & _).
  set (s2 := if showWarnings (extensionSettings s1) then _ else s1) in *.
  destruct (badged_keeps_guard _ _ _ _ _ Hre Hb) as [Hg1 Hg2].
  destruct (badged_shape _ _ _ _ _ Hb) as (e0 & cs0 & -> & Hcl0 & _).
  rewrite Hset0, Hset in Hs'.
  split; [| split].
  - intros Hshow. rewrite Hset, Hshow in Hw. specialize (Hw eq_refl).
    assert (H2 : hasBadge el s2 = true) by (unfold hasBadge; now rewrite E0).
    rewrite Hs'. destruct (autoRephrase (extensionSettings s)).
    + now rewrite hasBadge_rephraseContent.
    + now rewrite hasBadge_onElement.
  - intros Hauto. rewrite Hs', Hauto. now apply isFlagged_flag with a0 (Elem el e0 cs0).
  - intros Hauto G1 G2. rewrite Hs', Hauto.
    rewrite (rephraseContent_request el result s2 a0 el e0 cs0 E0).
    + simpl. now rewrite Hsent0, Hsent.
    + rewrite Hg1. unfold matches, hasClass in *. now rewrite Hcl1.
    + rewrite Hg2. exact G2.
Qed.

End Verdict.

(** ** The reversal *)

Section Reversal.

(** *** What the reversal leaves nowhere in the page *)

Lemma existsb_false_flat_map (q : node -> bool) (g : node -> list node) (cs : list node) :
  Forall (fun c => existsb q (g c) = false) cs ->
  existsb q (flat_map g cs) = false.
Proof.
  induction 1 as [|c cs Hc _ IH]; [reflexivity |].
  simpl. now rewrite existsb_app, Hc, IH.
Qed.

Lemma anyElement_removeAll_same (p : element -> bool) :
  forall n, matches p n = false -> anyElement p (removeAll p n) = false.
Proof.
  induction n as [data | r e cs IH] using node_ind'; [reflexivity |].
  simpl. intros ->. simpl.
  apply existsb_false_flat_map. rewrite Forall_forall in *. intros c Hc.
  destruct (matches p c) eqn:E; [reflexivity |].
  simpl. now rewrite (IH c Hc E).
Qed.

Lemma anyElement_removeAll (p q : element -> bool) :
  forall n, anyElement p n = false -> anyElement p (removeAll q n) = false.
Proof.
  induction n as [data | r e cs IH] using node_ind'; [reflexivity |].
  simpl. intros H. apply orb_false_iff in H as [-> H]. simpl.
  apply existsb_false_flat_map.
  rewrite Forall_forall in *. intros c Hc.
  destruct (matches q c); [reflexivity |]. simpl.
  rewrite orb_false_r. apply (IH c Hc).
  apply not_true_is_false. intros Hcontra.
  assert (existsb (anyElement p) cs = true)
    by (apply existsb_exists; exists c; split;
        [now apply list_elem_of_In | exact Hcontra]).
  congruence.
Qed.

Lemma existsb_false_map (q : node -> bool) (g : node -> node) (cs : list node) :
  Forall (fun c => q c = false -> q (g c) = false) cs ->
  existsb q cs = false ->
  existsb q (map g cs) = false.
Proof.
  induction 1 as [|c cs Hc _ IH]; [reflexivity |].
  simpl. intros H. apply orb_false_iff in H as [H1 H2]. now rewrite (Hc H1), (IH H2).
Qed.

Lemma anyElement_restoreOriginalText (p : element -> bool) :
  forall n, anyElement p n = false -> anyElement p (restoreOriginalText n) = false.
Proof.
  induction n as [data | r e cs IH] using node_ind'; [reflexivity |].
  simpl. intros H. apply orb_false_iff in H as [He H].
  destruct (firstSome originalTextOf cs); simpl; rewrite He; [reflexivity |].
  simpl. now apply existsb_false_map.
Qed.

Lemma anyElement_forEachElement (p : element -> bool) (g : element -> element) :
  (forall e, p (g e) = p e) ->
  forall n, anyElement p n = false -> anyElement p (forEachElement g n) = false.
Proof.
  intros Hg. induction n as [data | r e cs IH] using node_ind'; [reflexivity |].
  simpl. intros H. apply orb_false_iff in H as [He H].
  rewrite Hg, He. simpl. now apply existsb_false_map.
Qed.

Lemma locate_anyElement (p : element -> bool) (r : nat) :
  forall n a m, locate r n = Some (a, m) -> anyElement p n = false ->
                anyElement p m = false.
Proof.
  induction n as [data | r' e cs IH] using node_ind'; intros a m E Hn; [discriminate |].
  simpl in E. destruct (decide (r' = r)) as [-> | Hne].
  - injection E as <- <-. exact Hn.
  - destruct (firstSome (locate r) cs) as [[a' m']|] eqn:Ecs; [| discriminate].
    injection E as <- <-.
    destruct (firstSome_split _ (fun c => c) _ _ Ecs) as (l1 & c & l2 & -> & _ & Ec & _).
    simpl in Hn. apply orb_false_iff in Hn as [_ Hn].
    rewrite existsb_app in Hn. simpl in Hn.
    apply orb_false_iff in Hn as [_ Hn]. apply orb_false_iff in Hn as [Hc _].
    apply Forall_app in IH as [_ IH]. apply Forall_cons in IH as [IHc _].
    now apply (IHc a' m').
Qed.

Lemma querySelector_anyElement (p : element -> bool) (n : node) :
  anyElement p n = false -> querySelector p n = false.
Proof.
  destruct n as [data | r e cs]; [reflexivity |]. simpl.
  intros H. now apply orb_false_iff in H as [_ H].
Qed.

Lemma removeAllModifications_leaves_no_badge (s : state) (el : nat) :
  hasBadge el (removeAllModifications s) = false.
Proof.
  unfold hasBadge, removeAllModifications. simpl.
  match goal with |- match locateIn el ?doc with _ => _ end = _ => set (d := doc) end.
  assert (Hd : Forall (fun c => anyElement (hasClass "ai-guardian-warning") c = false) d).
  { subst d. rewrite Forall_forall. intros c Hc.
    apply list_elem_of_In, in_map_iff in Hc as (c1 & <- & Hc1).
    apply anyElement_forEachElement; [apply keepsBadgeClass_clearProcessed |].
    apply in_map_iff in Hc1 as (c2 & <- & Hc2).
    apply anyElement_restoreOriginalText.
    unfold removeAllIn in Hc2 at 1. apply in_flat_map in Hc2 as (c3 & Hc3 & Hc2).
    destruct (matches _ c3); [inversion Hc2 |].
    destruct Hc2 as [<- | []].
    apply anyElement_removeAll.
    unfold removeAllIn in Hc3. apply in_flat_map in Hc3 as (c4 & _ & Hc3).
    destruct (matches _ c4) eqn:E4; [inversion Hc3 |].
    destruct Hc3 as [<- | []].
    now apply anyElement_removeAll_same. }
  destruct (locateIn el d) as [[a m]|] eqn:E; [| reflexivity].
  unfold locateIn in E.
  destruct (firstSome_split _ (fun c => c) _ _ E) as (l1 & c & l2 & Hdoc & _ & Ec & _).
  rewrite Hdoc in Hd. apply Forall_app in Hd as [_ Hd]. apply Forall_cons in Hd as [Hc _].
  apply querySelector_anyElement. now apply (locate_anyElement _ el c a m).
Qed.

(** *** How the passes move the element a reference denotes *)

Lemma firstSome_locate_map (r : nat) (g : node -> node) (cs : list node) :
  Forall (fun c => locate r (g c) = through g <$> locate r c) cs ->
  firstSome (locate r) (map g cs) = through g <$> firstSome (locate r) cs.
Proof.
  induction 1 as [|c cs Hc _ IH]; [reflexivity |].
  simpl. rewrite Hc. destruct (locate r c) as [[a m]|]; [reflexivity | exact IH].
Qed.

Lemma locate_forEachElement (g : element -> element) (r : nat) :
  forall n, locate r (forEachElement g n)
            = through (forEachElement g) <$> locate r n.
Proof.
  induction n as [data | r' e cs IH] using node_ind'; [reflexivity |].
  simpl. destruct (decide (r' = r)); [reflexivity |].
  rewrite (firstSome_locate_map r _ cs IH).
  destruct (firstSome (locate r) cs) as [[a m]|]; [| reflexivity].
  unfold through. simpl. now rewrite map_app.
Qed.

Lemma locateIn_forEachElement (g : element -> element) (r : nat) (doc : document) :
  locateIn r (map (forEachElement g) doc)
  = through (forEachElement g) <$> locateIn r doc.
Proof.
  apply firstSome_locate_map. apply Forall_forall. intros c _.
  apply locate_forEachElement.
Qed.

Lemma hasAttribute_removeAttribute (name : string) (attrs : list (string * string)) :
  hasAttribute name (removeAttribute name attrs) = false.
Proof.
  unfold hasAttribute. induction attrs as [|[k v] attrs IH]; [reflexivity |].
  simpl. destruct (decide (k = name)) as [-> | Hne]; [exact IH |].
  simpl. now rewrite decide_False by exact Hne.
Qed.

Lemma marked_clearProcessed (n : node) :
  marked (forEachElement clearProcessed n) = false.
Proof.
  destruct n as [data | r e cs]; [reflexivity |].
  unfold marked. simpl. unfold clearProcessed.
  destruct (hasAttribute processedMarker (attributes e)) eqn:E; [| exact E].
  simpl. apply hasAttribute_removeAttribute.
Qed.

Lemma removeAllModifications_leaves_no_marker (s : state) (el : nat) :
  isProcessed el (removeAllModifications s) = false.
Proof.
  unfold isProcessed, removeAllModifications. simpl.
  rewrite locateIn_forEachElement.
  destruct (locateIn el _) as [[a m]|]; [| reflexivity].
  simpl. apply marked_clearProcessed.
Qed.

End Reversal.

(** ** Verdicts that arrive late, and badges *)

Section LateVerdict.

Variable innerText : node -> string.
Variable computedPosition : node -> string.

Lemma extensionSettings_disabled (settings : settings) (s : state) :
  enabled settings = false ->
  extensionSettings (onSettingsUpdated innerText computedPosition settings s) = settings.
Proof.
  intros H. rewrite onSettingsUpdated_disabled by exact H.
  unfold removeAllModifications, disconnectObserver, disconnect. simpl.
  destruct (observer s) as [w|]; [| reflexivity]. simpl.
  destruct (watchers s !! w); reflexivity.
Qed.

Lemma flagged_category (c : string) :
  c ∈ ["harmful"; "offensive"; "inappropriate"] -> c <> "safe" /\ c <> "rephrased".
Proof.
  intros H. apply list_elem_of_In in H. simpl in H.
  destruct H as [<- | [<- | [<- | []]]]; split; discriminate.
Qed.

Lemma hasBadge_addWarningIndicator (el : nat) (result : analysisResult) (s : state)
    (a : list node) (n : node) :
  locateIn el (page s) = Some (a, n) ->
  hasBadge el (addWarningIndicator computedPosition el result s) = true.
Proof.
  intros E.
  destruct (optional_badge computedPosition true el result s a n E)
    as (a0 & n0 & E0 & _ & _ & Hw & _).
  unfold hasBadge. cbv zeta in E0. rewrite E0. now apply Hw.
Qed.

Lemma addWarningIndicator_with_badge (el : nat) (result : analysisResult) (s : state) :
  hasBadge el s = true ->
  addWarningIndicator computedPosition el result s = s.
Proof.
  unfold hasBadge.
  destruct (locateIn el (page s)) as [[a n]|] eqn:E; [| discriminate].
  intros H. unfold addWarningIndicator. now rewrite (findElement_page _ _ _ E), H.
Qed.

(** Wherever the element is, it has a badge after [addWarningIndicator]. *)
Lemma addWarningIndicator_found (el : nat) (result : analysisResult) (s : state)
    (a : list node) (n : node) :
  findElement el s = Some (a, n) ->
  exists a' n',
    findElement el (addWarningIndicator computedPosition el result s) = Some (a', n')
    /\ querySelector (hasClass "ai-guardian-warning") n' = true.
Proof.
  intros E. pose proof (findElement_ref _ _ _ _ E) as Hr.
  unfold addWarningIndicator. rewrite E.
  destruct (querySelector (hasClass "ai-guardian-warning") n) eqn:G; [eauto |].
  cbv zeta. rewrite findElement_updateElement by apply keepsRef_onChildNodes.
  destruct (bool_decide (computedPosition n = "static")).
  - rewrite findElement_updateElement by apply keepsRef_onElement.
    change (findElement el (setNextRef (nextRef s + 6) s)) with (findElement el s).
    rewrite E. cbn [fmap option_fmap option_map relocated fst snd].
    eexists _, _. split; [reflexivity |].
    rewrite (querySelector_append _ _ _ el) by now destruct n.
    now rewrite anyElement_warningBadge, orb_true_r.
  - change (findElement el (setNextRef (nextRef s + 6) s)) with (findElement el s).
    rewrite E. cbn [fmap option_fmap option_map relocated fst snd].
    eexists _, _. split; [reflexivity |].
    rewrite (querySelector_append _ _ _ el Hr).
    now rewrite anyElement_warningBadge, orb_true_r.
Qed.

Lemma addWarningIndicator_twice (el : nat) (first second : analysisResult) (s : state) :
  addWarningIndicator computedPosition el second
    (addWarningIndicator computedPosition el first s)
  = addWarningIndicator computedPosition el first s.
Proof.
  destruct (findElement el s) as [[a n]|] eqn:E.
  - destruct (addWarningIndicator_found el first s a n E) as (a' & n' & E' & G').
    unfold addWarningIndicator at 1. now rewrite E', G'.
  - unfold addWarningIndicator at 2. rewrite E.
    unfold addWarningIndicator. now rewrite E.
Qed.

End LateVerdict.

(** C2, the claim as stated does not hold: the callback of the analysis
    never looks at [enabled] nor at the processed marker.  Here the
    analysis of paragraph 2 is in flight when the pipeline is disabled; the
    reversal leaves the paragraph without marker and without badge; then
    the harmful verdict arrives, the paragraph gets a warning badge and a
    rephrase request goes out, and the answer to that request replaces the
    text of the paragraph.  With both options off, the same verdict adds
    the flagged class. *)
Lemma late_verdict_modifies_the_page_after_reversal :
  let verdict := Sample.harmfulVerdict "how to make bomb at home" in
  let s2 :=
    run Sample.rendered Sample.static
      [SETTINGS_UPDATED Sample.on; TimerFires 0; SETTINGS_UPDATED Sample.off]
      Sample.sampleState in
  let s3 := step Sample.rendered Sample.static (AnalysisResponse 5 (Reply verdict)) s2 in
  let s4 :=
    step Sample.rendered Sample.static
      (RephraseResponse 5 (Reply (RephraseResult "how to make bomb at home" "[safe]")))
      s3 in
  let q2 :=
    run Sample.rendered Sample.static
      [SETTINGS_UPDATED Sample.on; TimerFires 0; SETTINGS_UPDATED Sample.offQuiet]
      Sample.sampleState in
  let q3 := step Sample.rendered Sample.static (AnalysisResponse 5 (Reply verdict)) q2 in
  enabled (extensionSettings s2) = false
  /\ isProcessed 2 s2 = false
  /\ hasBadge 2 s2 = false
  /\ textOf 2 s2 = Some "how to make bomb at home"
  /\ hasBadge 2 s3 = true
  /\ sent s3 = [ ANALYZE_TEXT "how to make bomb at home";
                 REPHRASE_TEXT "how to make bomb at home" "harmful" ]
  /\ textOf 2 s4 = Some "[safe]"
  /\ enabled (extensionSettings q2) = false
  /\ isFlagged 2 q2 = false
  /\ isFlagged 2 q3 = true.
Proof. repeat split; vm_compute; reflexivity. Qed.

(** C2, amended.  An analysis that is in flight is not aborted, and its
    callback reads the current [showWarnings] and [autoRephrase] but neither
    [enabled] nor the processed marker.  After the pipeline has been
    disabled and the reversal has run, the element has no badge and no
    marker; a harmful verdict that arrives then still attaches a warning
    badge when [showWarnings] is set, sends a rephrase request when
    [autoRephrase] is set, and adds the flagged class when it is not. *)
Theorem late_verdict_is_applied_whatever_enabled_says :
  forall (innerText computedPosition : node -> string) (settings : settings)
         (s0 : state) (element : nat) (text : string) (result : analysisResult)
         (ancestors : list node) (n : node),
    enabled settings = false ->
    let s := onSettingsUpdated innerText computedPosition settings s0 in
    locateIn element (page s) = Some (ancestors, n) ->
    isHarmful result = true ->
    category result ∈ ["harmful"; "offensive"; "inappropriate"] ->
    let s' := analysisCallback computedPosition element text (Reply result) s in
    hasBadge element s = false
    /\ isProcessed element s = false
    /\ (showWarnings settings = true -> hasBadge element s' = true)
    /\ (autoRephrase settings = false -> isFlagged element s' = true)
    /\ (autoRephrase settings = true ->
        matches (hasClass "ai-guardian-rephrased") n = false ->
        querySelector (hasClass "ai-guardian-rephrased") n = false ->
        sent s' = sent s ++ [REPHRASE_TEXT (Background.text result) (category result)]).
Proof.
  intros innerText computedPosition settings s0 element text result ancestors n
    Hoff s E Hh Hcat s'.
  destruct (flagged_category _ Hcat) as [Hsafe Hre].
  pose proof (extensionSettings_disabled innerText computedPosition settings s0 Hoff)
    as Hset. fold s in Hset.
  assert (Hs : s = removeAllModifications
                     (disconnectObserver (setExtensionSettings settings s0)))
    by (apply onSettingsUpdated_disabled; exact Hoff).
  split; [rewrite Hs; apply removeAllModifications_leaves_no_badge |].
  split; [rewrite Hs; apply removeAllModifications_leaves_no_marker |].
  destruct (analysisCallback_applies computedPosition element text result s
              ancestors n E Hh Hsafe Hre) as (H1 & H2 & H3).
  rewrite Hset in H1, H2, H3. repeat split; assumption.
Qed.

Lemma late_verdict_is_applied_whatever_enabled_says_witness :
  hasBadge 2
    (analysisCallback Sample.static 2 "how to make bomb at home"
       (Reply (Sample.harmfulVerdict "how to make bomb at home"))
       (onSettingsUpdated Sample.rendered Sample.static Sample.off Sample.sampleState))
  = true.
Proof.
  set (s := onSettingsUpdated Sample.rendered Sample.static Sample.off
              Sample.sampleState).
  assert (H : exists a n, locateIn 2 (page s) = Some (a, n)).
  { eexists _, _. vm_compute. reflexivity. }
  destruct H as (a & n & E).
  destruct (late_verdict_is_applied_whatever_enabled_says
              Sample.rendered Sample.static Sample.off Sample.sampleState 2
              "how to make bomb at home"
              (Sample.harmfulVerdict "how to make bomb at home") a n
              eq_refl E eq_refl) as (_ & _ & H & _).
  - simpl. left.
  - apply H. reflexivity.
Defined.

(** C5. Along every run of the event loop (scans, watcher passes, verdicts
    and rephrasings arriving in any order, settings and page changes), a
    page in which no element has more than one badge attached stays so.
    An element found twice is analysed once: the second [analyzeElement]
    changes nothing.  And [addWarningIndicator] is idempotent: called again
    on an element, with whatever verdict, it changes nothing. *)
Theorem at_most_one_warning_badge_per_element :
  forall (innerText computedPosition : node -> string),
    (forall (evs : list event) (s : state),
        atMostOneBadgeEach s ->
        atMostOneBadgeEach (run innerText computedPosition evs s))
    /\ (forall (element : nat) (s : state),
          analyzeElement innerText computedPosition element
            (analyzeElement innerText computedPosition element s)
          = analyzeElement innerText computedPosition element s)
    /\ (forall (element : nat) (first second : analysisResult) (s : state),
          addWarningIndicator computedPosition element second
            (addWarningIndicator computedPosition element first s)
          = addWarningIndicator computedPosition element first s).
Proof.
  intros innerText computedPosition. split; [| split].
  - intros evs s. apply atMostOneBadgeEach_run.
  - intros element s. apply analyzeElement_twice.
  - intros element first second s. apply addWarningIndicator_twice.
Qed.

Lemma at_most_one_warning_badge_per_element_witness :
  atMostOneBadgeEach Sample.sampleState
  /\ atMostOneBadgeEach
       (run Sample.rendered Sample.static
          [ SETTINGS_UPDATED Sample.on;
            MutationsObserved 0 [MutationRecord "childList" [ElementNode 2]];
            TimerFires 0; TimerFires 0;
            AnalysisResponse 5
              (Reply (Sample.harmfulVerdict "how to make bomb at home"));
            AnalysisResponse 5
              (Reply (Sample.harmfulVerdict "how to make bomb at home")) ]
          Sample.sampleState).
Proof.
  assert (H : atMostOneBadgeEach Sample.sampleState) by reflexivity.
  split; [exact H |].
  destruct (at_most_one_warning_badge_per_element Sample.rendered Sample.static)
    as [Hrun _].
  apply Hrun. exact H.
Defined.

(** ** The reversal finds the element again *)

Section Restoring.

Lemma locate_removeAll_None (p : element -> bool) (r : nat) :
  forall n, locate r n = None -> locate r (removeAll p n) = None.
Proof.
  induction n as [data | r' e cs IH] using node_ind'; [reflexivity |].
  simpl. destruct (decide (r' = r)); [discriminate |].
  destruct (firstSome (locate r) cs) as [[a m]|] eqn:E; [discriminate |].
  intros _. apply firstSome_None in E.
  replace (firstSome (locate r) (flat_map _ cs)) with (@None (list node * node));
    [reflexivity |].
  symmetry. apply firstSome_None.
  clear -IH E. induction cs as [|c cs IHcs]; [constructor |].
  apply Forall_cons in IH as [IHc IH]. apply Forall_cons in E as [Ec E].
  simpl. apply Forall_app. split; [| now apply IHcs].
  destruct (matches p c); constructor; [now apply IHc | constructor].
Qed.

Lemma firstSome_locate_dropOrClean_None (p : element -> bool) (r : nat) (l : list node) :
  firstSome (locate r) l = None ->
  firstSome (locate r) (flat_map (dropOrClean p) l) = None.
Proof.
  intros E. apply firstSome_None in E. apply firstSome_None.
  induction E as [|c l Hc _ IH]; [constructor |].
  simpl. apply Forall_app. split; [| exact IH].
  unfold dropOrClean. destruct (matches p c); constructor; [| constructor].
  now apply locate_removeAll_None.
Qed.

(** The list step shared by the elements and the document. *)
Lemma firstSome_locate_removeAll (p : element -> bool) (r : nat) (cs : list node)
    (a : list node) (m : node) :
  Forall (fun c => forall a m,
            locate r c = Some (a, m) ->
            Forall (fun A => matches p A = false) a ->
            matches p m = false ->
            locate r (removeAll p c) = Some (map (removeAll p) a, removeAll p m)) cs ->
  firstSome (locate r) cs = Some (a, m) ->
  Forall (fun A => matches p A = false) a ->
  matches p m = false ->
  firstSome (locate r) (flat_map (dropOrClean p) cs)
  = Some (map (removeAll p) a, removeAll p m).
Proof.
  intros IH E Ha Hm.
  destruct (firstSome_split _ (fun c => c) _ _ E) as (l1 & c & l2 & -> & H1 & Ec & _).
  apply Forall_app in IH as [_ IH]. apply Forall_cons in IH as [IHc _].
  rewrite flat_map_app, firstSome_app.
  rewrite (firstSome_locate_dropOrClean_None p r l1 H1).
  assert (Hc : matches p c = false).
  { destruct (locate_top _ _ _ _ Ec) as [[_ ->] | [a' ->]]; [exact Hm |].
    apply Forall_app in Ha as [_ Ha]. now apply Forall_cons in Ha as [Ha _]. }
  simpl. unfold dropOrClean at 1. rewrite Hc. simpl.
  now rewrite (IHc a m Ec Ha Hm).
Qed.

Lemma locate_removeAll (p : element -> bool) (r : nat) :
  forall n a m,
    locate r n = Some (a, m) ->
    Forall (fun A => matches p A = false) a ->
    matches p m = false ->
    locate r (removeAll p n) = Some (map (removeAll p) a, removeAll p m).
Proof.
  induction n as [data | r' e cs IH] using node_ind'; intros a m E Ha Hm;
    [discriminate |].
  simpl in E |- *. destruct (decide (r' = r)) as [-> | Hne].
  - injection E as <- <-. reflexivity.
  - destruct (firstSome (locate r) cs) as [[a' m']|] eqn:Ecs; [| discriminate].
    injection E as <- <-. apply Forall_app in Ha as [Ha _].
    change (flat_map _ cs) with (flat_map (dropOrClean p) cs).
    rewrite (firstSome_locate_removeAll p r cs a' m' IH Ecs Ha Hm).
    rewrite map_app. reflexivity.
Qed.

Lemma locateIn_removeAllIn (p : element -> bool) (r : nat) (doc : document)
    (a : list node) (m : node) :
  locateIn r doc = Some (a, m) ->
  Forall (fun A => matches p A = false) a ->
  matches p m = false ->
  locateIn r (removeAllIn p doc) = Some (map (removeAll p) a, removeAll p m).
Proof.
  intros E Ha Hm. unfold locateIn, removeAllIn.
  apply (firstSome_locate_removeAll p r doc a m); try assumption.
  apply Forall_forall. intros c _. apply locate_removeAll.
Qed.

Lemma locate_restoreOriginalText_None (r : nat) :
  forall n, locate r n = None -> locate r (restoreOriginalText n) = None.
Proof.
  induction n as [data | r' e cs IH] using node_ind'; [reflexivity |].
  simpl. destruct (decide (r' = r)) as [-> | Hne]; [discriminate |].
  destruct (firstSome (locate r) cs) as [[a m]|] eqn:E; [discriminate |].
  intros _. destruct (firstSome originalTextOf cs); simpl;
    rewrite decide_False by exact Hne; [reflexivity |].
  replace (firstSome (locate r) (map restoreOriginalText cs))
    with (@None (list node * node)); [reflexivity |].
  symmetry. apply firstSome_None. apply firstSome_None in E.
  clear -IH E. induction cs as [|c cs IHcs]; [constructor |].
  apply Forall_cons in IH as [IHc IH]. apply Forall_cons in E as [Ec E].
  simpl. constructor; [now apply IHc | now apply IHcs].
Qed.

Lemma firstSome_locate_restore (r : nat) (cs : list node) (a : list node) (m : node) :
  Forall (fun c => forall a m,
            locate r c = Some (a, m) ->
            Forall unwrapped a ->
            locate r (restoreOriginalText c)
            = Some (map restoreOriginalText a, restoreOriginalText m)) cs ->
  firstSome (locate r) cs = Some (a, m) ->
  Forall unwrapped a ->
  firstSome (locate r) (map restoreOriginalText cs)
  = Some (map restoreOriginalText a, restoreOriginalText m).
Proof.
  intros IH E Ha.
  destruct (firstSome_split _ (fun c => c) _ _ E) as (l1 & c & l2 & -> & H1 & Ec & _).
  apply Forall_app in IH as [_ IH]. apply Forall_cons in IH as [IHc _].
  rewrite map_app, firstSome_app.
  replace (firstSome (locate r) (map restoreOriginalText l1))
    with (@None (list node * node)).
  - simpl. now rewrite (IHc a m Ec Ha).
  - symmetry. apply firstSome_None. apply firstSome_None in H1.
    apply Forall_map. eapply Forall_impl; [exact H1 |]. intros c'.
    apply locate_restoreOriginalText_None.
Qed.

Lemma locate_restoreOriginalText (r : nat) :
  forall n a m,
    locate r n = Some (a, m) ->
    Forall unwrapped a ->
    locate r (restoreOriginalText n)
    = Some (map restoreOriginalText a, restoreOriginalText m).
Proof.
  induction n as [data | r' e cs IH] using node_ind'; intros a m E Ha; [discriminate |].
  simpl in E. destruct (decide (r' = r)) as [-> | Hne].
  - injection E as <- <-. simpl.
    destruct (firstSome originalTextOf cs); simpl; now rewrite decide_True.
  - destruct (firstSome (locate r) cs) as [[a' m']|] eqn:Ecs; [| discriminate].
    injection E as <- <-. apply Forall_app in Ha as [Ha Hn].
    apply Forall_cons in Hn as [Hn _]. unfold unwrapped in Hn. simpl in Hn.
    simpl. rewrite Hn. simpl. rewrite decide_False by exact Hne.
    rewrite (firstSome_locate_restore r cs a' m' IH Ecs Ha).
    rewrite map_app. simpl. now rewrite Hn.
Qed.

Lemma locateIn_restoreOriginalText (r : nat) (doc : document)
    (a : list node) (m : node) :
  locateIn r doc = Some (a, m) ->
  Forall unwrapped a ->
  locateIn r (map restoreOriginalText doc)
  = Some (map restoreOriginalText a, restoreOriginalText m).
Proof.
  intros E Ha. unfold locateIn.
  apply (firstSome_locate_restore r doc a m); try assumption.
  apply Forall_forall. intros c _. apply locate_restoreOriginalText.
Qed.

End Restoring.

(** ** Rephrasing and reversal *)

Section RoundTrip.

Variable innerText : node -> string.
Variable computedPosition : node -> string.

Lemma hasAnyClass_overlay (e : element) :
  hasAnyClass overlayClasses e = false ->
  hasClass "ai-guardian-warning" e = false
  /\ hasClass "ai-guardian-indicator" e = false.
Proof.
  unfold hasAnyClass, overlayClasses. simpl. rewrite orb_false_r.
  apply orb_false_iff.
Qed.

Lemma matches_overlay (A : node) :
  matches (hasAnyClass overlayClasses) A = false ->
  matches (hasClass "ai-guardian-warning") A = false
  /\ matches (hasClass "ai-guardian-indicator") A = false.
Proof. destruct A as [data | r e cs]; [now split | apply hasAnyClass_overlay]. Qed.

Lemma matches_removeAll (p q : element -> bool) (A : node) :
  matches p (removeAll q A) = matches p A.
Proof. now destruct A. Qed.

Lemma originalTextOf_removeAll (q : element -> bool) (c : node) :
  originalTextOf (removeAll q c) = originalTextOf c.
Proof. now destruct c. Qed.

Lemma unwrapped_removeAll (q : element -> bool) (A : node) :
  unwrapped A -> unwrapped (removeAll q A).
Proof.
  destruct A as [data | r e cs]; [trivial |]. unfold unwrapped. simpl.
  intros H. apply firstSome_None in H. apply firstSome_None.
  induction H as [|c cs Hc _ IH]; [constructor |].
  simpl. apply Forall_app. split; [| exact IH].
  destruct (matches q c); constructor; [| constructor].
  now rewrite originalTextOf_removeAll.
Qed.

Lemma removeAllModifications_restores (s : state) (el : nat) (a : list node)
    (e : element) (W : node) (T : string) :
  locateIn el (page s) = Some (a, Elem el e [W]) ->
  Forall overlayFree a ->
  hasAnyClass overlayClasses e = false ->
  matches (hasAnyClass overlayClasses) W = false ->
  originalTextOf W = Some T ->
  textOf el (removeAllModifications s) = Some T.
Proof.
  intros E Ha He HW HT.
  destruct (hasAnyClass_overlay e He) as [Hew Hei].
  destruct (matches_overlay W HW) as [HWw HWi].
  assert (Haw : Forall (fun A => matches (hasClass "ai-guardian-warning") A = false) a).
  { eapply Forall_impl; [exact Ha |]. intros A [HA _]. now apply matches_overlay in HA. }
  assert (Hai : Forall (fun A => matches (hasClass "ai-guardian-indicator") A = false) a).
  { eapply Forall_impl; [exact Ha |]. intros A [HA _]. now apply matches_overlay in HA. }
  assert (Hau : Forall unwrapped a).
  { eapply Forall_impl; [exact Ha |]. now intros A [_ HA]. }
  pose proof (locateIn_removeAllIn (hasClass "ai-guardian-warning") el (page s) a _
                E Haw Hew) as E1.
  simpl removeAll in E1. rewrite HWw in E1. simpl in E1.
  pose proof (locateIn_removeAllIn (hasClass "ai-guardian-indicator") el _ _ _ E1)
    as E2.
  simpl removeAll in E2. rewrite matches_removeAll, HWi in E2. simpl in E2.
  assert (E2' := E2 ltac:(apply Forall_map; eapply Forall_impl; [exact Hai |];
                          intros A HA; now rewrite matches_removeAll)
                    Hei).
  clear E2.
  pose proof (locateIn_restoreOriginalText el _ _ _ E2') as E3.
  simpl restoreOriginalText in E3.
  rewrite !originalTextOf_removeAll, HT in E3.
  assert (E3' := E3 ltac:(do 2 apply Forall_map; eapply Forall_impl; [exact Hau |];
                          intros A HA; now do 2 apply unwrapped_removeAll)).
  clear E3.
  unfold textOf, removeAllModifications. simpl page.
  rewrite locateIn_forEachElement, E3'. simpl.
  now rewrite append_empty_r.
Qed.

(** *** The wrapper *)

Lemma rephrasedWrapper_no_overlay (k : nat) (result : analysisResult)
    (rr : rephraseResult) (d : string) (l : list string) :
  matches (hasAnyClass overlayClasses)
    (rephrasedWrapper k result rr d
       (List.filter (fun cls => negb (ownClass cls)) l)) = false.
Proof.
  unfold rephrasedWrapper, matches, hasAnyClass, overlayClasses, hasClass. simpl.
  rewrite orb_false_r. apply orb_false_iff. split.
  - unfold contains. apply bool_decide_eq_false_2.
    intros H. apply list_elem_of_In in H. destruct H as [H | H]; [discriminate |].
    apply List.filter_In in H as [_ H]. discriminate.
  - unfold contains. apply bool_decide_eq_false_2.
    intros H. apply list_elem_of_In in H. destruct H as [H | H]; [discriminate |].
    apply List.filter_In in H as [_ H]. discriminate.
Qed.

Lemma rephrasedWrapper_records_text (k : nat) (result : analysisResult)
    (rr : rephraseResult) (d : string) (l : list string) :
  Background.text result <> "" ->
  originalTextOf (rephrasedWrapper k result rr d l) = Some (Background.text result).
Proof.
  intros HT. unfold rephrasedWrapper, originalTextOf.
  assert (H : hasClass "ai-guardian-rephrased"
                (span ("ai-guardian-rephrased" :: l)
                      [("data-original-text", Background.text result)]
                      (setDisplay d noStyle)) = true).
  { unfold hasClass, contains. apply bool_decide_eq_true_2. simpl. left. }
  rewrite H. simpl.
  destruct (Background.text result); [congruence | reflexivity].
Qed.

(** *** From the verdict to the reversal *)

Lemma rephrase_round_trip (s : state) (element : nat) (ancestors : list node)
    (n : node) (result : analysisResult) (rr : rephraseResult) :
  locateIn element (page s) = Some (ancestors, n) ->
  Forall overlayFree ancestors ->
  matches (hasAnyClass ["ai-guardian-warning"; "ai-guardian-indicator";
                        "ai-guardian-rephrased"]) n = false ->
  querySelector (hasClass "ai-guardian-rephrased") n = false ->
  autoRephrase (extensionSettings s) = true ->
  isHarmful result = true ->
  category result = "harmful" ->
  Background.text result <> "" ->
  let s1 := handleAnalysisResult computedPosition element result s in
  let s2 :=
    step innerText computedPosition
      (RephraseResponse (length (pending s)) (Reply rr)) s1 in
  let s3 := removeAllModifications s2 in
  sent s1 = sent s ++ [REPHRASE_TEXT (Background.text result) "harmful"]
  /\ textOf element s2 = Some (rephrased rr)
  /\ textOf element s3 = Some (Background.text result).
Proof.
  intros E Hanc Hcls Hq Hauto Hh Hcat HT s1 s2 s3.
  pose proof (locateIn_ref _ _ _ _ E) as Hr.
  destruct n as [data | r e cs]; [discriminate |]. injection Hr as ->.
  assert (Hre : category result <> "rephrased") by (rewrite Hcat; discriminate).
  (* the classes of the element *)
  unfold matches, hasAnyClass in Hcls. simpl in Hcls.
  apply orb_false_iff in Hcls as [Hw Hcls]. apply orb_false_iff in Hcls as [Hi Hcls].
  rewrite orb_false_r in Hcls.
  (* the badge, if warnings are shown *)
  destruct (optional_badge computedPosition (showWarnings (extensionSettings s))
              element result s ancestors _ E)
    as (a0 & n0 & E0 & Hb & Hpath & _ & Hsent0 & Hpend0 & Hset0 & _).
  set (s0 := if showWarnings (extensionSettings s) then _ else s) in *.
  specialize (Hpath (clearPath_intro _ _ _ _ E Hanc)).
  destruct (badged_keeps_guard _ _ _ _ _ Hre Hb) as [Hg1 Hg2].
  destruct (badged_shape _ _ _ _ _ Hb) as (e0 & cs0 & -> & Hcl0 & _ & _ & _ & _).
  (* the request *)
  assert (Hs1 : s1 = rephraseContent element result s0).
  { subst s1. unfold handleAnalysisResult. rewrite Hh, Hcat. simpl.
    fold s0. now rewrite Hset0, Hauto. }
  rewrite (rephraseContent_request element result s0 a0 element e0 cs0 E0) in Hs1.
  2:{ rewrite Hg1. exact Hcls. }
  2:{ rewrite Hg2. exact Hq. }
  set (d := display (inlineStyle e0)) in *.
  set (l := List.filter (fun cls => negb (ownClass cls))
              (add "ai-guardian-processing" (classList e0))) in *.
  set (addP := onElement (withClassList (add "ai-guardian-processing"))) in *.
  assert (Hpend1 : pending s1
                   = pending s ++ [AwaitRephrase element result d
                                     (toLowerCase (tagName e0)) l]).
  { rewrite Hs1. simpl. now rewrite Hpend0. }
  assert (E1 : locateIn element (page s1)
               = Some (map (update element addP) a0, addP (Elem element e0 cs0))).
  { rewrite Hs1. apply (relocate element addP s0); [| exact E0].
    now apply gentle_add. }
  assert (Hpath1 : clearPath element (map (update element addP) a0)).
  { apply clearPath_update; [now apply gentle_add | exact Hpath]. }
  (* the answer *)
  assert (Hs2 : s2 = rephraseCallback element result d (toLowerCase (tagName e0)) l
                       (Reply rr)
                       (setPending (delete (length (pending s)) (pending s1)) s1)).
  { subst s2. unfold step. rewrite Hpend1, list_lookup_middle by reflexivity.
    now rewrite <- Hpend1. }
  clearbody s1 s2 s0.
  unfold rephraseCallback in Hs2.
  set (sB := setNextRef _ (setPending _ s1)) in Hs2.
  set (W := rephrasedWrapper _ result rr d l) in Hs2.
  set (setW := onChildNodes (fun _ : list node => [W])) in Hs2.
  set (removeP := onElement (withClassList (remove "ai-guardian-processing"))) in Hs2.
  assert (EB : locateIn element (page (updateElement element setW sB))
               = Some (map (update element setW) (map (update element addP) a0),
                       setW (addP (Elem element e0 cs0)))).
  { apply (relocate element setW sB); [apply gentle_onChildNodes | exact E1]. }
  assert (E2 : locateIn element (page s2)
               = Some (map (update element removeP)
                         (map (update element setW) (map (update element addP) a0)),
                       removeP (setW (addP (Elem element e0 cs0))))).
  { rewrite Hs2. apply (relocate element removeP); [| exact EB].
    now apply gentle_remove. }
  assert (Hpath2 : clearPath element
                     (map (update element removeP)
                        (map (update element setW) (map (update element addP) a0)))).
  { apply clearPath_update; [now apply gentle_remove |].
    apply clearPath_update; [apply gentle_onChildNodes | exact Hpath1]. }
  simpl in E2.
  assert (H3 : textOf element s3 = Some (Background.text result)).
  { subst s3. eapply removeAllModifications_restores.
    - exact E2.
    - eapply Forall_impl; [exact Hpath2 |]. now intros A [_ HA].
    - unfold hasAnyClass, overlayClasses, hasClass. simpl.
      rewrite !contains_remove_ne, !contains_add_ne, Hcl0 by discriminate.
      unfold hasClass in Hw, Hi. now rewrite Hw, Hi.
    - apply rephrasedWrapper_no_overlay.
    - now apply rephrasedWrapper_records_text. }
  split; [| split].
  - rewrite Hs1. simpl. now rewrite Hsent0, Hcat.
  - unfold textOf. rewrite E2.
    cbn [textContent fold_right]. subst W.
    now rewrite textContent_rephrasedWrapper, append_empty_r.
  - exact H3.
Qed.

(** Without auto-rephrase the verdict handler asks for no rephrasing and
    marks the element as flagged. *)
Lemma handleAnalysisResult_flags (s : state) (element : nat) (ancestors : list node)
    (n : node) (result : analysisResult) :
  locateIn element (page s) = Some (ancestors, n) ->
  autoRephrase (extensionSettings s) = false ->
  isHarmful result = true ->
  category result <> "safe" ->
  let s1 := handleAnalysisResult computedPosition element result s in
  sent s1 = sent s /\ isFlagged element s1 = true.
Proof.
  intros E Hauto Hh Hsafe s1. subst s1. unfold handleAnalysisResult.
  rewrite Hh, bool_decide_eq_false_2 by exact Hsafe. cbn [negb orb].
  destruct (optional_badge computedPosition (showWarnings (extensionSettings s))
              element result s ancestors n E)
    as (a0 & n0 & E0 & _ & _ & _ & Hsent0 & _ & Hset0 & _).
  set (s0 := if showWarnings (extensionSettings s) then _ else s) in *.
  rewrite Hset0, Hauto. split.
  - cbn. exact Hsent0.
  - now apply isFlagged_flag with a0 n0.
Qed.

End RoundTrip.




(** C4, amended.  With the remote service unavailable, and the utilities
    loaded with the background script, the local heuristic classifies
    "this will kill you" as safe with confidence 0.6, and the verdict
    handler leaves the state as it is.  A text in which the heuristic finds
    a harmful pattern is classified harmful with confidence 0.7 and its
    local rephrasing is the fixed safety notice whatever the text.  For an
    element of the page that carries nothing of the overlay, the verdict
    handler then sends the rephrase request when auto-rephrase is on, and
    the answer of the fallback makes the notice the text of the element;
    when auto-rephrase is off it sends nothing and flags the element. *)
Theorem local_fallback_verdict_and_rendering :
  forall (innerText computedPosition : node -> string)
         (netA : network analysisResult) (netR : network rephraseResult)
         (st : stats),
    unavailable netA ->
    unavailable netR ->
    let safe :=
      {| text := "this will kill you"; isHarmful := false; category := "safe";
         confidence := 6 # 10;
         explanation := "This content appears to be safe (analyzed locally)" |} in
    (onAnalyzeText Loaded netA "this will kill you" st).1 = Reply safe
    /\ (forall (element : nat) (s : state),
          handleAnalysisResult computedPosition element safe s = s)
    /\ (forall text : string,
          AIGuardianUtils.firstCategory AIGuardianUtils.patterns (toLowerCase text)
          = Some "harmful" ->
          let verdict :=
            {| text := text; isHarmful := true; category := "harmful";
               confidence := 7 # 10;
               explanation :=
                 "This content may contain harmful material (detected locally)" |} in
          let rephrasing := (onRephraseText Loaded netR text "harmful" st).1 in
          (onAnalyzeText Loaded netA text st).1 = Reply verdict
          /\ rephrasing
             = Reply {| original := text; rephrased := AIGuardianUtils.safetyNotice |}
          /\ (forall (s : state) (element : nat) (ancestors : list node) (n : node),
                locateIn element (page s) = Some (ancestors, n) ->
                Forall overlayFree ancestors ->
                matches (hasAnyClass ["ai-guardian-warning"; "ai-guardian-indicator";
                                      "ai-guardian-rephrased"]) n = false ->
                querySelector (hasClass "ai-guardian-rephrased") n = false ->
                text <> "" ->
                let s1 := handleAnalysisResult computedPosition element verdict s in
                (autoRephrase (extensionSettings s) = true ->
                 sent s1 = sent s ++ [REPHRASE_TEXT text "harmful"]
                 /\ textOf element
                      (step innerText computedPosition
                         (RephraseResponse (length (pending s)) rephrasing) s1)
                    = Some AIGuardianUtils.safetyNotice)
                /\ (autoRephrase (extensionSettings s) = false ->
                    sent s1 = sent s /\ isFlagged element s1 = true))).
Proof.
  intros innerText computedPosition netA netR st HA HR safe. split; [| split].
  - unfold onAnalyzeText. now rewrite analyzeTextContent_unavailable.
  - intros element s. apply handleAnalysisResult_safe. right. reflexivity.
  - intros text Hcat verdict rephrasing.
    assert (Hr : rephrasing
                 = Reply {| original := text;
                            rephrased := AIGuardianUtils.safetyNotice |}).
    { subst rephrasing. unfold onRephraseText.
      now rewrite rephraseTextContent_unavailable. }
    split; [| split].
    + unfold onAnalyzeText. rewrite analyzeTextContent_unavailable by exact HA.
      unfold localAnalysis, callCalculateLocalToxicityScore,
        AIGuardianUtils.calculateLocalToxicityScore.
      now rewrite Hcat.
    + exact Hr.
    + intros s element ancestors n E Hanc Hcls Hq HT s1. split.
      * intros Hauto. rewrite Hr.
        destruct (rephrase_round_trip innerText computedPosition s element
                    ancestors n verdict
                    {| original := text; rephrased := AIGuardianUtils.safetyNotice |}
                    E Hanc Hcls Hq Hauto eq_refl eq_refl HT) as (H1 & H2 & _).
        split; [exact H1 | exact H2].
      * intros Hauto.
        apply (handleAnalysisResult_flags computedPosition s element ancestors n
                 verdict E Hauto eq_refl).
        discriminate.
Qed.

Lemma local_fallback_verdict_and_rendering_witness :
  let verdict :=
    {| text := "this will kill people"; isHarmful := true; category := "harmful";
       confidence := 7 # 10;
       explanation :=
         "This content may contain harmful material (detected locally)" |} in
  let s1 := handleAnalysisResult Sample.static 6 verdict Sample.sampleState in
  (onAnalyzeText Loaded TransportFailure "this will kill people" DEFAULT_STATS).1
  = Reply verdict
  /\ sent s1 = [REPHRASE_TEXT "this will kill people" "harmful"]
  /\ textOf 6
       (step Sample.rendered Sample.static
          (RephraseResponse 0
             (onRephraseText Loaded (Response 503 None) "this will kill people"
                "harmful" DEFAULT_STATS).1) s1)
     = Some "[This content has been modified for safety reasons]".
Proof.
  intros verdict s1.
  assert (HR : unavailable (Response 503 (@None rephraseResult))) by (simpl; lia).
  destruct (local_fallback_verdict_and_rendering Sample.rendered Sample.static
              TransportFailure (Response 503 None) DEFAULT_STATS I HR)
    as (_ & _ & H).
  destruct (H "this will kill people" eq_refl) as (H1 & _ & H3).
  assert (E : exists a n,
             locateIn 6 (page Sample.sampleState) = Some (a, n)
             /\ Forall overlayFree a
             /\ matches (hasAnyClass ["ai-guardian-warning"; "ai-guardian-indicator";
                                      "ai-guardian-rephrased"]) n = false
             /\ querySelector (hasClass "ai-guardian-rephrased") n = false).
  { eexists _, _. split; [vm_compute; reflexivity |].
    split; [| split; reflexivity].
    repeat constructor. }
  destruct E as (a & n & E & Ha & Hc & Hq).
  destruct (H3 Sample.sampleState 6 a n E Ha Hc Hq ltac:(discriminate)) as [H4 _].
  destruct (H4 eq_refl) as [H5 H6].
  split; [exact H1 | split; [exact H5 | exact H6]].
Defined.

(** * Further properties of the content script

    What follows is not about one verdict or one element but about whole
    functions of the script: the reversal as a pass over any page, what
    the event loop can ever send or arm, and how the handlers compose. *)

(** ** The reversal as a pass over the page *)

Section ReversalPasses.

Lemma Forall_elements (P : node -> Prop) (r : nat) (e : element) (cs : list node) :
  Forall P (elements (Elem r e cs))
  <-> P (Elem r e cs) /\ Forall (fun c => Forall P (elements c)) cs.
Proof.
  simpl. rewrite Forall_cons, Forall_flat_map. reflexivity.
Qed.

Lemma anyElement_elements (p : element -> bool) :
  forall n, anyElement p n = false ->
            Forall (fun m => matches p m = false) (elements n).
Proof.
  induction n as [data | r e cs IH] using node_ind'; intros H; [constructor |].
  simpl in H. apply orb_false_iff in H as [He Hcs].
  apply Forall_elements. split; [exact He |].
  rewrite Forall_forall in IH |- *. intros c Hc. apply IH; [exact Hc |].
  apply not_true_is_false. intros Hcontra.
  assert (existsb (anyElement p) cs = true)
    by (apply existsb_exists; exists c; split;
        [now apply list_elem_of_In | exact Hcontra]).
  congruence.
Qed.

Lemma elements_anyElement (p : element -> bool) :
  forall n, Forall (fun m => matches p m = false) (elements n) ->
            anyElement p n = false.
Proof.
  induction n as [data | r e cs IH] using node_ind'; intros H; [reflexivity |].
  apply Forall_elements in H as [He Hcs]. simpl in He |- *. rewrite He. simpl.
  apply not_true_is_false. intros Hcontra.
  apply existsb_exists in Hcontra as (c & Hc & Hcontra).
  apply list_elem_of_In in Hc.
  rewrite Forall_forall in IH, Hcs.
  rewrite (IH c Hc (Hcs c Hc)) in Hcontra. discriminate.
Qed.

Lemma removeAll_none (p : element -> bool) :
  forall n, anyElement p n = false -> removeAll p n = n.
Proof.
  induction n as [data | r e cs IH] using node_ind'; intros H; [reflexivity |].
  simpl in H. apply orb_false_iff in H as [_ Hcs]. simpl. f_equal.
  induction cs as [|c cs IHcs]; [reflexivity |].
  simpl in Hcs. apply orb_false_iff in Hcs as [Hc Hcs].
  apply Forall_cons in IH as [IHc IH].
  simpl. rewrite (IHcs IH Hcs), (IHc Hc).
  destruct c as [data | r' e' cs']; [reflexivity |].
  simpl in Hc |- *. apply orb_false_iff in Hc as [-> _]. reflexivity.
Qed.

Lemma anyElement_matches (p : element -> bool) (n : node) :
  anyElement p n = false -> matches p n = false.
Proof.
  destruct n as [data | r e cs]; [reflexivity |]. simpl.
  intros H. now apply orb_false_iff in H as [H _].
Qed.

Lemma removeAllIn_none (p : element -> bool) (doc : document) :
  Forall (fun c => anyElement p c = false) doc -> removeAllIn p doc = doc.
Proof.
  unfold removeAllIn. induction 1 as [|c doc Hc _ IH]; [reflexivity |].
  simpl. rewrite IH, (anyElement_matches p c Hc), (removeAll_none p c Hc). reflexivity.
Qed.

Lemma removeAllIn_clears (p : element -> bool) (doc : document) :
  Forall (fun c => anyElement p c = false) (removeAllIn p doc).
Proof.
  unfold removeAllIn. induction doc as [|c doc IH]; [constructor |].
  simpl. apply Forall_app. split; [| exact IH].
  destruct (matches p c) eqn:E; constructor; [| constructor].
  now apply anyElement_removeAll_same.
Qed.

Lemma removeAllIn_keeps (p q : element -> bool) (doc : document) :
  Forall (fun c => anyElement p c = false) doc ->
  Forall (fun c => anyElement p c = false) (removeAllIn q doc).
Proof.
  unfold removeAllIn. induction 1 as [|c doc Hc _ IH]; [constructor |].
  simpl. apply Forall_app. split; [| exact IH].
  destruct (matches q c); constructor; [| constructor].
  now apply anyElement_removeAll.
Qed.

(** *** The pass that restores the texts *)

Lemma originalTextOf_restoreOriginalText (c : node) :
  originalTextOf (restoreOriginalText c) = originalTextOf c.
Proof.
  destruct c as [data | r e cs]; [reflexivity |]. simpl.
  now destruct (firstSome originalTextOf cs).
Qed.

Lemma firstSome_originalTextOf_map (g : node -> node) (cs : list node) :
  (forall c, originalTextOf (g c) = originalTextOf c) ->
  firstSome originalTextOf (map g cs) = firstSome originalTextOf cs.
Proof.
  intros Hg. induction cs as [|c cs IH]; [reflexivity |].
  simpl. rewrite Hg, IH. reflexivity.
Qed.

Lemma restoreOriginalText_unwraps :
  forall n, Forall unwrapped (elements (restoreOriginalText n)).
Proof.
  induction n as [data | r e cs IH] using node_ind'; [constructor |].
  simpl restoreOriginalText.
  destruct (firstSome originalTextOf cs) as [t|] eqn:E.
  - apply Forall_elements. split; [reflexivity |]. repeat constructor.
  - apply Forall_elements. split.
    + unfold unwrapped. simpl.
      rewrite firstSome_originalTextOf_map; [exact E |].
      apply originalTextOf_restoreOriginalText.
    + apply Forall_map. exact IH.
Qed.

Lemma restoreOriginalText_unwrapped :
  forall n, Forall unwrapped (elements n) -> restoreOriginalText n = n.
Proof.
  induction n as [data | r e cs IH] using node_ind'; intros H; [reflexivity |].
  apply Forall_elements in H as [Hn Hcs]. unfold unwrapped in Hn. simpl in Hn.
  simpl. rewrite Hn. f_equal.
  induction cs as [|c cs IHcs]; [reflexivity |].
  apply Forall_cons in IH as [IHc IH]. apply Forall_cons in Hcs as [Hc Hcs].
  simpl in Hn. destruct (originalTextOf c); [discriminate |].
  simpl. now rewrite (IHc Hc), (IHcs IH Hn Hcs).
Qed.

(** *** The pass that clears the markers *)

Lemma originalTextOf_clearProcessed (c : node) :
  originalTextOf (forEachElement clearProcessed c) = originalTextOf c.
Proof.
  destruct c as [data | r e cs]; [reflexivity |]. simpl.
  unfold clearProcessed. destruct (hasAttribute processedMarker (attributes e)); [| reflexivity].
  unfold hasClass. simpl. rewrite contains_remove_ne by discriminate.
  destruct (contains "ai-guardian-rephrased" (classList e)); [| reflexivity].
  induction (attributes e) as [|[k v] attrs IH]; [reflexivity |].
  simpl. unfold processedMarker.
  destruct (decide (k = "data-ai-guardian-processed")) as [-> | Hne]; simpl.
  - exact IH.
  - destruct (decide (k = "data-original-text")); [reflexivity | exact IH].
Qed.

Lemma clearProcessed_keeps_unwrapped :
  forall n, Forall unwrapped (elements n) ->
            Forall unwrapped (elements (forEachElement clearProcessed n)).
Proof.
  induction n as [data | r e cs IH] using node_ind'; intros H; [constructor |].
  apply Forall_elements in H as [Hn Hcs]. simpl forEachElement.
  apply Forall_elements. split.
  - unfold unwrapped in *. simpl in *.
    rewrite firstSome_originalTextOf_map; [exact Hn |].
    apply originalTextOf_clearProcessed.
  - apply Forall_map. rewrite Forall_forall in IH, Hcs |- *.
    intros c Hc. apply IH; [exact Hc |]. now apply Hcs.
Qed.

Lemma clearProcessed_unmarks :
  forall n, Forall (fun m => marked m = false)
              (elements (forEachElement clearProcessed n)).
Proof.
  induction n as [data | r e cs IH] using node_ind'; [constructor |].
  simpl forEachElement. apply Forall_elements. split.
  - apply (marked_clearProcessed (Elem r e cs)).
  - apply Forall_map. exact IH.
Qed.

Lemma clearProcessed_unmarked :
  forall n, Forall (fun m => marked m = false) (elements n) ->
            forEachElement clearProcessed n = n.
Proof.
  induction n as [data | r e cs IH] using node_ind'; intros H; [reflexivity |].
  apply Forall_elements in H as [Hn Hcs]. unfold marked in Hn. simpl in Hn.
  simpl. unfold clearProcessed at 1. rewrite Hn. f_equal.
  induction cs as [|c cs IHcs]; [reflexivity |].
  apply Forall_cons in IH as [IHc IH]. apply Forall_cons in Hcs as [Hc Hcs].
  simpl. now rewrite (IHc Hc), (IHcs IH Hcs).
Qed.

(** *** The page after the four passes *)

Lemma Forall_elementsOf (P : node -> Prop) (doc : document) :
  Forall P (elementsOf doc) <-> Forall (fun c => Forall P (elements c)) doc.
Proof. apply Forall_flat_map. Qed.

Lemma overlay_class_kept (e : element) (c : string) :
  c <> "ai-guardian-flagged" ->
  hasClass c (clearProcessed e) = hasClass c e.
Proof.
  intros Hc. unfold clearProcessed.
  destruct (hasAttribute processedMarker (attributes e)); [| reflexivity].
  unfold hasClass. simpl. now apply contains_remove_ne.
Qed.

Lemma reversal_page (s : state) :
  page (removeAllModifications s)
  = map (forEachElement clearProcessed)
      (map restoreOriginalText
         (removeAllIn (hasClass "ai-guardian-indicator")
            (removeAllIn (hasClass "ai-guardian-warning") (page s)))).
Proof. reflexivity. Qed.

Lemma reversal_no_class (s : state) (c : string) :
  c = "ai-guardian-warning" \/ c = "ai-guardian-indicator" ->
  Forall (fun n => anyElement (hasClass c) n = false) (page (removeAllModifications s)).
Proof.
  intros Hc. rewrite reversal_page.
  apply Forall_map. apply Forall_map.
  assert (H : Forall (fun n => anyElement (hasClass c) n = false)
                (removeAllIn (hasClass "ai-guardian-indicator")
                   (removeAllIn (hasClass "ai-guardian-warning") (page s)))).
  { destruct Hc as [-> | ->].
    - apply removeAllIn_keeps, removeAllIn_clears.
    - apply removeAllIn_clears. }
  eapply Forall_impl; [exact H |]. intros n Hn.
  apply anyElement_forEachElement.
  - intros e. apply overlay_class_kept. destruct Hc as [-> | ->]; discriminate.
  - now apply anyElement_restoreOriginalText.
Qed.

Lemma reversal_untouched (s : state) :
  Forall untouched (elementsOf (page (removeAllModifications s))).
Proof.
  pose proof (reversal_no_class s "ai-guardian-warning" (or_introl eq_refl)) as Hw.
  pose proof (reversal_no_class s "ai-guardian-indicator" (or_intror eq_refl)) as Hi.
  apply Forall_elementsOf. rewrite reversal_page in *.
  rewrite Forall_forall in Hw, Hi |- *. intros c Hc.
  specialize (Hw c Hc). specialize (Hi c Hc).
  apply anyElement_elements in Hw, Hi.
  apply list_elem_of_In, in_map_iff in Hc as (c1 & <- & Hc1).
  apply in_map_iff in Hc1 as (c2 & <- & _).
  pose proof (clearProcessed_unmarks (restoreOriginalText c2)) as Hm.
  pose proof (clearProcessed_keeps_unwrapped _ (restoreOriginalText_unwraps c2)) as Hu.
  rewrite Forall_forall in Hw, Hi, Hm, Hu |- *. intros n Hn.
  specialize (Hw n Hn). specialize (Hi n Hn).
  repeat split; [| now apply Hu | now apply Hm].
  destruct n as [data | r e cs]; [reflexivity |].
  unfold hasAnyClass, overlayClasses. simpl in *. now rewrite Hw, Hi.
Qed.

Lemma untouched_page_no_class (doc : document) (c : string) :
  c = "ai-guardian-warning" \/ c = "ai-guardian-indicator" ->
  Forall untouched (elementsOf doc) ->
  Forall (fun n => anyElement (hasClass c) n = false) doc.
Proof.
  intros Hc H. apply Forall_elementsOf in H.
  eapply Forall_impl; [exact H |]. intros n Hn.
  apply elements_anyElement. eapply Forall_impl; [exact Hn |].
  intros m [[Hm _] _]. apply matches_overlay in Hm as [Hw Hi].
  now destruct Hc as [-> | ->].
Qed.

(** What leaves an untouched page: nothing. *)
Lemma removedBy_none (p : element -> bool) (doc : document) :
  Forall (fun c => anyElement p c = false) doc -> removedBy p doc = [].
Proof.
  intros H. unfold removedBy.
  replace (List.filter (matches p) (flat_map elements doc)) with (@nil node);
    [reflexivity |].
  symmetry. induction H as [|c doc Hc _ IH]; [reflexivity |].
  cbn [flat_map]. rewrite List.filter_app, IH, app_nil_r.
  pose proof (anyElement_elements p c Hc) as Hm.
  induction Hm as [|m ms Hm _ IHm]; [reflexivity |].
  cbn [List.filter]. now rewrite Hm.
Qed.

Lemma replacedChildren_unwrapped :
  forall n, Forall unwrapped (elements n) -> replacedChildren n = [].
Proof.
  induction n as [data | r e cs IH] using node_ind'; intros H; [reflexivity |].
  apply Forall_elements in H as [Hn Hcs]. unfold unwrapped in Hn. simpl in Hn.
  cbn [replacedChildren]. rewrite Hn. cbn [app].
  induction cs as [|c cs IHcs]; [reflexivity |].
  apply Forall_cons in IH as [IHc IH]. apply Forall_cons in Hcs as [Hc Hcs].
  cbn [flat_map]. rewrite (IHc Hc). cbn [app]. apply IHcs; [exact IH | | exact Hcs].
  simpl in Hn. now destruct (originalTextOf c).
Qed.

Lemma reversal_of_untouched (s : state) :
  Forall untouched (elementsOf (page s)) -> removeAllModifications s = s.
Proof.
  intros H.
  assert (Hd : detached (removeAllModifications s) = detached s).
  { cbn [detached removeAllModifications setDetached setPage].
    rewrite (removedBy_none (hasClass "ai-guardian-warning"))
      by now apply untouched_page_no_class; [left |].
    rewrite (removeAllIn_none (hasClass "ai-guardian-warning"))
      by now apply untouched_page_no_class; [left |].
    rewrite (removedBy_none (hasClass "ai-guardian-indicator"))
      by now apply untouched_page_no_class; [right |].
    rewrite (removeAllIn_none (hasClass "ai-guardian-indicator"))
      by now apply untouched_page_no_class; [right |].
    cbn [app]. rewrite <- (app_nil_r (detached s)) at 2. f_equal.
    apply Forall_elementsOf in H.
    induction H as [|c doc Hc _ IH]; [reflexivity |].
    cbn [flat_map]. rewrite IH, app_nil_r.
    apply replacedChildren_unwrapped. eapply Forall_impl; [exact Hc |].
    now intros m [[_ Hm] _]. }
  assert (Hp : page (removeAllModifications s) = page s).
  { rewrite reversal_page.
    rewrite (removeAllIn_none (hasClass "ai-guardian-warning"))
      by now apply untouched_page_no_class; [left |].
    rewrite (removeAllIn_none (hasClass "ai-guardian-indicator"))
      by now apply untouched_page_no_class; [right |].
    apply Forall_elementsOf in H.
    rewrite <- (map_id (page s)) at 2. rewrite map_map.
    apply map_ext_Forall. eapply Forall_impl; [exact H |]. intros n Hn.
    rewrite restoreOriginalText_unwrapped.
    - apply clearProcessed_unmarked. eapply Forall_impl; [exact Hn |].
      now intros m [_ Hm].
    - eapply Forall_impl; [exact Hn |]. now intros m [[_ Hm] _]. }
  unfold removeAllModifications in *.
  cbn [page detached setDetached setPage] in Hp, Hd. rewrite Hp, Hd.
  now destruct s.
Qed.

(** *** Where the elements of the page after a pass come from *)

Lemma imagesOf_weaken (g : node -> node) (after before more : list node) :
  before ⊆ more -> imagesOf g after before -> imagesOf g after more.
Proof.
  intros Hsub H. eapply Forall_impl; [exact H |].
  intros n' (n & Hn & ->). exists n. split; [now apply Hsub | reflexivity].
Qed.

Lemma imagesOf_compose (g2 g1 : node -> node) (l2 l1 l0 : list node) :
  imagesOf g2 l2 l1 -> imagesOf g1 l1 l0 -> imagesOf (fun n => g2 (g1 n)) l2 l0.
Proof.
  intros H2 H1. eapply Forall_impl; [exact H2 |].
  intros n2 (n1 & Hn1 & ->). unfold imagesOf in H1. rewrite Forall_forall in H1.
  destruct (H1 n1 Hn1) as (n0 & Hn0 & ->). now exists n0.
Qed.

Lemma elements_child (r : nat) (e : element) (c : node) (cs : list node) :
  c ∈ cs -> elements c ⊆ elements (Elem r e cs).
Proof.
  intros Hc m Hm. simpl. apply elem_of_cons. right.
  apply list_elem_of_In, in_flat_map. exists c.
  split; now apply list_elem_of_In.
Qed.

Lemma imagesOf_removeAll (p : element -> bool) :
  forall n, imagesOf (removeAll p) (elements (removeAll p n)) (elements n).
Proof.
  induction n as [data | r e cs IH] using node_ind'; [constructor |].
  unfold imagesOf. simpl removeAll. apply Forall_elements. split.
  - exists (Elem r e cs). split; [simpl; apply elem_of_cons; now left | reflexivity].
  - apply Forall_flat_map. rewrite Forall_forall in IH |- *. intros c Hc.
    destruct (matches p c); constructor; [| constructor].
    apply imagesOf_weaken with (elements c); [now apply elements_child |].
    now apply IH.
Qed.

Lemma imagesOf_restoreOriginalText :
  forall n, imagesOf restoreOriginalText (elements (restoreOriginalText n)) (elements n).
Proof.
  induction n as [data | r e cs IH] using node_ind'; [constructor |].
  unfold imagesOf.
  assert (Hroot : exists n, n ∈ elements (Elem r e cs)
                            /\ restoreOriginalText (Elem r e cs) = restoreOriginalText n).
  { exists (Elem r e cs). split; [simpl; apply elem_of_cons; now left | reflexivity]. }
  simpl restoreOriginalText in *.
  destruct (firstSome originalTextOf cs) as [t|].
  - apply Forall_elements. split; [exact Hroot | repeat constructor].
  - apply Forall_elements. split; [exact Hroot |].
    apply Forall_map. rewrite Forall_forall in IH |- *. intros c Hc.
    apply imagesOf_weaken with (elements c); [now apply elements_child |].
    now apply IH.
Qed.

Lemma imagesOf_forEachElement (g : element -> element) :
  forall n, imagesOf (forEachElement g) (elements (forEachElement g n)) (elements n).
Proof.
  induction n as [data | r e cs IH] using node_ind'; [constructor |].
  unfold imagesOf. simpl forEachElement. apply Forall_elements. split.
  - exists (Elem r e cs). split; [simpl; apply elem_of_cons; now left | reflexivity].
  - apply Forall_map. rewrite Forall_forall in IH |- *. intros c Hc.
    apply imagesOf_weaken with (elements c); [now apply elements_child |].
    now apply IH.
Qed.

Lemma elementsOf_member (c : node) (doc : document) :
  c ∈ doc -> elements c ⊆ elementsOf doc.
Proof.
  intros Hc m Hm. apply list_elem_of_In, in_flat_map. exists c.
  split; now apply list_elem_of_In.
Qed.

Lemma imagesOf_map (g : node -> node) (doc : document) :
  (forall n, imagesOf g (elements (g n)) (elements n)) ->
  imagesOf g (elementsOf (map g doc)) (elementsOf doc).
Proof.
  intros Hg. unfold imagesOf. apply Forall_elementsOf, Forall_map.
  apply Forall_forall. intros c Hc.
  apply imagesOf_weaken with (elements c); [now apply elementsOf_member | apply Hg].
Qed.

Lemma imagesOf_removeAllIn (p : element -> bool) (doc : document) :
  imagesOf (removeAll p) (elementsOf (removeAllIn p doc)) (elementsOf doc).
Proof.
  unfold imagesOf. apply Forall_elementsOf. unfold removeAllIn.
  apply Forall_flat_map. apply Forall_forall. intros c Hc.
  destruct (matches p c); constructor; [| constructor].
  apply imagesOf_weaken with (elements c); [now apply elementsOf_member |].
  apply imagesOf_removeAll.
Qed.

Lemma imagesOf_reversal (s : state) :
  imagesOf reversed (elementsOf (page (removeAllModifications s))) (elementsOf (page s)).
Proof.
  rewrite reversal_page. unfold reversed.
  eapply (imagesOf_compose (forEachElement clearProcessed));
    [apply imagesOf_map, imagesOf_forEachElement |].
  eapply (imagesOf_compose restoreOriginalText);
    [apply imagesOf_map, imagesOf_restoreOriginalText |].
  eapply (imagesOf_compose (removeAll (hasClass "ai-guardian-indicator")));
    apply imagesOf_removeAllIn.
Qed.

Lemma reversed_element (n : node) :
  refOf (reversed n) = refOf n
  /\ elementOf (reversed n) = clearProcessed <$> elementOf n.
Proof.
  destruct n as [data | r e cs]; [now split |].
  unfold reversed. simpl.
  destruct (firstSome originalTextOf _); now split.
Qed.

Lemma clearProcessed_keeps (e : element) :
  tagName (clearProcessed e) = tagName e
  /\ inlineStyle (clearProcessed e) = inlineStyle e
  /\ (hasAttribute processedMarker (attributes e) = false -> clearProcessed e = e).
Proof.
  unfold clearProcessed.
  destruct (hasAttribute processedMarker (attributes e)); repeat split; discriminate.
Qed.

End ReversalPasses.


Lemma elements_are_elements (n m : node) :
  m ∈ elements n -> exists r e cs, m = Elem r e cs.
Proof.
  revert m. induction n as [data | r e cs IH] using node_ind'; intros m Hm.
  - inversion Hm.
  - simpl in Hm. apply elem_of_cons in Hm as [-> | Hm]; [now eexists _, _, _ |].
    apply list_elem_of_In, in_flat_map in Hm as (c & Hc & Hm).
    rewrite Forall_forall in IH.
    apply (IH c); now apply list_elem_of_In.
Qed.

(** X1. After [removeAllModifications] no element of the page is a warning
    badge or an edit indicator, none carries the processed marker, and none
    has a child wrapper with a recorded original text left; the reversal
    touches nothing but the page (no message, no timer, no change to the
    cache, the settings or the watcher). *)
Theorem reversal_leaves_no_overlay_anywhere (s : state) :
  let s' := removeAllModifications s in
  Forall (fun n => matches (hasClass "ai-guardian-warning") n = false
                   /\ matches (hasClass "ai-guardian-indicator") n = false
                   /\ marked n = false
                   /\ firstSome originalTextOf (children n) = None)
    (elementsOf (page s'))
  /\ sent s' = sent s /\ pending s' = pending s
  /\ analyzedTextCache s' = analyzedTextCache s
  /\ extensionSettings s' = extensionSettings s
  /\ observer s' = observer s /\ watchers s' = watchers s.
Proof.
  intros s'. split; [| repeat split].
  eapply Forall_impl; [apply (reversal_untouched s) |].
  intros n [[Hclass Hwrapped] Hmarked].
  apply matches_overlay in Hclass as [Hw Hi].
  repeat split; assumption.
Qed.

(** X2. On a page on which the overlay has left nothing (no badge, no
    indicator, no marker, no wrapper with a recorded text below an element)
    [removeAllModifications] changes nothing at all. *)
Theorem reversal_of_an_untouched_page_changes_nothing (s : state) :
  Forall untouched (elementsOf (page s)) ->
  removeAllModifications s = s.
Proof.
  intros H. apply reversal_of_untouched. exact H.
Qed.

Lemma reversal_of_an_untouched_page_changes_nothing_witness :
  removeAllModifications Sample.sampleState = Sample.sampleState.
Proof.
  apply reversal_of_an_untouched_page_changes_nothing.
  unfold elementsOf. simpl.
  repeat (constructor; [repeat split; reflexivity |]). constructor.
Defined.

(** X3. [removeAllModifications] is idempotent: a second reversal right
    after the first finds nothing to do, whatever the page was. *)
Theorem reversal_is_idempotent (s : state) :
  removeAllModifications (removeAllModifications s) = removeAllModifications s.
Proof.
  apply reversal_of_untouched. apply reversal_untouched.
Qed.

(** X4. The reversal creates no element and resets no inline style: every
    element of the page after [removeAllModifications] is an element of the
    page before it, with the same tag and the same inline style (so
    [position: relative], [opacity] and [transition] set during the
    analysis stay); its attributes and classes are the same too, unless it
    carried the processed marker, which is removed together with the
    flagged class. *)
Theorem reversal_keeps_the_surviving_elements (s : state) :
  Forall (fun n' =>
            exists n e,
              n ∈ elementsOf (page s) /\ elementOf n = Some e
              /\ refOf n' = refOf n
              /\ elementOf n' = Some (clearProcessed e)
              /\ tagName (clearProcessed e) = tagName e
              /\ inlineStyle (clearProcessed e) = inlineStyle e
              /\ (hasAttribute processedMarker (attributes e) = false ->
                  clearProcessed e = e))
    (elementsOf (page (removeAllModifications s))).
Proof.
  eapply Forall_impl; [apply (imagesOf_reversal s) |].
  intros n' (n & Hn & ->).
  assert (Helem : exists r e cs, n = Elem r e cs).
  { apply list_elem_of_In, in_flat_map in Hn as (c & _ & Hn).
    apply (elements_are_elements c). now apply list_elem_of_In. }
  destruct Helem as (r & e & cs & ->).
  destruct (reversed_element (Elem r e cs)) as [Href Hel].
  destruct (clearProcessed_keeps e) as (Htag & Hstyle & Hsame).
  exists (Elem r e cs), e. repeat split; assumption.
Qed.

(** ** Strings and [trim] *)

Section Strings.

Lemma append_String (x : ascii) (a b : string) :
  String x a +:+ b = String x (a +:+ b).
Proof. reflexivity. Qed.

Lemma append_assoc (a b c : string) : (a +:+ b) +:+ c = a +:+ (b +:+ c).
Proof.
  induction a as [|x a IH]; [reflexivity |]. rewrite !append_String. now rewrite IH.
Qed.

Lemma length_append (a b : string) :
  String.length (a +:+ b) = (String.length a + String.length b)%nat.
Proof.
  induction a as [|x a IH]; [reflexivity |]. rewrite append_String. cbn. now rewrite IH.
Qed.

Lemma rev_app_append (a b : string) : String.rev_app a b = String.rev a +:+ b.
Proof.
  unfold String.rev. revert b. induction a as [|x a IH]; intros b; [reflexivity |].
  cbn [String.rev_app]. rewrite IH, (IH (String x "")), append_assoc. reflexivity.
Qed.

Lemma rev_String (x : ascii) (a : string) :
  String.rev (String x a) = String.rev a +:+ String x "".
Proof. unfold String.rev at 1. cbn [String.rev_app]. apply rev_app_append. Qed.

Lemma rev_append (a b : string) :
  String.rev (a +:+ b) = String.rev b +:+ String.rev a.
Proof.
  induction a as [|x a IH].
  - rewrite append_empty_l. change (String.rev "") with "". now rewrite append_empty_r.
  - rewrite append_String, !rev_String, IH, append_assoc. reflexivity.
Qed.

Lemma rev_involutive (a : string) : String.rev (String.rev a) = a.
Proof.
  induction a as [|x a IH]; [reflexivity |].
  rewrite rev_String, rev_append, IH. reflexivity.
Qed.

Lemma length_rev (a : string) : String.length (String.rev a) = String.length a.
Proof.
  induction a as [|x a IH]; [reflexivity |].
  rewrite rev_String, length_append, IH. cbn. lia.
Qed.

(** *** [trimStart] *)

Lemma trimStart_blank (a s : string) :
  blank a = true -> trimStart (a +:+ s) = trimStart s.
Proof.
  induction a as [|x a IH]; [reflexivity |]. rewrite append_String. cbn.
  intros H. apply andb_true_iff in H as [-> H]. now apply IH.
Qed.

Lemma trimStart_append (a b : string) :
  trimStart (a +:+ b)
  = if truthy (trimStart a) then trimStart a +:+ b else trimStart b.
Proof.
  induction a as [|x a IH]; [reflexivity |]. rewrite append_String. cbn.
  destruct (isWhiteSpace x); [exact IH | reflexivity].
Qed.

Lemma trimStart_idempotent (s : string) : trimStart (trimStart s) = trimStart s.
Proof.
  induction s as [|x s IH]; [reflexivity |]. cbn.
  destruct (isWhiteSpace x) eqn:E; [exact IH |]. cbn. now rewrite E.
Qed.

Lemma length_trimStart (s : string) :
  (String.length (trimStart s) <= String.length s)%nat.
Proof.
  induction s as [|x s IH]; [reflexivity |]. cbn.
  destruct (isWhiteSpace x); cbn; lia.
Qed.

Lemma visible_trimStart (s : string) : visible (trimStart s) = visible s.
Proof.
  induction s as [|x s IH]; [reflexivity |]. cbn.
  destruct (isWhiteSpace x) eqn:E; [exact IH |]. cbn. now rewrite E.
Qed.

Lemma trimStart_empty (s : string) : trimStart s = "" <-> blank s = true.
Proof.
  induction s as [|x s IH]; [easy |]. cbn.
  destruct (isWhiteSpace x); [exact IH | easy].
Qed.

(** *** [trimEnd] *)

Lemma trimEnd_String (x : ascii) (s : string) :
  trimEnd (String x s)
  = if truthy (trimEnd s) then String x (trimEnd s)
    else if isWhiteSpace x then "" else String x "".
Proof.
  unfold trimEnd. rewrite rev_String, trimStart_append.
  destruct (trimStart (String.rev s)) as [|y t] eqn:E.
  - cbn. destruct (isWhiteSpace x); reflexivity.
  - cbn [truthy]. rewrite rev_append.
    destruct (String.rev (String y t)) as [|z u] eqn:E'.
    + apply (f_equal String.length) in E'. rewrite length_rev in E'. discriminate.
    + reflexivity.
Qed.

Lemma trimEnd_empty : trimEnd "" = "".
Proof. reflexivity. Qed.

Lemma trimEnd_idempotent (s : string) : trimEnd (trimEnd s) = trimEnd s.
Proof.
  unfold trimEnd. now rewrite rev_involutive, trimStart_idempotent.
Qed.

Lemma length_trimEnd (s : string) :
  (String.length (trimEnd s) <= String.length s)%nat.
Proof.
  unfold trimEnd. rewrite length_rev.
  etransitivity; [apply length_trimStart |]. now rewrite length_rev.
Qed.

Lemma trimEnd_keeps_head (x : ascii) (s : string) :
  isWhiteSpace x = false -> exists t, trimEnd (String x s) = String x t.
Proof.
  intros Hx. rewrite trimEnd_String, Hx.
  destruct (truthy (trimEnd s)); eauto.
Qed.

Lemma trimStart_trimEnd (s : string) :
  trimStart s = s -> trimStart (trimEnd s) = trimEnd s.
Proof.
  destruct s as [|x s]; [reflexivity |]. intros H.
  destruct (isWhiteSpace x) eqn:E.
  - cbn [trimStart] in H. rewrite E in H. apply (f_equal String.length) in H.
    pose proof (length_trimStart s). cbn [String.length] in H. lia.
  - destruct (trimEnd_keeps_head x s E) as [t ->]. cbn [trimStart]. now rewrite E.
Qed.

(** *** [trim] *)

Lemma trim_idempotent (s : string) : trim (trim s) = trim s.
Proof.
  unfold trim.
  rewrite (trimStart_trimEnd (trimStart s)) by apply trimStart_idempotent.
  apply trimEnd_idempotent.
Qed.

Lemma length_trim (s : string) : (String.length (trim s) <= String.length s)%nat.
Proof.
  unfold trim. etransitivity; [apply length_trimEnd | apply length_trimStart].
Qed.

End Strings.

(** ** What a scan of elements may do *)

Section Scans.

Variable innerText : node -> string.
Variable computedPosition : node -> string.

Lemma scans_refl (s : state) : scans s s.
Proof.
  split; try reflexivity.
  - exists []. now rewrite app_nil_r.
  - exists []. now rewrite app_nil_r.
Qed.

Lemma scans_trans (s1 s2 s3 : state) : scans s1 s2 -> scans s2 s3 -> scans s1 s3.
Proof.
  intros [(ts1 & Hp1 & Ht1) (ms1 & Hm1 & Hs1) Hx1 Ho1 Hw1 Hc1]
         [(ts2 & Hp2 & Ht2) (ms2 & Hm2 & Hs2) Hx2 Ho2 Hw2 Hc2].
  split; try congruence.
  - exists (ts1 ++ ts2). rewrite Hp2, Hp1, app_assoc.
    split; [reflexivity | now apply Forall_app].
  - exists (ms1 ++ ms2). rewrite Hm2, Hm1, app_assoc.
    split; [reflexivity |]. apply Forall_app. split; [exact Hs1 |].
    now rewrite <- Hx1.
Qed.

Lemma scans_page (s s' : state) :
  pending s' = pending s -> sent s' = sent s ->
  extensionSettings s' = extensionSettings s -> observer s' = observer s ->
  watchers s' = watchers s -> analyzedTextCache s' = analyzedTextCache s ->
  scans s s'.
Proof.
  intros Hp Hm Hx Ho Hw Hc. split; try assumption.
  - exists []. now rewrite app_nil_r.
  - exists []. now rewrite app_nil_r.
Qed.

Lemma scans_updateElement (el : nat) (f : node -> node) (s : state) :
  scans s (updateElement el f s).
Proof. now apply scans_page. Qed.

Lemma scans_addWarningIndicator (el : nat) (result : analysisResult) (s : state) :
  scans s (addWarningIndicator computedPosition el result s).
Proof.
  unfold addWarningIndicator.
  destruct (findElement el s) as [[a n]|]; [| apply scans_refl].
  destruct (querySelector _ n); [apply scans_refl |].
  destruct (bool_decide _); now apply scans_page.
Qed.

Lemma scans_rephraseContent (el : nat) (result : analysisResult) (s : state) :
  isHarmful result = true -> category result <> "safe" ->
  autoRephrase (extensionSettings s) = true ->
  scans s (rephraseContent el result s).
Proof.
  intros Hh Hc Ha. unfold rephraseContent.
  destruct (findElement el s) as [[a n]|]; [| apply scans_refl].
  destruct (_ || _); [apply scans_updateElement |].
  destruct n as [data | r e cs]; [apply scans_updateElement |].
  simpl. split; try reflexivity; simpl.
  - eexists. split; [reflexivity |]. now repeat constructor.
  - eexists. split; [reflexivity |]. now repeat constructor.
Qed.

Lemma scans_handleAnalysisResult (el : nat) (result : analysisResult) (s : state) :
  scans s (handleAnalysisResult computedPosition el result s).
Proof.
  unfold handleAnalysisResult.
  destruct (isHarmful result) eqn:Hh; [| apply scans_refl]. simpl.
  destruct (bool_decide (category result = "safe")) eqn:Hc; [apply scans_refl |].
  apply bool_decide_eq_false in Hc.
  set (s1 := if showWarnings (extensionSettings s) then _ else s).
  assert (H1 : scans s s1).
  { subst s1. destruct (showWarnings _);
      [apply scans_addWarningIndicator | apply scans_refl]. }
  apply scans_trans with s1; [exact H1 |].
  destruct (autoRephrase (extensionSettings s1)) eqn:Ha.
  - now apply scans_rephraseContent.
  - apply scans_updateElement.
Qed.

Lemma requestable_intro (t : string) :
  (String.length (trim t) <? 10)%nat = false ->
  skippedByQuickCheck (trim t) = false ->
  requestable (trim t).
Proof.
  intros Hlen Hq. apply Nat.ltb_ge in Hlen.
  repeat split; [apply trim_idempotent | exact Hlen | exact Hq].
Qed.

Lemma scans_analyzeElement (el : nat) (s : state) :
  scans s (analyzeElement innerText computedPosition el s).
Proof.
  unfold analyzeElement.
  destruct (findElement el s) as [[a n]|]; [| apply scans_refl].
  destruct (shouldIgnoreElement a n); [apply scans_refl |].
  destruct (matches _ n); [apply scans_refl |].
  destruct (negb (truthy (innerText n))); [apply scans_refl |].
  destruct (String.length (trim (innerText n)) <? 10)%nat eqn:Hlen;
    [apply scans_refl |].
  set (s1 := updateElement el markProcessed s).
  assert (H1 : scans s s1) by apply scans_updateElement.
  apply scans_trans with s1; [exact H1 |].
  destruct (nonMeaningful a n _); [apply scans_refl |].
  destruct (analyzedTextCache s1 !! trim (innerText n)) as [cached|];
    [apply scans_handleAnalysisResult |].
  destruct (skippedByQuickCheck (trim (innerText n))) eqn:Hq; [apply scans_refl |].
  set (s2 := if autoRephrase (extensionSettings s1) then _ else s1).
  assert (H2 : scans s1 s2).
  { subst s2. destruct (autoRephrase _); [apply scans_updateElement | apply scans_refl]. }
  apply scans_trans with s2; [exact H2 |].
  split; try reflexivity; simpl.
  - eexists. split; [reflexivity |]. constructor; [| constructor].
    split; [now apply requestable_intro | lia].
  - exists []. now rewrite app_nil_r.
Qed.

Lemma scans_analyzeBatch (batch : list nat) (s : state) :
  scans s (analyzeBatch innerText computedPosition batch s).
Proof.
  unfold analyzeBatch. revert s.
  induction batch as [|el batch IH]; intros s; [apply scans_refl |].
  simpl. eapply scans_trans; [apply scans_analyzeElement | apply IH].
Qed.

Lemma scans_setTimeout (t : task) (s : state) :
  scanTask t -> scans s (setTimeout t s).
Proof.
  intros Ht. split; try reflexivity; simpl.
  - eexists. split; [reflexivity |]. now repeat constructor.
  - exists []. now rewrite app_nil_r.
Qed.

Lemma scans_processBatches (batches : list (list nat)) (index delay : nat) (s : state) :
  scans s (processBatches innerText computedPosition batches index delay s).
Proof.
  unfold processBatches.
  destruct (batches !! index) as [batch|]; [| apply scans_refl].
  eapply scans_trans; [apply scans_analyzeBatch |].
  now apply scans_setTimeout.
Qed.

Lemma scans_analyzePageContent (s : state) :
  scans s (analyzePageContent innerText computedPosition s).
Proof.
  unfold analyzePageContent.
  match goal with
  | |- scans _ (match ?x with _ => _ end) => destruct x as [containers|]
  end; [| apply scans_refl].
  match goal with
  | |- scans _ (if ?c then _ else _) => destruct c
  end.
  - eapply scans_trans; [apply scans_processBatches | now apply scans_setTimeout].
  - apply scans_processBatches.
Qed.

Lemma scans_secondaryScan (s : state) :
  scans s (secondaryScan innerText computedPosition s).
Proof. unfold secondaryScan. apply scans_processBatches. Qed.

End Scans.

(** ** The texts that are sent for analysis *)

Section Requests.

Variable innerText : node -> string.
Variable computedPosition : node -> string.

Lemma scanTask_sound (t : task) : scanTask t -> soundTask t.
Proof. destruct t; simpl; tauto. Qed.

Lemma scanMessage_sound (x : settings) (m : message) : scanMessage x m -> soundMessage m.
Proof. destruct m; simpl; tauto. Qed.

Lemma soundQueues_scans (s s' : state) : scans s s' -> soundQueues s -> soundQueues s'.
Proof.
  intros [(ts & Hp & Hts) (ms & Hm & Hms) _ _ _ _] [Ht Hs].
  split.
  - rewrite Hp. apply Forall_app. split; [exact Ht |].
    eapply Forall_impl; [exact Hts |]. apply scanTask_sound.
  - rewrite Hm. apply Forall_app. split; [exact Hs |].
    eapply Forall_impl; [exact Hms |]. apply scanMessage_sound.
Qed.

Lemma soundQueues_same (s s' : state) :
  pending s' = pending s -> sent s' = sent s -> soundQueues s -> soundQueues s'.
Proof. intros Hp Hm [Ht Hs]. split; congruence. Qed.

Lemma soundQueues_delete (i : nat) (s : state) :
  soundQueues s -> soundQueues (setPending (delete i (pending s)) s).
Proof.
  intros [Ht Hs]. split; [| exact Hs]. simpl. now apply Forall_delete.
Qed.

Lemma soundQueues_setTimeout (t : task) (s : state) :
  soundTask t -> soundQueues s -> soundQueues (setTimeout t s).
Proof.
  intros H [Ht Hs]. split; [| exact Hs]. simpl.
  apply Forall_app. split; [exact Ht | now repeat constructor].
Qed.

(** The fold over the elements of a pass of [processMutations]. *)
Lemma scans_fold (l : list nat) (s : state) :
  scans s (fold_left (fun s el => analyzeElement innerText computedPosition el s) l s).
Proof. apply (scans_analyzeBatch innerText computedPosition l s). Qed.

Lemma soundQueues_processMutations (w : nat) (s : state) :
  soundQueues s -> soundQueues (processMutations innerText computedPosition w s).
Proof.
  intros H. unfold processMutations.
  destruct (watchers s !! w) as [x|]; [| exact H].
  match goal with
  | |- soundQueues (match watchers ?s1 !! w with _ => _ end) =>
      assert (H1 : soundQueues s1) by (eapply soundQueues_scans; [apply scans_fold | exact H]);
      destruct (watchers s1 !! w)
  end; [| exact H1].
  eapply soundQueues_same; [| | exact H1]; reflexivity.
Qed.

Lemma soundQueues_settingsCallback (response : option settings) (s : state) :
  soundQueues s -> soundQueues (settingsCallback innerText computedPosition response s).
Proof.
  intros H. unfold settingsCallback.
  destruct response as [x|]; [| exact H].
  destruct (enabled x).
  - eapply soundQueues_scans; [apply scans_analyzePageContent |].
    eapply soundQueues_same; [| | exact H]; reflexivity.
  - eapply soundQueues_same; [| | exact H]; reflexivity.
Qed.

Lemma pending_disconnect (w : nat) (s : state) : pending (disconnect w s) = pending s.
Proof. unfold disconnect. now destruct (watchers s !! w). Qed.

Lemma sent_disconnect (w : nat) (s : state) : sent (disconnect w s) = sent s.
Proof. unfold disconnect. now destruct (watchers s !! w). Qed.

Lemma soundQueues_onSettingsUpdated (x : settings) (s : state) :
  soundQueues s -> soundQueues (onSettingsUpdated innerText computedPosition x s).
Proof.
  intros H. unfold onSettingsUpdated.
  destruct (enabled x).
  - eapply soundQueues_scans; [apply scans_analyzePageContent |].
    simpl. destruct (observer s); (eapply soundQueues_same; [| | exact H]; reflexivity).
  - eapply soundQueues_same; [| | exact H]; simpl;
      unfold disconnectObserver; simpl; destruct (observer s); simpl;
      rewrite ?pending_disconnect, ?sent_disconnect; reflexivity.
Qed.

Lemma soundQueues_onPageChanged (s : state) :
  soundQueues s -> soundQueues (onPageChanged s).
Proof.
  intros H. unfold onPageChanged. simpl.
  destruct (enabled (extensionSettings s)).
  - apply soundQueues_setTimeout; [exact I |].
    eapply soundQueues_same; [| | exact H]; reflexivity.
  - eapply soundQueues_same; [| | exact H]; reflexivity.
Qed.

Lemma soundQueues_observerCallback (w : nat) (mutations : list mutationRecord)
    (s : state) :
  soundQueues s -> soundQueues (observerCallback w mutations s).
Proof.
  intros H. unfold observerCallback.
  destruct (watchers s !! w) as [x|]; [| exact H].
  destruct (processingTimeout x).
  - eapply soundQueues_same; [| | exact H]; reflexivity.
  - apply soundQueues_setTimeout; [exact I |].
    eapply soundQueues_same; [| | exact H]; reflexivity.
Qed.

Lemma soundQueues_analysisCallback (el : nat) (text : string)
    (result : reply analysisResult) (s : state) :
  soundQueues s -> soundQueues (analysisCallback computedPosition el text result s).
Proof.
  intros H. unfold analysisCallback.
  set (s1 := if autoRephrase (extensionSettings s) then _ else s).
  assert (H1 : soundQueues s1).
  { subst s1. destruct (autoRephrase _); [| exact H].
    eapply soundQueues_same; [| | exact H]; reflexivity. }
  destruct result as [result | |]; try exact H1.
  eapply soundQueues_scans; [apply scans_handleAnalysisResult |].
  eapply soundQueues_same; [| | exact H1]; reflexivity.
Qed.

Lemma soundQueues_step (ev : event) (s : state) :
  soundQueues s -> soundQueues (step innerText computedPosition ev s).
Proof.
  intros H. destruct ev as [i | i result | i rr | i response | x | | w mutations]; simpl.
  - destruct (pending s !! i) as [t|] eqn:Ei; [| exact H].
    pose proof (soundQueues_delete i s H) as H0.
    destruct t; try exact H.
    + destruct H as [Ht Hs].
      pose proof (proj1 (Forall_lookup _ _) Ht i _ Ei) as [Hreq _].
      destruct H0 as [Ht0 Hs0]. split; simpl.
      * apply Forall_app. split; [exact Ht0 |]. constructor; [exact Hreq | constructor].
      * apply Forall_app. split; [exact Hs |]. constructor; [exact Hreq | constructor].
    + now apply soundQueues_processMutations.
    + eapply soundQueues_scans; [apply scans_processBatches | exact H0].
    + eapply soundQueues_scans; [apply scans_secondaryScan | exact H0].
    + eapply soundQueues_scans; [apply scans_analyzePageContent | exact H0].
  - destruct (pending s !! i) as [t|] eqn:Ei; [| exact H].
    destruct t; try exact H.
    apply soundQueues_analysisCallback. now apply soundQueues_delete.
  - destruct (pending s !! i) as [t|] eqn:Ei; [| exact H].
    destruct t; try exact H.
    eapply soundQueues_same; [| | apply (soundQueues_delete i s H)];
      unfold rephraseCallback; destruct rr; reflexivity.
  - destruct (pending s !! i) as [t|] eqn:Ei; [| exact H].
    destruct t; try exact H.
    apply soundQueues_settingsCallback. now apply soundQueues_delete.
  - now apply soundQueues_onSettingsUpdated.
  - now apply soundQueues_onPageChanged.
  - destruct (watchers s !! w) as [x|]; [| exact H].
    destruct (connected x); [| exact H].
    now apply soundQueues_observerCallback.
Qed.

Lemma soundQueues_run (evs : list event) (s : state) :
  soundQueues s -> soundQueues (run innerText computedPosition evs s).
Proof.
  unfold run. revert s. induction evs as [|ev evs IH]; intros s H; [exact H |].
  simpl. apply IH. now apply soundQueues_step.
Qed.

Lemma soundQueues_initial (doc : document) (k : nat) :
  soundQueues (initializeExtension (initialState doc k)).
Proof. split; simpl; repeat constructor. Qed.

Lemma soundQueues_browse (hs : list happening) (s : state) :
  soundQueues s -> soundQueues (browse innerText computedPosition hs s).
Proof.
  unfold browse. revert s. induction hs as [|h hs IH]; intros s H; [exact H |].
  cbn [fold_left]. apply IH. destruct h as [ev | doc outside free].
  - now apply soundQueues_step.
  - exact H.
Qed.

End Requests.

(** ** What one step may send *)

Section Sending.

Variable innerText : node -> string.
Variable computedPosition : node -> string.

Lemma sendsOnly_nothing (ev : event) (s s' : state) :
  sent s' = sent s -> sendsOnly ev s s'.
Proof. intros H. exists []. rewrite app_nil_r. now split. Qed.

Lemma sendsOnly_scans (ev : event) (s s0 s1 s' : state) :
  sent s0 = sent s -> scans s0 s1 ->
  sent s' = sent s1 -> extensionSettings s' = extensionSettings s1 ->
  sendsOnly ev s s'.
Proof.
  intros H0 [_ (ms & Hm & Hms) Hx _ _ _] H1 Hx1.
  exists ms. split; [congruence |].
  eapply Forall_impl; [exact Hms |].
  intros m. destruct m; simpl; try tauto. now rewrite Hx1, Hx.
Qed.

Lemma step_sendsOnly (ev : event) (s : state) :
  sendsOnly ev s (step innerText computedPosition ev s).
Proof.
  destruct ev as [i | i result | i rr | i response | x | | w mutations]; simpl.
  - destruct (pending s !! i) as [t|] eqn:Ei; [| now apply sendsOnly_nothing].
    set (s0 := setPending (delete i (pending s)) s).
    destruct t as [el txt timeout | w | batches index delay | | | | |];
      try now apply sendsOnly_nothing.
    + exists [ANALYZE_TEXT txt]. split; [reflexivity |].
      constructor; [| constructor]. simpl.
      exists i, el, timeout. split; [reflexivity | exact Ei].
    + unfold processMutations.
      destruct (watchers s0 !! w) as [x|]; [| now apply sendsOnly_nothing].
      match goal with
      | |- sendsOnly _ _ (match watchers (fold_left _ ?l s0) !! w with _ => _ end) =>
          pose proof (scans_fold innerText computedPosition l s0) as H1
      end.
      match goal with
      | |- sendsOnly _ _ (match ?o with _ => _ end) => destruct o
      end; eapply sendsOnly_scans with (s0 := s0); try exact H1; reflexivity.
    + eapply sendsOnly_scans with (s0 := s0);
        [| apply scans_processBatches | |]; reflexivity.
    + eapply sendsOnly_scans with (s0 := s0);
        [| apply scans_secondaryScan | |]; reflexivity.
    + eapply sendsOnly_scans with (s0 := s0);
        [| apply scans_analyzePageContent | |]; reflexivity.
  - destruct (pending s !! i) as [t|] eqn:Ei; [| now apply sendsOnly_nothing].
    destruct t; try now apply sendsOnly_nothing.
    unfold analysisCallback.
    set (s0 := setPending (delete i (pending s)) s).
    set (s1 := if autoRephrase (extensionSettings s0) then _ else s0).
    assert (H1 : sent s1 = sent s) by (subst s1; now destruct (autoRephrase _)).
    destruct result as [result | |]; try now apply sendsOnly_nothing.
    eapply sendsOnly_scans with (s0 := setAnalyzedTextCache _ s1);
      [| apply scans_handleAnalysisResult | |];
      [exact H1 | reflexivity | reflexivity].
  - destruct (pending s !! i) as [t|] eqn:Ei; [| now apply sendsOnly_nothing].
    destruct t; try now apply sendsOnly_nothing.
    apply sendsOnly_nothing. unfold rephraseCallback. now destruct rr.
  - destruct (pending s !! i) as [t|] eqn:Ei; [| now apply sendsOnly_nothing].
    destruct t; try now apply sendsOnly_nothing.
    unfold settingsCallback.
    destruct response as [x|]; [| now apply sendsOnly_nothing].
    destruct (enabled x); [| now apply sendsOnly_nothing].
    match goal with
    | |- sendsOnly _ _ (analyzePageContent _ _ ?s1) =>
        eapply sendsOnly_scans with (s0 := s1);
          [| apply scans_analyzePageContent | |]; reflexivity
    end.
  - unfold onSettingsUpdated. destruct (enabled x).
    + match goal with
      | |- sendsOnly _ _ (analyzePageContent _ _ ?s1) =>
          eapply sendsOnly_scans with (s0 := s1);
            [| apply scans_analyzePageContent | |]; [| reflexivity | reflexivity]
      end.
      simpl. now destruct (observer s).
    + apply sendsOnly_nothing. unfold disconnectObserver.
      change (observer (setExtensionSettings x s)) with (observer s).
      destruct (observer s) as [w|]; [| reflexivity].
      change (sent (disconnect w (setExtensionSettings x s)) = sent s).
      now rewrite sent_disconnect.
  - apply sendsOnly_nothing. unfold onPageChanged. simpl.
    now destruct (enabled (extensionSettings s)).
  - destruct (watchers s !! w) as [x|] eqn:Ew; [| now apply sendsOnly_nothing].
    destruct (connected x); [| now apply sendsOnly_nothing].
    apply sendsOnly_nothing. unfold observerCallback. rewrite Ew.
    now destruct (processingTimeout x).
Qed.

End Sending.

(** ** The cache *)

Section CacheInvariant.

Variable innerText : node -> string.
Variable computedPosition : node -> string.

Lemma analysisRequests_mono (s s' : state) (ms : list message) (text : string) :
  sent s' = sent s ++ ms -> text ∈ analysisRequests s -> text ∈ analysisRequests s'.
Proof.
  intros H Hin. unfold analysisRequests. rewrite H, omap_app.
  apply elem_of_app. now left.
Qed.

Lemma answersRequests_mono (s s' : state) :
  (forall text, is_Some (analyzedTextCache s' !! text) ->
                is_Some (analyzedTextCache s !! text) \/ text ∈ analysisRequests s') ->
  (exists ms, sent s' = sent s ++ ms) ->
  Forall (fun t => t ∈ pending s \/ awaitsRequested s' t) (pending s') ->
  answersRequests s -> answersRequests s'.
Proof.
  intros Hcache (ms & Hms) Hpending [Hc Hp]. split.
  - intros text Hin. destruct (Hcache text Hin) as [H | H]; [| exact H].
    eapply analysisRequests_mono; [exact Hms | now apply Hc].
  - eapply Forall_impl; [exact Hpending |].
    intros t [Hin | Ht]; [| exact Ht].
    rewrite Forall_forall in Hp. specialize (Hp t Hin).
    destruct t; try exact I. simpl in *.
    eapply analysisRequests_mono; [exact Hms | exact Hp].
Qed.

Lemma answersRequests_scans (s s' : state) :
  scans s s' -> answersRequests s -> answersRequests s'.
Proof.
  intros [(ts & Hp & Hts) (ms & Hm & _) _ _ _ Hc]. apply answersRequests_mono.
  - intros text. rewrite Hc. now left.
  - now exists ms.
  - rewrite Hp. apply Forall_app. split.
    + apply Forall_forall. intros t Ht. now left.
    + eapply Forall_impl; [exact Hts |]. intros t Ht. right. now destruct t.
Qed.

Lemma answersRequests_same (s s' : state) :
  analyzedTextCache s' = analyzedTextCache s ->
  sent s' = sent s ->
  pending s' = pending s ->
  answersRequests s -> answersRequests s'.
Proof.
  intros Hc Hm Hp. apply answersRequests_mono.
  - intros text. rewrite Hc. now left.
  - exists []. now rewrite app_nil_r.
  - rewrite Hp. apply Forall_forall. intros t Ht. now left.
Qed.

Lemma answersRequests_delete (i : nat) (s : state) :
  answersRequests s -> answersRequests (setPending (delete i (pending s)) s).
Proof.
  apply answersRequests_mono.
  - intros text. now left.
  - exists []. now rewrite app_nil_r.
  - simpl. apply Forall_forall. intros t Ht. left.
    eapply elem_of_sublist; [exact Ht | apply sublist_delete].
Qed.

Lemma answersRequests_setTimeout (t : task) (s : state) :
  awaitsRequested s t -> answersRequests s -> answersRequests (setTimeout t s).
Proof.
  intros Ht. apply answersRequests_mono.
  - intros text. now left.
  - exists []. now rewrite app_nil_r.
  - simpl. apply Forall_app. split.
    + apply Forall_forall. intros t' Ht'. now left.
    + constructor; [| constructor]. right. now destruct t.
Qed.

Lemma answersRequests_step (ev : event) (s : state) :
  answersRequests s -> answersRequests (step innerText computedPosition ev s).
Proof.
  intros H. destruct ev as [i | i result | i rr | i response | x | | w mutations]; simpl.
  - destruct (pending s !! i) as [t|] eqn:Ei; [| exact H].
    pose proof (answersRequests_delete i s H) as H0.
    set (s0 := setPending (delete i (pending s)) s) in *.
    destruct t as [el txt timeout | w | batches index delay | | | | |]; try exact H.
    + revert H0. apply answersRequests_mono.
      * intros text. now left.
      * now exists [ANALYZE_TEXT txt].
      * simpl. apply Forall_app. split.
        -- apply Forall_forall. intros t' Ht'. now left.
        -- constructor; [| constructor]. right. simpl.
           unfold analysisRequests. simpl. rewrite omap_app. simpl.
           apply elem_of_app. right. apply elem_of_cons. now left.
    + unfold processMutations.
      destruct (watchers s0 !! w) as [x|]; [| exact H0].
      match goal with
      | |- answersRequests (match watchers (fold_left _ ?l s0) !! w with _ => _ end) =>
          pose proof (answersRequests_scans _ _
                        (scans_fold innerText computedPosition l s0) H0) as H1
      end.
      match goal with
      | |- answersRequests (match ?o with _ => _ end) => destruct o
      end; [| exact H1].
      eapply answersRequests_same; [| | | exact H1]; reflexivity.
    + eapply answersRequests_scans; [apply scans_processBatches | exact H0].
    + eapply answersRequests_scans; [apply scans_secondaryScan | exact H0].
    + eapply answersRequests_scans; [apply scans_analyzePageContent | exact H0].
  - destruct (pending s !! i) as [t|] eqn:Ei; [| exact H].
    destruct t as [| | | | | el txt | |]; try exact H.
    assert (Htxt : txt ∈ analysisRequests s).
    { destruct H as [_ Hp].
      exact (proj1 (Forall_lookup _ _) Hp i _ Ei). }
    pose proof (answersRequests_delete i s H) as H0.
    set (s0 := setPending (delete i (pending s)) s) in *.
    unfold analysisCallback.
    set (s1 := if autoRephrase (extensionSettings s0) then _ else s0).
    assert (H1 : answersRequests s1).
    { subst s1. destruct (autoRephrase _); [| exact H0].
      eapply answersRequests_same; [| | | exact H0]; reflexivity. }
    assert (Hs1 : sent s1 = sent s) by (subst s1; now destruct (autoRephrase _)).
    assert (Hc1 : analyzedTextCache s1 = analyzedTextCache s)
      by (subst s1; now destruct (autoRephrase _)).
    destruct result as [result | |]; try exact H1.
    eapply answersRequests_scans; [apply scans_handleAnalysisResult |].
    revert H1. apply answersRequests_mono.
    + intros text. simpl. intros Hin.
      destruct (decide (text = txt)) as [-> | Hne].
      * right. unfold analysisRequests in *. simpl. now rewrite Hs1.
      * left. now rewrite lookup_insert_ne in Hin by congruence.
    + exists []. now rewrite app_nil_r.
    + apply Forall_forall. intros t Ht. now left.
  - destruct (pending s !! i) as [t|] eqn:Ei; [| exact H].
    destruct t; try exact H.
    eapply answersRequests_same; [| | | apply (answersRequests_delete i s H)];
      unfold rephraseCallback; destruct rr; reflexivity.
  - destruct (pending s !! i) as [t|] eqn:Ei; [| exact H].
    destruct t; try exact H.
    pose proof (answersRequests_delete i s H) as H0.
    unfold settingsCallback. destruct response as [x|]; [| exact H0].
    destruct (enabled x).
    + eapply answersRequests_scans; [apply scans_analyzePageContent |].
      eapply answersRequests_same; [| | | exact H0]; reflexivity.
    + eapply answersRequests_same; [| | | exact H0]; reflexivity.
  - unfold onSettingsUpdated. destruct (enabled x).
    + eapply answersRequests_scans; [apply scans_analyzePageContent |].
      simpl. destruct (observer s);
        (eapply answersRequests_same; [| | | exact H]; reflexivity).
    + unfold disconnectObserver.
      change (observer (setExtensionSettings x s)) with (observer s).
      destruct (observer s) as [w|].
      * eapply answersRequests_same; [| | | exact H]; simpl;
          unfold disconnect; simpl; now destruct (watchers s !! w).
      * eapply answersRequests_same; [| | | exact H]; reflexivity.
  - unfold onPageChanged. simpl.
    assert (H0 : answersRequests
                   (setPage
                      (map (forEachElement
                              (fun e => if hasAttribute processedMarker (attributes e)
                                        then withAttributes (removeAttribute processedMarker) e
                                        else e))
                         (page (removeAllModifications (setAnalyzedTextCache ∅ s))))
                      (removeAllModifications (setAnalyzedTextCache ∅ s)))).
    { revert H. apply answersRequests_mono.
      - intros text. simpl. rewrite lookup_empty. intros [? Hin]. discriminate.
      - exists []. now rewrite app_nil_r.
      - apply Forall_forall. intros t Ht. now left. }
    destruct (enabled (extensionSettings s)); [| exact H0].
    now apply answersRequests_setTimeout.
  - destruct (watchers s !! w) as [x|] eqn:Ew; [| exact H].
    destruct (connected x); [| exact H].
    unfold observerCallback. rewrite Ew.
    destruct (processingTimeout x).
    + eapply answersRequests_same; [| | | exact H]; reflexivity.
    + apply answersRequests_setTimeout; [exact I |].
      eapply answersRequests_same; [| | | exact H]; reflexivity.
Qed.

Lemma answersRequests_run (evs : list event) (s : state) :
  answersRequests s -> answersRequests (run innerText computedPosition evs s).
Proof.
  unfold run. revert s. induction evs as [|ev evs IH]; intros s H; [exact H |].
  simpl. apply IH. now apply answersRequests_step.
Qed.

Lemma answersRequests_initial (doc : document) (k : nat) :
  answersRequests (initializeExtension (initialState doc k)).
Proof.
  split.
  - intros text. simpl. rewrite lookup_empty. intros [? Hin]. discriminate.
  - simpl. repeat constructor.
Qed.

Lemma answersRequests_browse (hs : list happening) (s : state) :
  answersRequests s -> answersRequests (browse innerText computedPosition hs s).
Proof.
  unfold browse. revert s. induction hs as [|h hs IH]; intros s H; [exact H |].
  cbn [fold_left]. apply IH. destruct h as [ev | doc outside free].
  - now apply answersRequests_step.
  - exact H.
Qed.

End CacheInvariant.

(** ** The debounce timer of the watcher *)

Section Debounce.

Variable innerText : node -> string.
Variable computedPosition : node -> string.

Lemma filter_delete {A : Type} (p : A -> bool) (l : list A) (i : nat) (x : A) :
  l !! i = Some x ->
  length (List.filter p l)
  = (length (List.filter p (delete i l)) + if p x then 1 else 0)%nat.
Proof.
  revert i. induction l as [|y l IH]; intros i E; [discriminate |].
  destruct i as [|i]; simpl in *.
  - injection E as ->. destruct (p x); simpl; lia.
  - specialize (IH i E). destruct (p y); simpl; lia.
Qed.

Lemma armed_same (w : nat) (s s' : state) :
  pending s' = pending s -> armedDebounceTimers w s' = armedDebounceTimers w s.
Proof. unfold armedDebounceTimers. now intros ->. Qed.

Lemma armed_append (w : nat) (s s' : state) (ts : list task) :
  pending s' = pending s ++ ts ->
  Forall (fun t => isMutationTimer w t = false) ts ->
  armedDebounceTimers w s' = armedDebounceTimers w s.
Proof.
  unfold armedDebounceTimers. intros -> H.
  rewrite List.filter_app, length_app.
  replace (List.filter (isMutationTimer w) ts) with (@nil task); [simpl; lia |].
  symmetry. induction H as [|t ts Ht _ IH]; [reflexivity |]. simpl. now rewrite Ht.
Qed.

Lemma debouncing_same (w : nat) (s s' : state) :
  watchers s' = watchers s -> debouncing w s' = debouncing w s.
Proof. unfold debouncing. now intros ->. Qed.

Lemma debounced_same (s s' : state) :
  pending s' = pending s -> watchers s' = watchers s -> debounced s -> debounced s'.
Proof.
  intros Hp Hw H w. now rewrite (armed_same w s s' Hp), (debouncing_same w s s' Hw).
Qed.

Lemma debounced_append (s s' : state) (ts : list task) :
  pending s' = pending s ++ ts ->
  Forall (fun t => forall w, isMutationTimer w t = false) ts ->
  watchers s' = watchers s -> debounced s -> debounced s'.
Proof.
  intros Hp Hts Hw H w.
  rewrite (armed_append w s s' ts Hp), (debouncing_same w s s' Hw); [apply H |].
  eapply Forall_impl; [exact Hts |]. intros t Ht. apply Ht.
Qed.

Lemma debounced_scans (s s' : state) : scans s s' -> debounced s -> debounced s'.
Proof.
  intros [(ts & Hp & Hts) _ _ _ Hw _]. apply (debounced_append s s' ts Hp); [| exact Hw].
  eapply Forall_impl; [exact Hts |]. intros t Ht w. now destruct t.
Qed.

Lemma debounced_delete (i : nat) (t : task) (s : state) :
  pending s !! i = Some t ->
  (forall w, isMutationTimer w t = false) ->
  debounced s -> debounced (setPending (delete i (pending s)) s).
Proof.
  intros Ei Ht H w. specialize (H w). unfold armedDebounceTimers in *. simpl.
  rewrite (filter_delete _ _ i t Ei), Ht in H.
  change (debouncing w (setPending (delete i (pending s)) s)) with (debouncing w s).
  lia.
Qed.

Lemma debouncing_insert (w w' : nat) (y : watcher) (s : state) :
  debouncing w' (setWatchers (<[w := y]> (watchers s)) s)
  = if decide (w' = w) then
      match watchers s !! w with
      | Some _ => processingTimeout y
      | None => false
      end
    else debouncing w' s.
Proof.
  unfold debouncing. simpl. destruct (decide (w' = w)) as [-> | Hne].
  - destruct (watchers s !! w) as [x|] eqn:E.
    + apply lookup_lt_Some in E. now rewrite list_lookup_insert_eq by exact E.
    + apply lookup_ge_None in E. rewrite lookup_ge_None_2; [reflexivity |].
      rewrite length_insert. lia.
  - now rewrite list_lookup_insert_ne by congruence.
Qed.

Lemma debounced_setupObserver (s : state) : debounced s -> debounced (setupObserver s).
Proof.
  intros H w. specialize (H w). unfold setupObserver.
  rewrite (armed_same w s) by reflexivity.
  rewrite H. unfold debouncing. simpl.
  destruct (watchers s !! w) as [x|] eqn:E.
  - rewrite lookup_app_l by (eapply lookup_lt_Some; exact E). now rewrite E.
  - apply lookup_ge_None in E.
    destruct (decide (w = length (watchers s))) as [-> | Hne].
    + now rewrite list_lookup_middle.
    + rewrite lookup_ge_None_2; [reflexivity |]. rewrite length_app. simpl. lia.
Qed.

Lemma debounced_disconnect (w : nat) (s : state) :
  debounced s -> debounced (disconnect w s).
Proof.
  intros H w'. specialize (H w'). unfold disconnect.
  destruct (watchers s !! w) as [x|] eqn:E; [| exact H].
  rewrite (armed_same w' s) by reflexivity.
  rewrite debouncing_insert, E. simpl.
  destruct (decide (w' = w)) as [-> | Hne]; [| exact H].
  rewrite H. unfold debouncing. now rewrite E.
Qed.

Lemma armed_setTimeout (w : nat) (t : task) (s : state) :
  armedDebounceTimers w (setTimeout t s)
  = (armedDebounceTimers w s + if isMutationTimer w t then 1 else 0)%nat.
Proof.
  unfold armedDebounceTimers. simpl. rewrite List.filter_app, length_app. simpl.
  now destruct (isMutationTimer w t).
Qed.

Lemma debouncing_setTimeout (w : nat) (t : task) (s : state) :
  debouncing w (setTimeout t s) = debouncing w s.
Proof. reflexivity. Qed.

Lemma debounced_observerCallback (w : nat) (mutations : list mutationRecord)
    (s : state) :
  debounced s -> debounced (observerCallback w mutations s).
Proof.
  intros H. unfold observerCallback.
  destruct (watchers s !! w) as [x|] eqn:E; [| exact H].
  match goal with
  | |- context [Watcher ?p true (connected x)] => set (y := Watcher p true (connected x))
  end.
  assert (Hy : forall w', debouncing w' (setWatchers (<[w := y]> (watchers s)) s)
                          = if decide (w' = w) then true else debouncing w' s).
  { intros w'. rewrite debouncing_insert, E. reflexivity. }
  destruct (processingTimeout x) eqn:Ex; intros w'; specialize (H w').
  - rewrite (armed_same w' s) by reflexivity. rewrite Hy.
    destruct (decide (w' = w)) as [-> | Hne]; [| exact H].
    rewrite H. unfold debouncing. now rewrite E, Ex.
  - rewrite armed_setTimeout, debouncing_setTimeout, Hy.
    rewrite (armed_same w' s) by reflexivity. simpl.
    destruct (decide (w' = w)) as [-> | Hne].
    + rewrite bool_decide_eq_true_2 by reflexivity.
      rewrite H. unfold debouncing. now rewrite E, Ex.
    + rewrite bool_decide_eq_false_2 by congruence. lia.
Qed.

Lemma debounced_processMutations (i w : nat) (s : state) :
  pending s !! i = Some (MutationTimer w) ->
  debounced s ->
  debounced (processMutations innerText computedPosition w
               (setPending (delete i (pending s)) s)).
Proof.
  intros Ei H.
  set (s0 := setPending (delete i (pending s)) s).
  assert (Hw : debouncing w s = true).
  { specialize (H w). unfold armedDebounceTimers in H.
    rewrite (filter_delete _ _ i _ Ei) in H. simpl in H.
    rewrite bool_decide_eq_true_2 in H by reflexivity.
    destruct (debouncing w s); [reflexivity | lia]. }
  assert (H0 : forall w', armedDebounceTimers w' s0
                          = if decide (w' = w) then 0 else armedDebounceTimers w' s).
  { intros w'. pose proof (H w') as Hw'. unfold armedDebounceTimers in *. simpl.
    pose proof (filter_delete (isMutationTimer w') _ i _ Ei) as Hd. simpl in Hd.
    destruct (decide (w' = w)) as [-> | Hne].
    - rewrite bool_decide_eq_true_2 in Hd by reflexivity. rewrite Hw in Hw'. lia.
    - rewrite bool_decide_eq_false_2 in Hd by congruence. lia. }
  unfold processMutations.
  change (watchers s0) with (watchers s).
  unfold debouncing in Hw.
  destruct (watchers s !! w) as [x|] eqn:E; [| discriminate].
  match goal with
  | |- debounced (match watchers (fold_left _ ?l s0) !! w with _ => _ end) =>
      pose proof (scans_fold innerText computedPosition l s0) as H1;
      set (s1 := fold_left _ l s0) in *
  end.
  destruct H1 as [(ts & Hp & Hts) _ _ _ Hws _].
  change (watchers s0) with (watchers s) in Hws.
  rewrite Hws, E. intros w'.
  rewrite (armed_same w' s1) by reflexivity.
  rewrite (armed_append w' s0 s1 ts Hp)
    by (eapply Forall_impl; [exact Hts |]; intros t Ht; now destruct t).
  rewrite H0.
  change (debouncing w' (setWatchers ?ws s1))
    with (debouncing w' (setWatchers ws s)).
  rewrite debouncing_insert, E. simpl.
  destruct (decide (w' = w)); [reflexivity | apply H].
Qed.

Lemma debounced_step (ev : event) (s : state) :
  debounced s -> debounced (step innerText computedPosition ev s).
Proof.
  intros H. destruct ev as [i | i result | i rr | i response | x | | w mutations]; simpl.
  - destruct (pending s !! i) as [t|] eqn:Ei; [| exact H].
    destruct t as [el txt timeout | w | batches index delay | | | | |]; try exact H.
    + eapply (debounced_append _ _ [AwaitAnalysis el txt]);
        [reflexivity | now repeat constructor | reflexivity |].
      now apply (debounced_delete i _ s Ei).
    + now apply debounced_processMutations.
    + eapply debounced_scans; [apply scans_processBatches |].
      now apply (debounced_delete i _ s Ei).
    + eapply debounced_scans; [apply scans_secondaryScan |].
      now apply (debounced_delete i _ s Ei).
    + eapply debounced_scans; [apply scans_analyzePageContent |].
      now apply (debounced_delete i _ s Ei).
  - destruct (pending s !! i) as [t|] eqn:Ei; [| exact H].
    destruct t as [| | | | | el txt | |]; try exact H.
    pose proof (debounced_delete i _ s Ei ltac:(reflexivity) H) as H0.
    set (s0 := setPending (delete i (pending s)) s) in *.
    unfold analysisCallback.
    set (s1 := if autoRephrase (extensionSettings s0) then _ else s0).
    assert (H1 : debounced s1).
    { subst s1. destruct (autoRephrase _); [| exact H0].
      eapply debounced_same; [| | exact H0]; reflexivity. }
    destruct result as [result | |]; try exact H1.
    eapply debounced_scans; [apply scans_handleAnalysisResult |].
    eapply debounced_same; [| | exact H1]; reflexivity.
  - destruct (pending s !! i) as [t|] eqn:Ei; [| exact H].
    destruct t; try exact H.
    eapply debounced_same;
      [| | apply (debounced_delete i _ s Ei ltac:(reflexivity) H)];
      unfold rephraseCallback; destruct rr; reflexivity.
  - destruct (pending s !! i) as [t|] eqn:Ei; [| exact H].
    destruct t; try exact H.
    pose proof (debounced_delete i _ s Ei ltac:(reflexivity) H) as H0.
    unfold settingsCallback. destruct response as [x|]; [| exact H0].
    destruct (enabled x).
    + eapply debounced_scans; [apply scans_analyzePageContent |].
      apply debounced_setupObserver.
      eapply debounced_same; [| | exact H0]; reflexivity.
    + eapply debounced_same; [| | exact H0]; reflexivity.
  - assert (Hx : debounced (setExtensionSettings x s))
      by (eapply debounced_same; [| | exact H]; reflexivity).
    unfold onSettingsUpdated. destruct (enabled x).
    + eapply debounced_scans; [apply scans_analyzePageContent |].
      change (observer (setExtensionSettings x s)) with (observer s).
      destruct (observer s); [exact Hx | now apply debounced_setupObserver].
    + unfold disconnectObserver.
      change (observer (setExtensionSettings x s)) with (observer s).
      destruct (observer s) as [w|].
      * eapply debounced_same; [| | apply (debounced_disconnect w _ Hx)]; reflexivity.
      * eapply debounced_same; [| | exact Hx]; reflexivity.
  - unfold onPageChanged. simpl.
    destruct (enabled (extensionSettings s)).
    + eapply (debounced_append _ _ [PageChangedTimer]);
        [reflexivity | now repeat constructor | reflexivity |].
      eapply debounced_same; [| | exact H]; reflexivity.
    + eapply debounced_same; [| | exact H]; reflexivity.
  - destruct (watchers s !! w) as [x|] eqn:Ew; [| exact H].
    destruct (connected x); [| exact H].
    now apply debounced_observerCallback.
Qed.

Lemma debounced_run (evs : list event) (s : state) :
  debounced s -> debounced (run innerText computedPosition evs s).
Proof.
  unfold run. revert s. induction evs as [|ev evs IH]; intros s H; [exact H |].
  simpl. apply IH. now apply debounced_step.
Qed.

Lemma debounced_initial (doc : document) (k : nat) :
  debounced (initializeExtension (initialState doc k)).
Proof. intros w. reflexivity. Qed.

End Debounce.

(** ** What holds in every state the script can reach *)

Lemma soundQueues_requests (s : state) :
  soundQueues s ->
  Forall requestable (analysisRequests s)
  /\ Forall (fun '(el, text) => requestable text) (armedAnalyses s)
  /\ Forall (fun t => match t with
                      | AnalysisTimer _ _ timeout => 50 <= timeout <= 200
                      | _ => True
                      end) (pending s).
Proof.
  intros [Ht Hs]. unfold analysisRequests, armedAnalyses. repeat split.
  - induction Hs as [|m ms Hm _ IH]; [constructor |].
    destruct m; simpl; try exact IH. now constructor.
  - induction Ht as [|t ts Hx _ IH]; [constructor |].
    destruct t; simpl; try exact IH. constructor; [apply Hx | exact IH].
  - eapply Forall_impl; [exact Ht |]. intros t Hx. destruct t; try exact I. apply Hx.
Qed.

(** A run of the event loop is the case of [browse] in which no script of
    the page touches the DOM. *)
Lemma browse_run (innerText computedPosition : node -> string)
    (evs : list event) (s : state) :
  browse innerText computedPosition (map ContentScript evs) s
  = run innerText computedPosition evs s.
Proof.
  unfold browse, run. revert s.
  induction evs as [|ev evs IH]; intros s; [reflexivity |].
  simpl. apply IH.
Qed.

(** X5. Whatever the page, its rendering, the events that arrive and the
    changes the scripts of the page make to the DOM in between (elements
    added, removed or altered), every text the content script has sent for
    analysis, and every text for which an analysis timer is armed, is
    trimmed, has at least 10 characters, and contains a word of the quick
    check or has at least 100 characters; the delay of every armed
    analysis timer is between 50 and 200 ms.  This holds for the elements
    that have left the document too: they are analysed like the others. *)
Theorem only_eligible_texts_are_sent_for_analysis
    (innerText computedPosition : node -> string) (doc : document)
    (firstFreeRef : nat) (hs : list happening) :
  let s := browse innerText computedPosition hs
             (initializeExtension (initialState doc firstFreeRef)) in
  Forall requestable (analysisRequests s)
  /\ Forall (fun '(el, text) => requestable text) (armedAnalyses s)
  /\ Forall (fun t => match t with
                      | AnalysisTimer _ _ timeout => 50 <= timeout <= 200
                      | _ => True
                      end) (pending s).
Proof.
  intros s. apply soundQueues_requests. subst s.
  apply soundQueues_browse. apply soundQueues_initial.
Qed.

(** X6. One step of the event loop only appends to the messages sent, and
    what it appends is limited by the event: a text goes out for analysis
    only when its own analysis timer fires; a rephrase request goes out
    only for a verdict whose category is not [safe] and only if
    auto-rephrase is on in the settings the step leaves; and no step sends
    [GET_SETTINGS]. *)
Theorem a_step_sends_only_what_its_event_allows
    (innerText computedPosition : node -> string) (ev : event) (s : state) :
  let s' := step innerText computedPosition ev s in
  exists ms, sent s' = sent s ++ ms /\ Forall (sentBy ev s s') ms.
Proof.
  intros s'. subst s'.
  destruct (step_sendsOnly innerText computedPosition ev s) as (ms & Hms & Hall).
  exists ms. split; [exact Hms | exact Hall].
Qed.

(** X7. In every state the script can reach, whatever the scripts of the
    page do to the DOM in between, a text that has a verdict in
    [analyzedTextCache] was sent for analysis before (so it is an eligible
    text): the cache is filled by answers to requests and by nothing
    else, for elements in the document and outside it alike. *)
Theorem cached_verdicts_answer_requests_that_were_sent
    (innerText computedPosition : node -> string) (doc : document)
    (firstFreeRef : nat) (hs : list happening) :
  let s := browse innerText computedPosition hs
             (initializeExtension (initialState doc firstFreeRef)) in
  map_Forall (fun text _ => text ∈ analysisRequests s /\ requestable text)
    (analyzedTextCache s).
Proof.
  intros s text result Hcache.
  assert (Hin : text ∈ analysisRequests s).
  { assert (H : answersRequests s)
      by (apply answersRequests_browse, answersRequests_initial).
    destruct H as [H _]. apply H. now exists result. }
  split; [exact Hin |].
  assert (H : soundQueues s) by (apply soundQueues_browse, soundQueues_initial).
  destruct (soundQueues_requests s H) as [Hreq _].
  rewrite Forall_forall in Hreq. now apply Hreq.
Qed.

(** X8. In every state the script can reach, each watcher has at most one
    debounce timer armed: exactly one while its [processingTimeout] is set,
    none otherwise. *)
Theorem a_watcher_has_at_most_one_debounce_timer
    (innerText computedPosition : node -> string) (doc : document)
    (firstFreeRef : nat) (evs : list event) (w : nat) :
  let s := run innerText computedPosition evs
             (initializeExtension (initialState doc firstFreeRef)) in
  armedDebounceTimers w s = (if debouncing w s then 1 else 0)
  /\ armedDebounceTimers w s <= 1.
Proof.
  intros s.
  assert (H : debounced s) by (apply debounced_run, debounced_initial).
  specialize (H w). split; [exact H |].
  rewrite H. destruct (debouncing w s); lia.
Qed.

(** ** How the handlers compose *)

Section Composition.

Variable innerText : node -> string.
Variable computedPosition : node -> string.

(** *** [PAGE_CHANGED] *)

Lemma unmark_unmarked :
  forall n, Forall (fun m => marked m = false) (elements n) ->
            forEachElement
              (fun e => if hasAttribute processedMarker (attributes e)
                        then withAttributes (removeAttribute processedMarker) e
                        else e) n = n.
Proof.
  induction n as [data | r e cs IH] using node_ind'; intros H; [reflexivity |].
  apply Forall_elements in H as [Hn Hcs]. unfold marked in Hn. simpl in Hn.
  simpl. rewrite Hn. f_equal.
  induction cs as [|c cs IHcs]; [reflexivity |].
  apply Forall_cons in IH as [IHc IH]. apply Forall_cons in Hcs as [Hc Hcs].
  simpl. now rewrite (IHc Hc), (IHcs IH Hcs).
Qed.

Lemma setPage_page (s : state) : setPage (page s) s = s.
Proof. now destruct s. Qed.

Lemma onPageChanged_reversal (s : state) :
  onPageChanged s
  = let s' := removeAllModifications (setAnalyzedTextCache ∅ s) in
    if enabled (extensionSettings s) then setTimeout PageChangedTimer s' else s'.
Proof.
  unfold onPageChanged. cbv zeta.
  set (s' := removeAllModifications (setAnalyzedTextCache ∅ s)).
  assert (Hpage : map (forEachElement
                         (fun e => if hasAttribute processedMarker (attributes e)
                                   then withAttributes (removeAttribute processedMarker) e
                                   else e)) (page s') = page s').
  { pose proof (reversal_untouched (setAnalyzedTextCache ∅ s)) as H. fold s' in H.
    apply Forall_elementsOf in H.
    rewrite <- (map_id (page s')) at 2.
    apply map_ext_Forall. eapply Forall_impl; [exact H |]. intros n Hn.
    apply unmark_unmarked. eapply Forall_impl; [exact Hn |]. now intros m [_ Hm]. }
  rewrite Hpage, setPage_page. reflexivity.
Qed.

(** *** Elements that were flagged *)











End Composition.

(** X9. The handler of [PAGE_CHANGED] is: empty the cache, run the
    reversal, and arm the re-analysis timer if the pipeline is enabled.
    Its own loop over [[data-ai-guardian-processed]] finds nothing, because
    the reversal has already removed every marker. *)
Theorem page_change_is_cache_reset_and_reversal (s : state) :
  onPageChanged s
  = (let s' := removeAllModifications (setAnalyzedTextCache ∅ s) in
     if enabled (extensionSettings s) then setTimeout PageChangedTimer s' else s')
  /\ analyzedTextCache (onPageChanged s) = ∅
  /\ sent (onPageChanged s) = sent s.
Proof.
  split; [apply onPageChanged_reversal |].
  rewrite onPageChanged_reversal. cbv zeta.
  destruct (enabled (extensionSettings s)); split; reflexivity.
Qed.

(** X10. A [SETTINGS_UPDATED] message with [enabled] set leaves the script
    with a watcher, and a second such message creates no further one: the
    watcher the script refers to and the list of watchers stay as they
    are. *)
Theorem enabling_again_creates_no_second_watcher
    (innerText computedPosition : node -> string) (x1 x2 : settings) (s : state) :
  enabled x1 = true ->
  enabled x2 = true ->
  let s1 := step innerText computedPosition (SETTINGS_UPDATED x1) s in
  let s2 := step innerText computedPosition (SETTINGS_UPDATED x2) s1 in
  is_Some (observer s1) /\ observer s2 = observer s1 /\ watchers s2 = watchers s1.
Proof.
  intros H1 H2 s1 s2.
  assert (Hs1 : is_Some (observer s1)).
  { subst s1. simpl. unfold onSettingsUpdated. rewrite H1.
    match goal with
    | |- is_Some (observer (analyzePageContent _ _ ?s0)) =>
        rewrite (scans_observer _ _
                   (scans_analyzePageContent innerText computedPosition s0))
    end.
    change (observer (setExtensionSettings x1 s)) with (observer s).
    destruct (observer s) as [w|] eqn:Eo.
    - change (observer (setExtensionSettings x1 s)) with (observer s).
      rewrite Eo. now exists w.
    - now eexists. }
  destruct Hs1 as [w Hw]. split; [now exists w |].
  assert (Hs2 : s2 = analyzePageContent innerText computedPosition
                       (setExtensionSettings x2 s1)).
  { subst s2. cbn [step]. unfold onSettingsUpdated. rewrite H2.
    change (observer (setExtensionSettings x2 s1)) with (observer s1).
    now rewrite Hw. }
  pose proof (scans_analyzePageContent innerText computedPosition
                (setExtensionSettings x2 s1)) as [_ _ _ Ho Hws _].
  rewrite Hs2. split; [exact Ho | exact Hws].
Qed.

Lemma enabling_again_creates_no_second_watcher_witness :
  let s1 := step Sample.rendered Sample.static (SETTINGS_UPDATED Sample.on)
              Sample.sampleState in
  let s2 := step Sample.rendered Sample.static (SETTINGS_UPDATED Sample.on) s1 in
  observer s1 = Some 0 /\ observer s2 = observer s1 /\ watchers s2 = watchers s1.
Proof.
  intros s1 s2.
  destruct (enabling_again_creates_no_second_watcher Sample.rendered Sample.static
              Sample.on Sample.on Sample.sampleState eq_refl eq_refl)
    as (_ & Ho & Hw).
  split; [reflexivity | split; [exact Ho | exact Hw]].
Defined.



(** ** Runs of the sample pages

    The settings arrive; a script of the page adds paragraph 9 and the
    watcher reports it; the debounce timer fires, then the analysis timer
    of the new paragraph, and its verdict arrives. *)

Lemma only_eligible_texts_are_sent_for_analysis_witness :
  let s := browse Sample.rendered Sample.static
             [ContentScript (SettingsResponse 0 (Some Sample.on));
              PageScript Sample.grownPage [] 200;
              ContentScript
                (MutationsObserved 0 [MutationRecord "childList" [ElementNode 9]]);
              ContentScript (TimerFires 6);
              ContentScript (TimerFires 6)]
             (initializeExtension Sample.sampleState) in
  analysisRequests s = ["they want to kill people here"]
  /\ armedAnalyses s
     = [(2, "how to make bomb at home"); (3, "how to make bomb at home");
        (5, "this will kill you"); (6, "this will kill people")]
  /\ Forall requestable (analysisRequests s)
  /\ Forall (fun '(el, text) => requestable text) (armedAnalyses s).
Proof.
  intros s.
  destruct (only_eligible_texts_are_sent_for_analysis Sample.rendered Sample.static
              Sample.samplePage 100
              [ContentScript (SettingsResponse 0 (Some Sample.on));
               PageScript Sample.grownPage [] 200;
               ContentScript
                 (MutationsObserved 0 [MutationRecord "childList" [ElementNode 9]]);
               ContentScript (TimerFires 6);
               ContentScript (TimerFires 6)])
    as (Hsent & Harmed & _).
  split; [reflexivity |]. split; [reflexivity |]. split; [exact Hsent | exact Harmed].
Defined.

Lemma cached_verdicts_answer_requests_that_were_sent_witness :
  let s := browse Sample.rendered Sample.static
             [ContentScript (SettingsResponse 0 (Some Sample.on));
              PageScript Sample.grownPage [] 200;
              ContentScript
                (MutationsObserved 0 [MutationRecord "childList" [ElementNode 9]]);
              ContentScript (TimerFires 6);
              ContentScript (TimerFires 6);
              ContentScript
                (AnalysisResponse 6
                   (Reply (Sample.harmfulVerdict "they want to kill people here")))]
             (initializeExtension Sample.sampleState) in
  analyzedTextCache s !! "they want to kill people here"
  = Some (Sample.harmfulVerdict "they want to kill people here")
  /\ "they want to kill people here" ∈ analysisRequests s.
Proof.
  intros s.
  assert (Hcache : analyzedTextCache s !! "they want to kill people here"
                   = Some (Sample.harmfulVerdict "they want to kill people here"))
    by reflexivity.
  split; [exact Hcache |].
  exact (proj1 (cached_verdicts_answer_requests_that_were_sent Sample.rendered
                  Sample.static Sample.samplePage 100
                  [ContentScript (SettingsResponse 0 (Some Sample.on));
                   PageScript Sample.grownPage [] 200;
                   ContentScript
                     (MutationsObserved 0
                        [MutationRecord "childList" [ElementNode 9]]);
                   ContentScript (TimerFires 6);
                   ContentScript (TimerFires 6);
                   ContentScript
                     (AnalysisResponse 6
                        (Reply (Sample.harmfulVerdict
                                  "they want to kill people here")))]
                  _ _ Hcache)).
Defined.

(** An element that has left the document is handled like the others.  The
    scan of the nested page finds the list item and the paragraph inside
    it, and both texts are sent.  The verdict for the list item arrives
    and its rephrasing replaces the children of the list item: the
    paragraph is outside the document from then on.  When the verdict for
    the paragraph arrives, the paragraph gets its badge and the
    [ai-guardian-processing] class, and a second rephrase request goes
    out; the page does not change. *)
Lemma element_outside_the_document_is_still_rephrased :
  let verdict := Sample.harmfulVerdict "how to make bomb at home" in
  let s :=
    run Sample.rendered Sample.static
      [SETTINGS_UPDATED Sample.on; TimerFires 0; TimerFires 0;
       AnalysisResponse 2 (Reply verdict);
       RephraseResponse 3 (Reply (RephraseResult "how to make bomb at home" "[safe]"))]
      (initialState Sample.nestedPage 100) in
  let s' := step Sample.rendered Sample.static (AnalysisResponse 2 (Reply verdict)) s in
  textOf 2 s = Some "[safe]"
  /\ locateIn 3 (page s) = None
  /\ pending s !! 2 = Some (AwaitAnalysis 3 "how to make bomb at home")
  /\ sent s' = sent s ++ [REPHRASE_TEXT "how to make bomb at home" "harmful"]
  /\ page s' = page s
  /\ (exists a e cs,
        findElement 3 s' = Some (a, Elem 3 e cs)
        /\ classList e = ["ai-guardian-processing"]
        /\ querySelector (hasClass "ai-guardian-warning") (Elem 3 e cs) = true).
Proof.
  intros verdict s s'.
  split; [reflexivity |]. split; [reflexivity |]. split; [reflexivity |].
  split; [reflexivity |]. split; [vm_compute; reflexivity |].
  eexists _, _, _. split; [vm_compute; reflexivity |]. split; reflexivity.
Qed.

Lemma a_watcher_has_at_most_one_debounce_timer_witness :
  let s := run Sample.rendered Sample.static
             [SettingsResponse 0 (Some Sample.on);
              MutationsObserved 0 [MutationRecord "childList" [ElementNode 2]];
              MutationsObserved 0 [MutationRecord "childList" [ElementNode 3]]]
             (initializeExtension Sample.sampleState) in
  debouncing 0 s = true /\ armedDebounceTimers 0 s = 1.
Proof.
  intros s. split; [reflexivity |].
  exact (proj1 (a_watcher_has_at_most_one_debounce_timer Sample.rendered Sample.static
                  Sample.samplePage 100
                  [SettingsResponse 0 (Some Sample.on);
                   MutationsObserved 0 [MutationRecord "childList" [ElementNode 2]];
                   MutationsObserved 0 [MutationRecord "childList" [ElementNode 3]]]
                  0)).
Defined.

(** * Further properties of the local utilities *)

(** ** [tokenizeText] *)

Section Tokenizer.

Import AIGuardianUtils.

(** *** White space *)

Lemma blank_append (a b : string) : blank (a +:+ b) = blank a && blank b.
Proof.
  induction a as [|x a IH]; [reflexivity |]. rewrite append_String. cbn [blank].
  now rewrite IH, andb_assoc.
Qed.

Lemma blank_rev (a : string) : blank (String.rev a) = blank a.
Proof.
  induction a as [|x a IH]; [reflexivity |].
  rewrite rev_String, blank_append, IH. cbn [blank]. rewrite andb_true_r. apply andb_comm.
Qed.

Lemma visible_append (a b : string) : visible (a +:+ b) = visible a +:+ visible b.
Proof.
  induction a as [|x a IH]; [reflexivity |]. rewrite append_String. cbn [visible].
  destruct (isWhiteSpace x); [exact IH |]. now rewrite append_String, IH.
Qed.

Lemma visible_blank (a : string) : visible a = "" <-> blank a = true.
Proof.
  induction a as [|x a IH]; [easy |]. cbn [visible blank].
  destruct (isWhiteSpace x); [exact IH | easy].
Qed.

Lemma visible_rev (a : string) : visible (String.rev a) = String.rev (visible a).
Proof.
  induction a as [|x a IH]; [reflexivity |].
  rewrite rev_String, visible_append, IH. cbn [visible].
  destruct (isWhiteSpace x).
  - now rewrite append_empty_r.
  - now rewrite rev_String.
Qed.

Lemma visible_trimEnd (s : string) : visible (trimEnd s) = visible s.
Proof.
  unfold trimEnd. rewrite visible_rev, visible_trimStart, visible_rev.
  apply rev_involutive.
Qed.

Lemma visible_trim (s : string) : visible (trim s) = visible s.
Proof. unfold trim. now rewrite visible_trimEnd, visible_trimStart. Qed.

Lemma trimEnd_blank (s b : string) : blank b = true -> trimEnd (s +:+ b) = trimEnd s.
Proof.
  intros H. unfold trimEnd. rewrite rev_append, trimStart_blank; [reflexivity |].
  now rewrite blank_rev.
Qed.

Lemma trim_empty (s : string) : trim s = "" <-> blank s = true.
Proof.
  rewrite <- visible_blank, <- (visible_trim s). split; [now intros -> |].
  intros H. apply visible_blank in H.
  assert (Ht : trimStart (trim s) = trim s).
  { unfold trim. apply trimStart_trimEnd, trimStart_idempotent. }
  apply trimStart_empty in H. congruence.
Qed.

Lemma trim_space (s : string) : trim (s +:+ " ") = trim s.
Proof.
  unfold trim. rewrite trimStart_append.
  destruct (trimStart s) as [|x t] eqn:E; [reflexivity |].
  cbn [truthy]. now apply trimEnd_blank.
Qed.

(** *** The separator *)

Lemma star_whiteSpace (prev : option ascii) (s : string) :
  matchAt (StarOf isWhiteSpace) prev s (fun _ rest => Some rest) = Some (trimStart s).
Proof.
  revert prev. induction s as [|a s IH]; intros prev; [reflexivity |].
  cbn [matchAt] in *. cbn [trimStart].
  destruct (isWhiteSpace a); [| reflexivity].
  now rewrite IH.
Qed.

Lemma sentenceBreak_spec (prev : option ascii) (s : string) :
  sentenceBreak prev s
  = match s with
    | String a s' =>
        if afterSentenceEnd prev && isWhiteSpace a then Some (trimStart s') else None
    | EmptyString => None
    end.
Proof.
  unfold sentenceBreak, exec.
  destruct (afterSentenceEnd prev); [| now destruct s].
  destruct s as [|a s']; [reflexivity |]. cbn [matchAt andb].
  destruct (isWhiteSpace a); [| reflexivity].
  apply star_whiteSpace.
Qed.

Lemma trimStart_prefix (s : string) :
  exists ws, s = ws +:+ trimStart s /\ blank ws = true.
Proof.
  induction s as [|a s (ws & Hs & Hws)]; [now exists "" |].
  cbn [trimStart]. destruct (isWhiteSpace a) eqn:E.
  - exists (String a ws). rewrite append_String, <- Hs. split; [reflexivity |].
    cbn [blank]. now rewrite E.
  - now exists "".
Qed.

Lemma blankPrefix_trimStart (s : string) :
  blankPrefix (String.length s - String.length (trimStart s)) s.
Proof.
  destruct (trimStart_prefix s) as (ws & Hs & Hws).
  exists ws, (trimStart s). split; [exact Hs |]. split; [| exact Hws].
  rewrite Hs at 1. rewrite length_append. lia.
Qed.

Lemma blankPrefix_step (n : nat) (a : ascii) (s : string) :
  blankPrefix (S n) (String a s) -> isWhiteSpace a = true /\ blankPrefix n s.
Proof.
  intros (ws & rest & Hs & Hlen & Hws).
  destruct ws as [|x ws]; [discriminate |].
  rewrite append_String in Hs. injection Hs as <- ->.
  cbn [blank] in Hws. apply andb_true_iff in Hws as [Hx Hws].
  split; [exact Hx |]. exists ws, rest. repeat split; [| exact Hws].
  cbn in Hlen. lia.
Qed.

(** *** The sentences *)

Lemma joined_cons (x : string) (l : list string) : joined (x :: l) = x +:+ joined l.
Proof. reflexivity. Qed.

Lemma joined_app (l1 l2 : list string) : joined (l1 ++ l2) = joined l1 +:+ joined l2.
Proof.
  induction l1 as [|x l1 IH]; [reflexivity |].
  cbn [app]. now rewrite !joined_cons, IH, append_assoc.
Qed.

Lemma length_match (a : ascii) (s : string) :
  (String.length (String a s) - String.length (trimStart s))%nat
  = S (String.length s - String.length (trimStart s)).
Proof. pose proof (length_trimStart s). cbn [String.length]. lia. Qed.

Lemma blankPrefix_zero (s : string) : blankPrefix 0 s.
Proof. now exists "", s. Qed.

Lemma splitFrom_visible (s : string) :
  forall (prev : option ascii) (skip : nat) (piece : string),
    blankPrefix skip s ->
    visible (joined (splitFrom sentenceBreak prev skip piece s))
    = visible piece +:+ visible s.
Proof.
  induction s as [|a s IH]; intros prev skip piece Hskip.
  - cbn [splitFrom joined fold_right visible]. now rewrite !append_empty_r.
  - cbn [splitFrom]. destruct skip as [|n].
    + rewrite sentenceBreak_spec.
      destruct (afterSentenceEnd prev && isWhiteSpace a) eqn:Hm.
      * apply andb_true_iff in Hm as [_ Ha].
        rewrite length_match, joined_cons, visible_append.
        rewrite IH by apply blankPrefix_trimStart.
        cbn [visible]. now rewrite Ha.
      * rewrite IH by apply blankPrefix_zero.
        rewrite visible_append, append_assoc.
        change (String a s) with (String a "" +:+ s).
        now rewrite (visible_append (String a "") s).
    + apply blankPrefix_step in Hskip as [Ha Hskip].
      rewrite IH by exact Hskip. cbn [visible]. now rewrite Ha.
Qed.

Lemma whiteSpace_ends_no_sentence (a : ascii) :
  isWhiteSpace a = true -> afterSentenceEnd (Some a) = false.
Proof.
  intros Ha. cbn [afterSentenceEnd]. apply bool_decide_eq_false_2. intros Hin.
  apply list_elem_of_In in Hin. simpl in Hin.
  destruct Hin as [<- | [<- | [<- | []]]]; discriminate.
Qed.

Lemma splitFrom_sentences (s : string) :
  forall (prev : option ascii) (skip : nat) (piece : string),
    splitting prev skip piece s ->
    exists init last,
      splitFrom sentenceBreak prev skip piece s = init ++ [last]
      /\ Forall endsSentence init.
Proof.
  induction s as [|a s IH]; intros prev skip piece Hinv.
  - exists [], piece. now split.
  - cbn [splitFrom]. destruct skip as [|n].
    + rewrite sentenceBreak_spec.
      destruct (afterSentenceEnd prev && isWhiteSpace a) eqn:Hm.
      * apply andb_true_iff in Hm as [Hprev Ha].
        rewrite length_match.
        destruct (IH (Some a) (String.length s - String.length (trimStart s))%nat "")
          as (init & last & Hsplit & Hinit).
        { destruct (String.length s - String.length (trimStart s))%nat eqn:En.
          - left. split; [reflexivity | now apply whiteSpace_ends_no_sentence].
          - split; [reflexivity |]. rewrite <- En. apply blankPrefix_trimStart. }
        exists (piece :: init), last. rewrite Hsplit. split; [reflexivity |].
        constructor; [| exact Hinit].
        destruct Hinv as [[_ Hno] | (t & c & Hpiece & ->)]; [congruence |].
        now exists t, c.
      * apply IH. right. now exists piece, a.
    + destruct Hinv as [-> Hskip].
      apply blankPrefix_step in Hskip as [Ha Hskip].
      apply IH. destruct n as [|n].
      * left. split; [reflexivity | now apply whiteSpace_ends_no_sentence].
      * now split.
Qed.

Lemma split_visible (text : string) :
  visible (joined (split sentenceBreak text)) = visible text.
Proof.
  destruct text as [|a text]; [reflexivity |].
  unfold split. now rewrite splitFrom_visible by apply blankPrefix_zero.
Qed.

Lemma split_sentences (text : string) :
  exists init last,
    split sentenceBreak text = init ++ [last] /\ Forall endsSentence init.
Proof.
  destruct text as [|a text].
  - exists [], "". now split.
  - unfold split. apply splitFrom_sentences. left. now split.
Qed.

(** *** The loop over the sentences *)

Lemma endsSentence_not_blank (piece : string) : endsSentence piece -> blank piece = false.
Proof.
  intros (t & c & -> & Hc). rewrite blank_append. cbn [blank].
  destruct (isWhiteSpace c) eqn:E.
  - apply whiteSpace_ends_no_sentence in E. congruence.
  - now rewrite andb_false_r.
Qed.

Lemma trim_not_empty (s : string) : blank s = false -> trim s <> "".
Proof. intros H Ht. apply trim_empty in Ht. congruence. Qed.

Lemma length_zero (s : string) : (0 <? String.length s)%nat = false <-> s = "".
Proof.
  destruct s; cbn; split; try reflexivity; discriminate.
Qed.

Lemma fold_addSentence_last (maxLength : nat) (init : list string) (last : string)
    (acc : list string * string) :
  fold_left (addSentence maxLength) (init ++ [last]) acc
  = addSentence maxLength (fold_left (addSentence maxLength) init acc) last.
Proof. now rewrite fold_left_app. Qed.

(** The chunks so far are trimmed and not empty, and the chunk under
    construction is empty or holds a visible character. *)
Lemma addSentence_trimmed (maxLength : nat) (chunks : list string) (cur sentence : string) :
  Forall (fun chunk => chunk <> "" /\ trim chunk = chunk) chunks ->
  cur = "" \/ blank cur = false ->
  let acc := addSentence maxLength (chunks, cur) sentence in
  Forall (fun chunk => chunk <> "" /\ trim chunk = chunk) acc.1
  /\ (endsSentence sentence -> blank acc.2 = false).
Proof.
  intros Hchunks Hcur. unfold addSentence.
  destruct ((maxLength <? String.length cur + String.length sentence)%nat
            && (0 <? String.length cur)%nat) eqn:Hflush; cbn [fst snd].
  - apply andb_true_iff in Hflush as [_ Hlen].
    destruct Hcur as [-> | Hcur]; [discriminate |].
    split.
    + apply Forall_app. split; [exact Hchunks |].
      constructor; [| constructor].
      split; [now apply trim_not_empty | apply trim_idempotent].
    + intros Hs. rewrite !blank_append, (endsSentence_not_blank _ Hs). reflexivity.
  - split; [exact Hchunks |].
    intros Hs. rewrite !blank_append, (endsSentence_not_blank _ Hs).
    now rewrite andb_false_r.
Qed.

Lemma fold_addSentence_trimmed (maxLength : nat) (init : list string) :
  Forall endsSentence init ->
  forall (chunks : list string) (cur : string),
    Forall (fun chunk => chunk <> "" /\ trim chunk = chunk) chunks ->
    cur = "" \/ blank cur = false ->
    let acc := fold_left (addSentence maxLength) init (chunks, cur) in
    Forall (fun chunk => chunk <> "" /\ trim chunk = chunk) acc.1
    /\ (acc.2 = "" \/ blank acc.2 = false).
Proof.
  induction 1 as [|sentence init Hs _ IH]; intros chunks cur Hchunks Hcur.
  - now split.
  - cbn [fold_left].
    destruct (addSentence_trimmed maxLength chunks cur sentence Hchunks Hcur)
      as [H1 H2].
    destruct (addSentence maxLength (chunks, cur) sentence) as [chunks' cur'].
    apply IH; [exact H1 | right; now apply H2].
Qed.

Lemma tokenizeText_finish (text : string) (maxLength : nat) :
  exists chunks cur,
    fold_left (addSentence maxLength) (split sentenceBreak text) ([], "")
    = (chunks, cur)
    /\ tokenizeText text maxLength
       = if (0 <? String.length (trim cur))%nat then chunks ++ [trim cur] else chunks.
Proof.
  unfold tokenizeText.
  destruct (fold_left _ _ _) as [chunks cur]. now exists chunks, cur.
Qed.

(** *** The length of the chunks *)

Lemma addSentence_bounded (maxLength : nat) (sentences chunks : list string)
    (cur sentence : string) :
  let bounded chunk :=
    (String.length chunk <= maxLength)%nat
    \/ exists sentence, sentence ∈ sentences /\ chunk = trim sentence in
  let open cur :=
    cur = "" \/ (exists sentence, sentence ∈ sentences /\ trim cur = trim sentence)
    \/ (String.length (trim cur) <= maxLength)%nat in
  sentence ∈ sentences ->
  Forall bounded chunks -> open cur ->
  let acc := addSentence maxLength (chunks, cur) sentence in
  Forall bounded acc.1 /\ open acc.2.
Proof.
  intros bounded open Hin Hchunks Hcur. unfold addSentence.
  destruct ((maxLength <? String.length cur + String.length sentence)%nat
            && (0 <? String.length cur)%nat) eqn:Hflush; cbn [fst snd].
  - apply andb_true_iff in Hflush as [_ Hlen]. split.
    + apply Forall_app. split; [exact Hchunks |]. constructor; [| constructor].
      destruct Hcur as [-> | [Hcur | Hcur]]; [discriminate | now right | now left].
    + right. left. rewrite append_empty_l, trim_space.
      now exists sentence.
  - split; [exact Hchunks |].
    destruct (0 <? String.length cur)%nat eqn:Hlen.
    + rewrite andb_true_r in Hflush. apply Nat.ltb_ge in Hflush.
      right. right. rewrite <- append_assoc, trim_space.
      etransitivity; [apply length_trim |]. rewrite length_append. exact Hflush.
    + apply length_zero in Hlen. subst cur.
      right. left. rewrite append_empty_l, trim_space.
      now exists sentence.
Qed.

Lemma fold_addSentence_bounded (maxLength : nat) (sentences l : list string) :
  let bounded chunk :=
    (String.length chunk <= maxLength)%nat
    \/ exists sentence, sentence ∈ sentences /\ chunk = trim sentence in
  let open cur :=
    cur = "" \/ (exists sentence, sentence ∈ sentences /\ trim cur = trim sentence)
    \/ (String.length (trim cur) <= maxLength)%nat in
  l ⊆ sentences ->
  forall (chunks : list string) (cur : string),
    Forall bounded chunks -> open cur ->
    let acc := fold_left (addSentence maxLength) l (chunks, cur) in
    Forall bounded acc.1 /\ open acc.2.
Proof.
  intros bounded open. induction l as [|sentence l IH]; intros Hsub chunks cur Hchunks Hcur.
  - now split.
  - cbn [fold_left].
    destruct (addSentence_bounded maxLength sentences chunks cur sentence)
      as [H1 H2]; try assumption.
    { apply Hsub, elem_of_cons. now left. }
    destruct (addSentence maxLength (chunks, cur) sentence) as [chunks' cur'].
    apply IH; [| exact H1 | exact H2].
    intros x Hx. apply Hsub, elem_of_cons. now right.
Qed.

(** *** The text of the chunks *)

Lemma visible_space (s : string) : visible (s +:+ " ") = visible s.
Proof. rewrite visible_append. cbn. apply append_empty_r. Qed.

Lemma joined_singleton (x : string) : joined [x] = x.
Proof. cbn. apply append_empty_r. Qed.

Lemma addSentence_visible (maxLength : nat) (chunks : list string) (cur sentence : string) :
  let acc := addSentence maxLength (chunks, cur) sentence in
  visible (joined acc.1) +:+ visible acc.2
  = (visible (joined chunks) +:+ visible cur) +:+ visible sentence.
Proof.
  unfold addSentence.
  destruct (_ && _); cbn [fst snd].
  - rewrite joined_app, joined_singleton, visible_append, visible_trim.
    rewrite append_empty_l, visible_space. reflexivity.
  - rewrite <- append_assoc, visible_space, visible_append, append_assoc. reflexivity.
Qed.

Lemma fold_addSentence_visible (maxLength : nat) (l : list string) :
  forall (chunks : list string) (cur : string),
    let acc := fold_left (addSentence maxLength) l (chunks, cur) in
    visible (joined acc.1) +:+ visible acc.2
    = (visible (joined chunks) +:+ visible cur) +:+ visible (joined l).
Proof.
  induction l as [|sentence l IH]; intros chunks cur.
  - cbn. now rewrite append_empty_r.
  - cbn [fold_left].
    pose proof (addSentence_visible maxLength chunks cur sentence) as H.
    destruct (addSentence maxLength (chunks, cur) sentence) as [chunks' cur'].
    cbn [fst snd] in H. rewrite IH, H, joined_cons, visible_append, !append_assoc.
    reflexivity.
Qed.


Lemma tokenizeText_trimmed (text : string) (maxLength : nat) :
  Forall (fun chunk => chunk <> "" /\ trim chunk = chunk) (tokenizeText text maxLength).
Proof.
  destruct (tokenizeText_finish text maxLength) as (chunks & cur & Hfold & ->).
  destruct (split_sentences text) as (init & last & Hsplit & Hinit).
  rewrite Hsplit, fold_addSentence_last in Hfold.
  destruct (fold_addSentence_trimmed maxLength init Hinit [] "") as [H1 H2];
    [constructor | now left |].
  destruct (fold_left (addSentence maxLength) init ([], "")) as [chunks1 cur1].
  destruct (addSentence_trimmed maxLength chunks1 cur1 last H1 H2) as [H3 _].
  rewrite Hfold in H3. cbn [fst] in H3.
  destruct (0 <? String.length (trim cur))%nat eqn:Hlen; [| exact H3].
  apply Forall_app. split; [exact H3 |]. constructor; [| constructor].
  split; [| apply trim_idempotent].
  intros Hempty. rewrite Hempty in Hlen. discriminate.
Qed.

(** X12. Every chunk [tokenizeText] returns is trimmed and not empty,
    whatever the text and the maximal length. *)
Theorem tokenizeText_chunks_are_trimmed_and_not_empty (text : string) (maxLength : nat) :
  Forall (fun chunk => chunk <> "" /\ trim chunk = chunk
                       /\ (0 < String.length chunk)%nat)
    (tokenizeText text maxLength).
Proof.
  eapply Forall_impl; [apply (tokenizeText_trimmed text maxLength) |].
  intros chunk [Hne Htrim]. repeat split; [exact Hne | exact Htrim |].
  destruct chunk; [congruence | cbn; lia].
Qed.

(** X13. A chunk [tokenizeText] returns has at most [maxLength] characters,
    unless it is one sentence of the text on its own (a piece of the split
    at white space after [.], [!] or [?], trimmed): sentences are never cut,
    and only a sentence that is too long makes a chunk that is too long. *)
Theorem tokenizeText_chunks_are_bounded (text : string) (maxLength : nat) :
  Forall (fun chunk =>
            (String.length chunk <= maxLength)%nat
            \/ exists sentence,
                 sentence ∈ split sentenceBreak text /\ chunk = trim sentence)
    (tokenizeText text maxLength).
Proof.
  destruct (tokenizeText_finish text maxLength) as (chunks & cur & Hfold & ->).
  destruct (fold_addSentence_bounded maxLength (split sentenceBreak text)
              (split sentenceBreak text) ltac:(intros x Hx; exact Hx) [] "")
    as [H1 H2]; [constructor | now left |].
  rewrite Hfold in H1, H2. cbn [fst snd] in H1, H2.
  destruct (0 <? String.length (trim cur))%nat eqn:Hlen; [| exact H1].
  apply Forall_app. split; [exact H1 |]. constructor; [| constructor].
  destruct H2 as [-> | [(sentence & Hin & Hs) | Hs]];
    [discriminate | right; now exists sentence | now left].
Qed.

(** X14. [tokenizeText] loses no text: the characters of the chunks that
    are not white space are those of the text, in the same order; and it
    returns no chunk at all exactly when the text is empty or white space
    only. *)
Theorem tokenizeText_keeps_the_text (text : string) (maxLength : nat) :
  visible (joined (tokenizeText text maxLength)) = visible text
  /\ (tokenizeText text maxLength = [] <-> blank text = true).
Proof.
  assert (Hvisible : visible (joined (tokenizeText text maxLength)) = visible text).
  { destruct (tokenizeText_finish text maxLength) as (chunks & cur & Hfold & ->).
    pose proof (fold_addSentence_visible maxLength (split sentenceBreak text) [] "")
      as H.
    rewrite Hfold in H. cbn [fst snd] in H.
    rewrite split_visible in H. cbn [joined fold_right visible] in H.
    rewrite !append_empty_l in H. rewrite <- H.
    destruct (0 <? String.length (trim cur))%nat eqn:Hlen.
    - now rewrite joined_app, joined_singleton, visible_append, visible_trim.
    - apply length_zero, trim_empty, visible_blank in Hlen.
      now rewrite Hlen, append_empty_r. }
  split; [exact Hvisible |]. split.
  - intros Hnil. rewrite Hnil in Hvisible. now apply visible_blank.
  - intros Hblank. apply visible_blank in Hblank. rewrite Hblank in Hvisible.
    pose proof (tokenizeText_trimmed text maxLength) as Hall.
    destruct (tokenizeText text maxLength) as [|chunk chunks]; [reflexivity |].
    apply Forall_cons in Hall as [[Hne Htrim] _].
    rewrite joined_cons, visible_append in Hvisible.
    assert (Hchunk : visible chunk = "").
    { destruct (visible chunk); [reflexivity | discriminate]. }
    apply visible_blank, trim_empty in Hchunk. congruence.
Qed.

End Tokenizer.

(** * Further properties of the scans *)

(** ** Batches *)

Section Batches.

Lemma createBatches_spec (batchSize : nat) :
  (0 < batchSize)%nat ->
  forall (fuel : nat) (l : list nat),
    (length l <= fuel)%nat ->
    concat (createBatches fuel batchSize l) = l
    /\ Forall (fun batch => 0 < length batch <= batchSize)%nat
         (createBatches fuel batchSize l)
    /\ (length l <= length (createBatches fuel batchSize l) * batchSize
        < length l + batchSize)%nat.
Proof.
  intros Hn. induction fuel as [|fuel IH]; intros l Hlen.
  - destruct l; [| simpl in Hlen; lia]. simpl.
    split; [reflexivity |]. split; [constructor | lia].
  - destruct l as [|x l].
    { simpl. split; [reflexivity |]. split; [constructor | lia]. }
    cbn [createBatches].
    set (l0 := x :: l) in *.
    assert (Hl0 : (0 < length l0)%nat) by (subst l0; cbn [length]; lia).
    assert (Hdrop : (length (drop batchSize l0) <= fuel)%nat)
      by (rewrite length_drop; subst l0; cbn [length] in *; lia).
    destruct (IH (drop batchSize l0) Hdrop) as (Hc & Hall & Hcount).
    rewrite length_drop in Hcount.
    split; [| split].
    + simpl. rewrite Hc. apply take_drop.
    + constructor; [| exact Hall]. rewrite length_take. lia.
    + cbn [length].
      set (k := length (createBatches fuel batchSize (drop batchSize l0))) in *.
      rewrite Nat.mul_succ_l.
      destruct (le_lt_dec batchSize (length l0)) as [Hge | Hlt]; [lia |].
      assert (Hk : k = 0%nat)
        by (destruct k; [reflexivity | rewrite Nat.mul_succ_l in Hcount; lia]).
      rewrite Hk. lia.
Qed.

End Batches.

(** X15. The loop that cuts the elements of a scan into batches loses and
    repeats nothing and keeps the order: the batches put together are the
    list, no batch is empty, none has more than [batchSize] elements, and
    there are as many batches as the size of the list divided by
    [batchSize], rounded up. *)
Theorem batches_partition_the_elements (batchSize : nat) (l : list nat) :
  (0 < batchSize)%nat ->
  let batches := createBatches (length l) batchSize l in
  concat batches = l
  /\ Forall (fun batch => 0 < length batch <= batchSize)%nat batches
  /\ (length l <= length batches * batchSize < length l + batchSize)%nat.
Proof.
  intros Hn batches. subst batches.
  apply createBatches_spec; [exact Hn | lia].
Qed.

Lemma batches_partition_the_elements_witness :
  createBatches 7 5 [2; 3; 5; 6; 8; 9; 10] = [[2; 3; 5; 6; 8]; [9; 10]]
  /\ concat (createBatches 7 5 [2; 3; 5; 6; 8; 9; 10]) = [2; 3; 5; 6; 8; 9; 10].
Proof.
  split; [reflexivity |].
  destruct (batches_partition_the_elements 5 [2; 3; 5; 6; 8; 9; 10] ltac:(lia))
    as (Hconcat & _).
  exact Hconcat.
Defined.

(** ** The pace of a scan *)

Section Pace.

Variable innerText : node -> string.
Variable computedPosition : node -> string.

Lemma atMost_refl (s : state) : atMost 0 s s.
Proof. split; lia. Qed.

Lemma atMost_trans (j k : nat) (s1 s2 s3 : state) :
  atMost j s1 s2 -> atMost k s2 s3 -> atMost (j + k) s1 s3.
Proof. intros [H1 H2] [H3 H4]. split; lia. Qed.

Lemma atMost_weaken (j k : nat) (s s' : state) :
  (j <= k)%nat -> atMost j s s' -> atMost k s s'.
Proof. intros Hjk [H1 H2]. split; lia. Qed.

Lemma atMost_queues (s s' : state) :
  pending s' = pending s -> sent s' = sent s -> atMost 0 s s'.
Proof. intros Hp Hs. unfold atMost, armedAnalyses. rewrite Hp, Hs. lia. Qed.

Lemma atMost_handleAnalysisResult (el : nat) (result : analysisResult) (s : state) :
  atMost 1 s (handleAnalysisResult computedPosition el result s).
Proof.
  destruct (handleAnalysisResult_frame computedPosition el result s)
    as (_ & _ & _ & Harmed).
  split; [rewrite Harmed; lia |].
  unfold handleAnalysisResult.
  destruct (negb (isHarmful result) || bool_decide (category result = "safe")); [lia |].
  set (s0 := if showWarnings (extensionSettings s) then _ else s).
  assert (H0 : sent s0 = sent s).
  { subst s0. destruct (showWarnings _); [| reflexivity].
    unfold addWarningIndicator.
    destruct (findElement el s) as [[a n]|]; [| reflexivity].
    destruct (querySelector _ n); [reflexivity |].
    now destruct (bool_decide _). }
  destruct (autoRephrase (extensionSettings s0)); [| simpl; rewrite H0; lia].
  unfold rephraseContent.
  destruct (findElement el s0) as [[a n]|]; [| rewrite H0; lia].
  destruct (_ || _); [simpl; rewrite H0; lia |].
  destruct n as [data | r e cs]; simpl; rewrite H0, ?length_app; simpl; lia.
Qed.

Lemma atMost_analyzeElement (el : nat) (s : state) :
  atMost 1 s (analyzeElement innerText computedPosition el s).
Proof.
  unfold analyzeElement.
  destruct (findElement el s) as [[a n]|]; [| split; lia].
  destruct (shouldIgnoreElement a n); [split; lia |].
  destruct (matches _ n); [split; lia |].
  destruct (negb (truthy (innerText n))); [split; lia |].
  destruct (String.length (trim (innerText n)) <? 10)%nat; [split; lia |].
  set (s1 := updateElement el markProcessed s).
  assert (H1 : atMost 0 s s1) by now apply atMost_queues.
  destruct (nonMeaningful a n _); [apply (atMost_weaken 0); [lia | exact H1] |].
  destruct (analyzedTextCache s1 !! trim (innerText n)) as [cached|].
  { apply (atMost_trans 0 1 s s1); [exact H1 | apply atMost_handleAnalysisResult]. }
  destruct (skippedByQuickCheck _); [apply (atMost_weaken 0); [lia | exact H1] |].
  set (s2 := if autoRephrase (extensionSettings s1) then _ else s1).
  assert (H2 : pending s2 = pending s /\ sent s2 = sent s)
    by (subst s2; now destruct (autoRephrase _)).
  destruct H2 as [Hp Hs].
  unfold atMost, armedAnalyses. simpl. rewrite Hp, Hs, omap_app, length_app. simpl. lia.
Qed.

Lemma atMost_analyzeBatch (batch : list nat) (s : state) :
  atMost (length batch) s (analyzeBatch innerText computedPosition batch s).
Proof.
  unfold analyzeBatch. revert s.
  induction batch as [|el batch IH]; intros s; [apply atMost_refl |].
  simpl. eapply (atMost_trans 1 (length batch));
    [apply atMost_analyzeElement | apply IH].
Qed.

Lemma atMost_processBatches (k : nat) (batches : list (list nat)) (index delay : nat)
    (s : state) :
  Forall (fun batch => length batch <= k)%nat batches ->
  atMost k s (processBatches innerText computedPosition batches index delay s).
Proof.
  intros Hall. unfold processBatches.
  destruct (batches !! index) as [batch|] eqn:E; [| split; lia].
  pose proof (proj1 (Forall_lookup _ _) Hall index batch E) as Hlen.
  cbv beta in Hlen.
  apply (atMost_weaken (length batch + 0)); [lia |].
  eapply atMost_trans; [apply atMost_analyzeBatch |].
  unfold atMost, armedAnalyses. simpl. rewrite omap_app, length_app. simpl. lia.
Qed.

Lemma createBatches_five (l : list nat) :
  Forall (fun batch => length batch <= 5)%nat (createBatches (length l) 5 l).
Proof.
  destruct (createBatches_spec 5 ltac:(lia) (length l) l ltac:(lia)) as (_ & H & _).
  eapply Forall_impl; [exact H |]. intros batch Hb. cbv beta in Hb. lia.
Qed.

Lemma atMost_setTimeout (t : task) (s : state) :
  (forall el text timeout, t <> AnalysisTimer el text timeout) ->
  atMost 0 s (setTimeout t s).
Proof.
  intros Ht. unfold atMost, armedAnalyses. simpl. rewrite omap_app, length_app.
  destruct t as [el txt timeout | | | | | | |]; simpl; try lia.
  now destruct (Ht el txt timeout).
Qed.

Lemma atMost_analyzePageContent (s : state) :
  atMost 5 s (analyzePageContent innerText computedPosition s).
Proof.
  unfold analyzePageContent.
  match goal with
  | |- atMost _ _ (match ?x with _ => _ end) => destruct x as [containers|]
  end; [| split; lia].
  match goal with
  | |- atMost _ _ (if ?c then _ else _) => destruct c
  end.
  - apply (atMost_weaken (5 + 0)); [lia |].
    eapply atMost_trans; [apply atMost_processBatches, createBatches_five |].
    now apply atMost_setTimeout.
  - apply atMost_processBatches, createBatches_five.
Qed.

Lemma atMost_secondaryScan (s : state) :
  atMost 5 s (secondaryScan innerText computedPosition s).
Proof. unfold secondaryScan. apply atMost_processBatches, createBatches_five. Qed.

End Pace.

(** X16. A call of [analyzePageContent] or of the secondary scan handles at
    most one batch of five elements at once: it arms at most five analysis
    timers and sends at most five messages; the other batches wait for
    their timer. *)
Theorem a_scan_handles_at_most_five_elements_at_once
    (innerText computedPosition : node -> string) (s : state) :
  atMost 5 s (analyzePageContent innerText computedPosition s)
  /\ atMost 5 s (secondaryScan innerText computedPosition s).
Proof.
  split; [apply atMost_analyzePageContent | apply atMost_secondaryScan].
Qed.

(** ** The literal patterns of [calculateLocalToxicityScore] *)

Section Literals.

Lemma sameLetter_refl (c : ascii) : sameLetter c c = true.
Proof. unfold sameLetter. now apply bool_decide_eq_true_2. Qed.

Lemma matchAt_Str {A : Type} (w rest : string) (k : option ascii -> string -> option A) :
  forall prev,
    exists prev', matchAt (Str w) prev (w +:+ rest) k = k prev' rest.
Proof.
  induction w as [|c w IH]; intros prev.
  - exists prev. reflexivity.
  - rewrite append_String. cbn [Str matchAt]. rewrite sameLetter_refl. apply IH.
Qed.

Lemma searchFrom_found (r : regex) (a s : string) :
  (forall prev, exec r prev s <> None) ->
  forall prev, searchFrom r prev (a +:+ s) = true.
Proof.
  intros Hs. induction a as [|c a IH]; intros prev.
  - rewrite append_empty_l. destruct s as [|x s]; cbn [searchFrom];
      specialize (Hs prev); now destruct (exec r prev _).
  - rewrite append_String. cbn [searchFrom].
    destruct (exec r prev (String c (a +:+ s))); [reflexivity | apply IH].
Qed.

Lemma test_literal (w a b : string) : test (Str w) (a +:+ w +:+ b) = true.
Proof.
  unfold test. apply searchFrom_found. intros prev. unfold exec.
  destruct (matchAt_Str w b (fun _ rest => Some rest) prev) as [prev' ->].
  discriminate.
Qed.

Lemma firstCategory_found (ps : list (string * list regex)) (lowerText : string)
    (category : string) (regexList : list regex) (regex : regex) :
  (category, regexList) ∈ ps -> regex ∈ regexList -> test regex lowerText = true ->
  exists found, AIGuardianUtils.firstCategory ps lowerText = Some found.
Proof.
  intros Hin Hr Ht. induction ps as [|[c l] ps IH]; [inversion Hin |].
  cbn [AIGuardianUtils.firstCategory].
  destruct (existsb (fun regex0 => test regex0 lowerText) l) eqn:E; [now exists c |].
  apply elem_of_cons in Hin as [Hin | Hin]; [| now apply IH].
  injection Hin as <- <-.
  assert (existsb (fun regex0 => test regex0 lowerText) regexList = true).
  { apply existsb_exists. exists regex. split; [now apply list_elem_of_In | exact Ht]. }
  congruence.
Qed.

Lemma firstCategory_key (ps : list (string * list regex)) (lowerText found : string) :
  AIGuardianUtils.firstCategory ps lowerText = Some found -> found ∈ map fst ps.
Proof.
  induction ps as [|[c l] ps IH]; [discriminate |].
  cbn [AIGuardianUtils.firstCategory map fst].
  destruct (existsb _ l).
  - intros [= ->]. apply elem_of_cons. now left.
  - intros H. apply elem_of_cons. right. now apply IH.
Qed.

Lemma literal_is_a_pattern (w : string) :
  w ∈ literalPatterns ->
  exists category regexList,
    (category, regexList) ∈ AIGuardianUtils.patterns /\ Str w ∈ regexList.
Proof.
  intros Hw. apply list_elem_of_In in Hw. unfold literalPatterns in Hw.
  cbn [List.In] in Hw.
  destruct Hw as [<- | [<- | Hw]].
  1, 2: eexists "harmful", _; split;
    [apply elem_of_cons; left; reflexivity |];
    apply list_elem_of_In; cbn [List.In]; tauto.
  eexists "inappropriate", _. split.
  - do 2 (apply elem_of_cons; right). apply elem_of_cons. left. reflexivity.
  - apply list_elem_of_In. cbn [List.In].
    destruct Hw as [<- | [<- | [<- | [<- | []]]]]; tauto.
Qed.

End Literals.

(** X17. The literal patterns of the local heuristic are found anywhere in
    the text, inside words too, and in any letter case: a text whose
    lower-case form contains one of them is classified as harmful content
    with confidence 0.7, under one of the three categories; and the
    category is [harmful] when the literal is one of the harmful list,
    whose patterns are tried first. *)
Theorem literal_patterns_match_anywhere_in_the_text (text a w b : string) :
  toLowerCase text = a +:+ w +:+ b ->
  w ∈ literalPatterns ->
  let result := AIGuardianUtils.calculateLocalToxicityScore text in
  AIGuardianUtils.isHarmful result = true
  /\ AIGuardianUtils.confidence result = 7 # 10
  /\ AIGuardianUtils.category result ∈ ["harmful"; "offensive"; "inappropriate"]
  /\ (w ∈ ["suicide method"; "kidnap"] -> AIGuardianUtils.category result = "harmful").
Proof.
  intros Hlower Hw result. subst result.
  unfold AIGuardianUtils.calculateLocalToxicityScore. rewrite Hlower.
  pose proof (test_literal w a b) as Htest.
  destruct (literal_is_a_pattern w Hw) as (c & l & Hc & Hl).
  destruct (firstCategory_found _ _ c l (Str w) Hc Hl Htest) as [found Hfound].
  pose proof (firstCategory_key _ _ _ Hfound) as Hkey.
  rewrite Hfound. cbn [AIGuardianUtils.isHarmful AIGuardianUtils.confidence
                         AIGuardianUtils.category].
  split; [reflexivity |]. split; [reflexivity |]. split; [exact Hkey |].
  intros Hharm. apply list_elem_of_In in Hharm. cbn [List.In] in Hharm.
  unfold AIGuardianUtils.patterns in Hfound.
  cbn [AIGuardianUtils.firstCategory existsb] in Hfound.
  destruct Hharm as [<- | [<- | []]]; rewrite Htest, ?orb_true_r in Hfound;
    now injection Hfound as <-.
Qed.

Lemma literal_patterns_match_anywhere_in_the_text_witness :
  AIGuardianUtils.isHarmful
    (AIGuardianUtils.calculateLocalToxicityScore "A weekend in SUSSEX") = true.
Proof.
  apply (literal_patterns_match_anywhere_in_the_text
           "A weekend in SUSSEX" "a weekend in sus" "sex" "");
    [reflexivity |].
  apply list_elem_of_In. cbn. tauto.
Defined.

(** * Further properties of the settings *)

Section SettingsFlow.

Variable innerText : node -> string.
Variable computedPosition : node -> string.

Lemma extensionSettings_onSettingsUpdated (x : settings) (s : state) :
  extensionSettings (onSettingsUpdated innerText computedPosition x s) = x.
Proof.
  destruct (enabled x) eqn:E.
  - unfold onSettingsUpdated. rewrite E.
    match goal with
    | |- extensionSettings (analyzePageContent _ _ ?s0) = _ =>
        rewrite (scans_settings _ _
                   (scans_analyzePageContent innerText computedPosition s0))
    end.
    change (observer (setExtensionSettings x s)) with (observer s).
    now destruct (observer s).
  - now apply extensionSettings_disabled.
Qed.

Lemma extensionSettings_settingsCallback (x : settings) (s : state) :
  extensionSettings (settingsCallback innerText computedPosition (Some x) s) = x.
Proof.
  unfold settingsCallback. destruct (enabled x); [| reflexivity].
  match goal with
  | |- extensionSettings (analyzePageContent _ _ ?s0) = _ =>
      rewrite (scans_settings _ _
                 (scans_analyzePageContent innerText computedPosition s0))
  end.
  reflexivity.
Qed.

End SettingsFlow.

(** X18. The settings saved in the popup are the ones every content script
    ends up with: each tab is sent [SETTINGS_UPDATED] with the settings the
    controls show, a content script that receives it holds exactly these
    settings afterwards, a content script that asks later gets them from
    [GET_SETTINGS] and holds them, and a tab that finishes loading is sent
    [PAGE_CHANGED] exactly when the main toggle is on. *)
Theorem saved_settings_reach_every_content_script
    (innerText computedPosition : node -> string)
    (ui : Extension.controls) (tabs : list nat) (st : Extension.storage) :
  let saved := Extension.saveSettings ui tabs st in
  Forall (fun told => told.2 = SETTINGS_UPDATED (shown ui)) saved.2
  /\ map fst saved.2 = tabs
  /\ Extension.onGetSettings saved.1 = Some (shown ui)
  /\ (forall s : state,
        extensionSettings
          (step innerText computedPosition (SETTINGS_UPDATED (shown ui)) s)
        = shown ui)
  /\ (forall (s : state) (i : nat),
        pending s !! i = Some AwaitSettings ->
        extensionSettings
          (step innerText computedPosition
             (SettingsResponse i (Extension.onGetSettings saved.1)) s)
        = shown ui)
  /\ (forall tabId : nat,
        Extension.onTabUpdated tabId (Some "complete") saved.1
        = if Extension.mainToggle ui then [(tabId, PAGE_CHANGED)] else []).
Proof.
  intros saved. subst saved. cbn [Extension.saveSettings fst snd].
  fold (shown ui).
  split; [| split; [| split; [| split; [| split]]]].
  - apply Forall_map. apply Forall_forall. now intros tab _.
  - rewrite map_map. cbn [fst]. apply map_id.
  - reflexivity.
  - intros s. cbn [step]. apply extensionSettings_onSettingsUpdated.
  - intros s i Hi. cbn [step]. rewrite Hi.
    unfold Extension.onGetSettings. cbn [Extension.settingsOrDefault].
    apply extensionSettings_settingsCallback.
  - intros tabId. reflexivity.
Qed.

Lemma saved_settings_reach_every_content_script_witness :
  pending (initializeExtension Sample.sampleState) !! 0%nat = Some AwaitSettings
  /\ extensionSettings
       (step Sample.rendered Sample.static
          (SettingsResponse 0
             (Extension.onGetSettings
                (Extension.saveSettings (Extension.Controls false true false "high")
                   [3; 7]%nat None).1))
          (initializeExtension Sample.sampleState))
     = Settings false true false "high".
Proof.
  split; [reflexivity |].
  exact (proj1 (proj2 (proj2 (proj2 (proj2
           (saved_settings_reach_every_content_script Sample.rendered Sample.static
              (Extension.Controls false true false "high") [3; 7]%nat None)))))
           (initializeExtension Sample.sampleState) 0%nat eq_refl).
Defined.

(** * Further properties of the DOM utilities *)

Section Extraction.
Import DOMGuardianUtils.
Local Open Scope Z_scope.

Lemma processNode_visited (n : node) :
  forall acc, processNode n acc
              = fold_left (fun acc data => processNode (Text data) acc) (visited n) acc.
Proof.
  induction n as [data | r e cs IH] using node_ind'; intros acc.
  - reflexivity.
  - cbn [processNode visited].
    destruct (existsb _ (classList e)); [reflexivity |].
    revert acc. induction IH as [| c cs Hc _ IHcs]; intros acc; [reflexivity |].
    cbn [fold_left flat_map]. rewrite fold_left_app, Hc. apply IHcs.
Qed.

Lemma fold_processNode (ds : list string) :
  forall acc,
    fold_left (fun acc data => processNode (Text data) acc) ds acc
    = {| textPieces := textPieces acc ++ map trim (kept ds);
         nodeMapping := nodeMapping acc ++ spans (currentIndex acc) (kept ds);
         currentIndex := currentIndex acc + total (kept ds) |}.
Proof.
  induction ds as [| d ds IH]; intros acc.
  - cbn. rewrite !app_nil_r, Z.add_0_r. now destruct acc.
  - cbn [fold_left]. rewrite IH. cbn [processNode kept List.filter].
    fold (kept ds).
    destruct (0 <? String.length (trim d))%nat; [| reflexivity].
    cbn [textPieces nodeMapping currentIndex map spans total].
    rewrite <- !app_assoc. cbn [app]. now rewrite Z.add_assoc.
Qed.

Lemma extractTextWithMapping_spans (element : node) :
  extractTextWithMapping element
  = {| text := join " " (map trim (kept (visited element)));
       mapping := spans 0 (kept (visited element)) |}.
Proof.
  unfold extractTextWithMapping. now rewrite processNode_visited, fold_processNode.
Qed.

Lemma kept_positive (ds : list string) :
  Forall (fun d => (0 < String.length (trim d))%nat) (kept ds).
Proof.
  apply Forall_forall. intros d Hd. apply list_elem_of_In, filter_In in Hd.
  destruct Hd as [_ Hd]. now apply Nat.ltb_lt in Hd.
Qed.

Lemma tiles_spans (ds : list string) :
  Forall (fun d => (0 < String.length (trim d))%nat) ds ->
  forall from, tiles from (map fst (spans from ds)) (from + total ds).
Proof.
  induction 1 as [| d ds Hd _ IH]; intros from; cbn.
  - lia.
  - split; [reflexivity |]. split; [lia |].
    specialize (IH (from + Z.of_nat (String.length (trim d)))).
    now rewrite <- Z.add_assoc in IH.
Qed.

Lemma covered_spans (ds : list string) :
  forall from, covered (spans from ds) = match ds with [] => 0 | _ :: _ => from + total ds end.
Proof.
  unfold covered. induction ds as [| d ds IH]; intros from; [reflexivity |].
  cbn [spans]. destruct ds as [| d' ds].
  - cbn. lia.
  - change (spans (from + Z.of_nat (String.length (trim d))) (d' :: ds))
      with (let till := from + Z.of_nat (String.length (trim d)) in
            ((till, till + Z.of_nat (String.length (trim d'))), Text d')
              :: spans (till + Z.of_nat (String.length (trim d'))) ds) in *.
    cbv zeta. rewrite last_cons_cons.
    specialize (IH (from + Z.of_nat (String.length (trim d)))).
    cbn [spans] in IH. rewrite IH. cbn [total]. lia.
Qed.


Lemma substring_prefix (p s : string) :
  substring 0 (String.length p) (p +:+ s) = p.
Proof.
  induction p as [| c p IH]; cbn.
  - now destruct s.
  - rewrite append_String. cbn. now rewrite IH.
Qed.

Lemma substring_skip (a s : string) (n m : nat) :
  substring (String.length a + n) m (a +:+ s) = substring n m s.
Proof.
  induction a as [| c a IH]; [reflexivity |].
  rewrite append_String. cbn. exact IH.
Qed.

Lemma substring_join (ps : list string) :
  forall (k : nat) (p : string),
    ps !! k = Some p ->
    substring (String.length (joined (take k ps)) + k) (String.length p)
              (join " " ps) = p.
Proof.
  induction ps as [| q rest IH]; intros k p Hk; [discriminate |].
  destruct k as [| k].
  - injection Hk as ->. cbn [take joined fold_right String.length Nat.add join].
    destruct rest; [| apply substring_prefix].
    rewrite <- (append_empty_r p) at 2. apply substring_prefix.
  - cbn [lookup list_lookup] in Hk. change (rest !! k = Some p) in Hk.
    cbn [take join]. destruct rest as [| q' rest']; [discriminate |].
    change (joined (q :: take k (q' :: rest')))
      with (q +:+ joined (take k (q' :: rest'))).
    rewrite length_append.
    replace (String.length q + String.length (joined (take k (q' :: rest'))) + S k)%nat
      with (String.length q
            + (String.length " " + (String.length (joined (take k (q' :: rest'))) + k)))%nat
      by (cbn; lia).
    rewrite !substring_skip. now apply IH.
Qed.

Lemma total_joined (ds : list string) :
  total ds = Z.of_nat (String.length (joined (map trim ds))).
Proof.
  induction ds as [| d ds IH]; [reflexivity |].
  cbn [total map]. change (joined (trim d :: map trim ds))
    with (trim d +:+ joined (map trim ds)).
  rewrite length_append, IH. lia.
Qed.

Lemma spans_lookup (ds : list string) :
  forall (from : Z) (k : nat) (a b : Z) (n : node),
    spans from ds !! k = Some ((a, b), n) ->
    exists d, ds !! k = Some d /\ n = Text d
              /\ a = from + total (take k ds)
              /\ b = a + Z.of_nat (String.length (trim d)).
Proof.
  induction ds as [| d ds IH]; intros from k a b n Hk; [discriminate |].
  destruct k as [| k].
  - cbn in Hk. injection Hk as <- <- <-. exists d. cbn. repeat split; lia.
  - cbn [spans] in Hk. apply (IH _ k) in Hk.
    destruct Hk as (d' & Hd & -> & -> & ->). exists d'.
    cbn [take total]. repeat split; [exact Hd | lia].
Qed.

Lemma spans_pieces (ds : list string) :
  forall from,
    map (fun entry : Z * Z * node => trim (textContent entry.2)) (spans from ds)
    = map trim ds.
Proof.
  induction ds as [| d ds IH]; intros from; [reflexivity |].
  cbn [spans map snd textContent]. now rewrite IH.
Qed.

(** What [findNodesInRange] finds among consecutive ranges. *)
Lemma findNodesInRange_cons (a b : Z) (n : node) (m : list ((Z * Z) * node))
    (start end_ : Z) :
  findNodesInRange (((a, b), n) :: m) start end_
  = (if negb ((end_ <=? a) || (start >=? b))
     then [{| affectedNode := n;
              overlap := (Z.max start a, Z.min end_ b);
              range := (a, b) |}]
     else [])
    ++ findNodesInRange m start end_.
Proof.
  unfold findNodesInRange. cbn [omap list_omap].
  now destruct (negb _).
Qed.

Lemma findNodesInRange_after (ds : list string) :
  forall from start end_,
    end_ <= from ->
    findNodesInRange (spans from ds) start end_ = [].
Proof.
  induction ds as [| d ds IH]; intros from start end_ H; [reflexivity |].
  cbn [spans]. rewrite findNodesInRange_cons.
  destruct (Z.leb_spec end_ from); [| lia]. cbn [orb negb app].
  apply IH. lia.
Qed.

Lemma findNodesInRange_tiles (ds : list string) :
  Forall (fun d => (0 < String.length (trim d))%nat) ds ->
  forall from start end_,
    Z.max start from < end_ -> end_ <= from + total ds ->
    tiles (Z.max start from)
          (map overlap (findNodesInRange (spans from ds) start end_)) end_.
Proof.
  induction 1 as [| d ds Hd _ IH]; intros from start end_ H1 H2.
  - cbn in H2. lia.
  - cbn [total] in H2. cbn [spans]. rewrite findNodesInRange_cons.
    set (till := from + Z.of_nat (String.length (trim d))) in *.
    assert (from < till) by (subst till; lia).
    destruct (Z.leb_spec end_ from); [lia |]. cbn [orb].
    unfold Z.geb.
    destruct (Z.compare_spec start till) as [E | E | E]; cbn [negb app].
    + replace (Z.max start from) with (Z.max start till) by lia.
      apply IH; lia.
    + cbn [map overlap tiles]. split; [reflexivity |]. split; [lia |].
      destruct (Z_le_gt_dec end_ till) as [L | L].
      * rewrite findNodesInRange_after by lia. cbn. lia.
      * rewrite Z.min_r by lia.
        replace till with (Z.max start till) at 1 by lia.
        apply IH; lia.
    + replace (Z.max start from) with (Z.max start till) by lia.
      apply IH; lia.
Qed.

Lemma findNodesInRange_entries (m : list ((Z * Z) * node)) (start end_ : Z) :
  Forall (fun f => (range f, affectedNode f) ∈ m
                   /\ overlap f = (Z.max start (range f).1, Z.min end_ (range f).2))
         (findNodesInRange m start end_).
Proof.
  induction m as [| [[a b] n] m IH]; [constructor |].
  rewrite findNodesInRange_cons. apply Forall_app. split.
  - destruct (negb _); constructor; [| constructor].
    cbn. split; [left | reflexivity].
  - eapply Forall_impl; [exact IH |]. intros f [Hf Ho]. split; [now right | exact Ho].
Qed.


Lemma total_nonneg (ds : list string) : 0 <= total ds.
Proof. rewrite total_joined. lia. Qed.

Lemma findNodesInRange_before (ds : list string) :
  forall from start end_,
    from + total ds <= start ->
    findNodesInRange (spans from ds) start end_ = [].
Proof.
  induction ds as [| d ds IH]; intros from start end_ H; [reflexivity |].
  cbn [spans total] in *. rewrite findNodesInRange_cons.
  pose proof (total_nonneg ds).
  destruct (Z.geb_spec start (from + Z.of_nat (String.length (trim d)))); [| lia].
  rewrite orb_true_r. cbn [negb app]. apply IH. lia.
Qed.

Lemma findNodesInRange_inside (ds : list string) (start end_ : Z) :
  end_ <= start ->
  forall (from : Z) (k : nat) (a b : Z) (n : node),
    spans from ds !! k = Some ((a, b), n) ->
    a < end_ -> start < b ->
    findNodesInRange (spans from ds) start end_
    = [{| affectedNode := n; overlap := (start, end_); range := (a, b) |}].
Proof.
  intros Hse. induction ds as [| d ds IH]; intros from k a b n Hk Ha Hb;
    [discriminate |].
  cbn [spans] in *. rewrite findNodesInRange_cons. destruct k as [| k].
  - cbn in Hk. injection Hk as <- <- <-.
    destruct (Z.leb_spec end_ from); [lia |].
    destruct (Z.geb_spec start (from + Z.of_nat (String.length (trim d)))); [lia |].
    cbn [orb negb app]. rewrite findNodesInRange_after by lia.
    now rewrite Z.max_l, Z.min_l by lia.
  - cbn [lookup list_lookup] in Hk.
    change (spans (from + Z.of_nat (String.length (trim d))) ds !! k = Some ((a, b), n)) in Hk.
    pose proof (spans_lookup _ _ _ _ _ _ Hk) as (d' & _ & _ & Ea & _).
    pose proof (total_nonneg (take k ds)).
    destruct (Z.geb_spec start (from + Z.of_nat (String.length (trim d)))); [| lia].
    rewrite orb_true_r. cbn [negb app]. now apply (IH _ k).
Qed.

End Extraction.

Section Ranges.
Local Open Scope Z_scope.

(** X19. [extractTextWithMapping] joins the trimmed texts of the text nodes
    it keeps with single spaces, but counts the ranges without the spaces:
    the ranges are consecutive from 0 and none is empty, every entry is a
    text node, and the piece of the entry number [k] (from 0) stands in the
    text at its range moved [k] characters to the right. *)
Theorem extracted_ranges_leave_out_the_separators (element : node) :
  let r := DOMGuardianUtils.extractTextWithMapping element in
  DOMGuardianUtils.text r
  = DOMGuardianUtils.join " "
      (map (fun entry => trim (textContent entry.2)) (DOMGuardianUtils.mapping r))
  /\ tiles 0 (map fst (DOMGuardianUtils.mapping r)) (covered (DOMGuardianUtils.mapping r))
  /\ forall (k : nat) (a b : Z) (n : node),
       DOMGuardianUtils.mapping r !! k = Some ((a, b), n) ->
       (exists data, n = Text data)
       /\ 0 <= a < b
       /\ substring (Z.to_nat a + k) (Z.to_nat (b - a)) (DOMGuardianUtils.text r)
          = trim (textContent n).
Proof.
  intros r. subst r. rewrite extractTextWithMapping_spans.
  cbn [DOMGuardianUtils.text DOMGuardianUtils.mapping].
  set (ds := kept (visited element)).
  assert (Hpos : Forall (fun d => (0 < String.length (trim d))%nat) ds)
    by apply kept_positive.
  split; [| split].
  - now rewrite spans_pieces.
  - rewrite covered_spans.
    pose proof (tiles_spans ds Hpos 0) as Ht.
    destruct ds; [exact Ht | exact Ht].
  - intros k a b n Hk. apply spans_lookup in Hk.
    destruct Hk as (d & Hd & -> & -> & ->).
    assert (0 < String.length (trim d))%nat
      by (exact (proj1 (Forall_lookup _ ds) Hpos k d Hd)).
    assert (0 <= total (take k ds)) by (rewrite total_joined; lia).
    split; [now exists d |]. split; [lia |].
    cbn [snd textContent].
    replace (Z.to_nat (0 + total (take k ds)))
      with (String.length (joined (take k (map trim ds))))
      by (rewrite total_joined, <- fmap_take; change (trim <$> take k ds) with (map trim (take k ds)); lia).
    replace (Z.to_nat _) with (String.length (trim d)) by lia.
    apply substring_join.
    change (map trim ds) with (trim <$> ds). now rewrite list_lookup_fmap, Hd.
Qed.

(** X20. For a range inside what the mapping covers, the overlaps that
    [findNodesInRange] reports go from the start of the range to its end
    without a gap, in the order of the mapping; every entry reported is an
    entry of the mapping and its overlap lies inside its range. *)
Theorem nodes_found_in_a_range_cover_it (element : node) (start end_ : Z) :
  let mapping := DOMGuardianUtils.mapping (DOMGuardianUtils.extractTextWithMapping element) in
  0 <= start -> start < end_ -> end_ <= covered mapping ->
  let found := DOMGuardianUtils.findNodesInRange mapping start end_ in
  tiles start (map DOMGuardianUtils.overlap found) end_
  /\ Forall (fun f =>
               (DOMGuardianUtils.range f, DOMGuardianUtils.affectedNode f) ∈ mapping
               /\ (DOMGuardianUtils.range f).1 <= (DOMGuardianUtils.overlap f).1
               /\ (DOMGuardianUtils.overlap f).2 <= (DOMGuardianUtils.range f).2)
            found.
Proof.
  intros mapping. subst mapping. rewrite extractTextWithMapping_spans.
  cbn [DOMGuardianUtils.mapping]. intros H0 H1 H2.
  set (ds := kept (visited element)) in *.
  split.
  - rewrite covered_spans in H2.
    replace start with (Z.max start 0) at 1 by lia.
    apply findNodesInRange_tiles; [apply kept_positive | lia |].
    destruct ds; [lia | exact H2].
  - eapply Forall_impl; [apply findNodesInRange_entries |].
    intros f [Hf Ho]. split; [exact Hf |]. rewrite Ho. cbn [fst snd]. lia.
Qed.

Lemma nodes_found_in_a_range_cover_it_witness :
  tiles 3
    (map DOMGuardianUtils.overlap
       (DOMGuardianUtils.findNodesInRange
          (DOMGuardianUtils.mapping (DOMGuardianUtils.extractTextWithMapping Sample.sampleElement))
          3 9))
    9.
Proof.
  apply (nodes_found_in_a_range_cover_it Sample.sampleElement 3 9); vm_compute; congruence.
Defined.

(** X21. A range that ends at or before 0, or starts at or after the end
    of the last range of the mapping, finds no node. *)
Theorem a_range_outside_the_text_finds_no_node (element : node) (start end_ : Z) :
  let mapping := DOMGuardianUtils.mapping (DOMGuardianUtils.extractTextWithMapping element) in
  end_ <= 0 \/ covered mapping <= start ->
  DOMGuardianUtils.findNodesInRange mapping start end_ = [].
Proof.
  intros mapping. subst mapping. rewrite extractTextWithMapping_spans.
  cbn [DOMGuardianUtils.mapping]. rewrite covered_spans.
  intros [H | H].
  - now apply findNodesInRange_after.
  - apply findNodesInRange_before. destruct (kept (visited element)); [cbn; lia | exact H].
Qed.

Lemma a_range_outside_the_text_finds_no_node_witness :
  DOMGuardianUtils.findNodesInRange
    (DOMGuardianUtils.mapping (DOMGuardianUtils.extractTextWithMapping Sample.sampleElement))
    13 20 = [].
Proof.
  apply (a_range_outside_the_text_finds_no_node Sample.sampleElement 13 20).
  right. vm_compute. congruence.
Defined.

(** X22. An empty or reversed range ([end_ <= start]) that lies strictly
    inside the range of one text node is not treated as empty: exactly that
    node is reported, with the overlap [(start, end_)], whose end is not
    after its start. *)
Theorem an_empty_or_reversed_range_inside_a_text_finds_its_node
    (element : node) (start end_ a b : Z) (n : node) :
  let mapping := DOMGuardianUtils.mapping (DOMGuardianUtils.extractTextWithMapping element) in
  ((a, b), n) ∈ mapping ->
  a < end_ -> end_ <= start -> start < b ->
  DOMGuardianUtils.findNodesInRange mapping start end_
  = [{| DOMGuardianUtils.affectedNode := n;
        DOMGuardianUtils.overlap := (start, end_);
        DOMGuardianUtils.range := (a, b) |}].
Proof.
  intros mapping. subst mapping. rewrite extractTextWithMapping_spans.
  cbn [DOMGuardianUtils.mapping]. intros Hin Ha Hse Hb.
  apply list_elem_of_lookup in Hin. destruct Hin as [k Hk].
  now apply (findNodesInRange_inside _ _ _ Hse 0 k).
Qed.

Lemma an_empty_or_reversed_range_inside_a_text_finds_its_node_witness :
  DOMGuardianUtils.findNodesInRange
    (DOMGuardianUtils.mapping (DOMGuardianUtils.extractTextWithMapping Sample.sampleElement))
    7 6
  = [{| DOMGuardianUtils.affectedNode := Text "big";
        DOMGuardianUtils.overlap := (7, 6);
        DOMGuardianUtils.range := (5, 8) |}].
Proof.
  apply (an_empty_or_reversed_range_inside_a_text_finds_its_node
           Sample.sampleElement 7 6 5 8 (Text "big")).
  - vm_compute. right. left.
  - lia.
  - lia.
  - lia.
Defined.

End Ranges.
